(** * Bananaeleven: the client-side job queue of the batch image changer

    A shallow embedding of the queue / scheduler core of [src/App.tsx]
    (with [src/types.ts] and the call into [src/services/geminiService.ts])
    and the properties of it that the specification states.

    Conventions of the embedding.
    - A React state cell and the ref that mirrors it ([files] / [filesRef],
      [autoRetry] / [autoRetryRef], ...) are one field: the [useEffect] hooks
      copy the cell into the ref after every render, and the loop waits at
      least 100 ms between two reads ("Small debounce to allow state to
      settle"), so a read of the ref sees the last committed state.
    - [setFiles(prev => g(prev))] is the store update [g].
    - An optional field [x?: T] is [option T]; writing [undefined] into it is
      [None].
    - [Date.now()], [crypto.randomUUID()] and [URL.createObjectURL] are
      inputs of the operation that calls them.
    - [URL.revokeObjectURL] does not touch the store and is left out.
    - An [async] function that runs to a write-back is a function of the
      answers it receives from outside (type [World] below).
    - [processQueue] tests the [isProcessing] of the render that created it,
      not the cell: a handler belongs to the last render, so the call it
      queues with [setTimeout] carries the value committed when the handler
      ran, and tests that value when the timer fires. Several loops of
      [processQueue] can therefore run at once; the state counts them. *)

From Stdlib Require Import Ascii String QArith.Qcanon Sorting.Sorted.
From stdpp Require Import base decidable option numbers list strings pretty gmap.

Set Warnings "-clear-no-such-hyp".
Close Scope Qc_scope.
Close Scope Q_scope.
Local Open Scope Z_scope.

(** ** 1. Data model ([src/types.ts]) *)

Inductive ProcessingStatus : Set :=
  | IDLE
  | PENDING
  | PROCESSING
  | COMPLETED
  | FAILED.

#[global] Instance ProcessingStatus_eq_dec : EqDecision ProcessingStatus.
Proof. solve_decision. Defined.

(** The two DOM objects the queue touches: only their name, MIME type and
    bytes are read. *)
Record Blob : Set := mkBlob {
  blob_type : string;
  blob_data : string
}.

Record File : Set := mkFile {
  file_name : string;
  file_type : string;
  file_data : string
}.

#[global] Instance Blob_eq_dec : EqDecision Blob.
Proof. solve_decision. Defined.

#[global] Instance File_eq_dec : EqDecision File.
Proof. solve_decision. Defined.

Record ImageFile : Set := mkImageFile {
  id : string;
  file : File;
  previewUrl : string;
  status : ProcessingStatus;
  secondaryFile : option File;
  secondaryPreviewUrl : option string;
  resultUrl : option string;
  resultBlob : option Blob;
  error : option string;
  retryTimestamp : option Z;
  customPrompt : option string;
  isRetry : option bool;
  lastActivityTimestamp : Z
}.

#[global] Instance ImageFile_eq_dec : EqDecision ImageFile.
Proof. solve_decision. Defined.

(** Object spread with one overridden key, [{ ...f, key: v }]. *)
Definition with_status (v : ProcessingStatus) (f : ImageFile) : ImageFile :=
  mkImageFile (id f) (file f) (previewUrl f) v (secondaryFile f)
    (secondaryPreviewUrl f) (resultUrl f) (resultBlob f) (error f)
    (retryTimestamp f) (customPrompt f) (isRetry f) (lastActivityTimestamp f).

Definition with_resultUrl (v : option string) (f : ImageFile) : ImageFile :=
  mkImageFile (id f) (file f) (previewUrl f) (status f) (secondaryFile f)
    (secondaryPreviewUrl f) v (resultBlob f) (error f)
    (retryTimestamp f) (customPrompt f) (isRetry f) (lastActivityTimestamp f).

Definition with_resultBlob (v : option Blob) (f : ImageFile) : ImageFile :=
  mkImageFile (id f) (file f) (previewUrl f) (status f) (secondaryFile f)
    (secondaryPreviewUrl f) (resultUrl f) v (error f)
    (retryTimestamp f) (customPrompt f) (isRetry f) (lastActivityTimestamp f).

Definition with_error (v : option string) (f : ImageFile) : ImageFile :=
  mkImageFile (id f) (file f) (previewUrl f) (status f) (secondaryFile f)
    (secondaryPreviewUrl f) (resultUrl f) (resultBlob f) v
    (retryTimestamp f) (customPrompt f) (isRetry f) (lastActivityTimestamp f).

Definition with_customPrompt (v : option string) (f : ImageFile) : ImageFile :=
  mkImageFile (id f) (file f) (previewUrl f) (status f) (secondaryFile f)
    (secondaryPreviewUrl f) (resultUrl f) (resultBlob f) (error f)
    (retryTimestamp f) v (isRetry f) (lastActivityTimestamp f).

Definition with_isRetry (v : option bool) (f : ImageFile) : ImageFile :=
  mkImageFile (id f) (file f) (previewUrl f) (status f) (secondaryFile f)
    (secondaryPreviewUrl f) (resultUrl f) (resultBlob f) (error f)
    (retryTimestamp f) (customPrompt f) v (lastActivityTimestamp f).

Definition with_lastActivityTimestamp (v : Z) (f : ImageFile) : ImageFile :=
  mkImageFile (id f) (file f) (previewUrl f) (status f) (secondaryFile f)
    (secondaryPreviewUrl f) (resultUrl f) (resultBlob f) (error f)
    (retryTimestamp f) (customPrompt f) (isRetry f) v.

(** JavaScript truthiness of an optional string: present and not empty. *)
Definition truthy (o : option string) : bool :=
  match o with
  | Some s => negb (String.eqb s "")
  | None => false
  end.

(** The settings the worker and the loop read through refs. *)
Record Settings : Set := mkSettings {
  apiKey : option string;
  customPromptTemplate : string;
  temperature : Qc;
  autoRetry : bool;
  enableDelay : bool;
  enableConcurrency : bool;
  maxConcurrency : Z
}.

(** ** 2. Strings: the two [replace] calls of [processSingleFile] *)

(** [/\.[^/.]+$/] anchored at the head of [s]: a dot, then one or more
    characters that are neither a slash nor a dot, then the end. *)
Fixpoint extensionChars (s : string) : bool :=
  match s with
  | EmptyString => true
  | String c s' =>
      negb (Ascii.eqb c "/"%char) && negb (Ascii.eqb c "."%char) && extensionChars s'
  end.

Definition extensionAt (s : string) : bool :=
  match s with
  | String c rest =>
      Ascii.eqb c "."%char && negb (String.eqb rest "") && extensionChars rest
  | EmptyString => false
  end.

(** [name.replace(/\.[^/.]+$/, "")]: the leftmost position where the
    pattern matches is cut off together with the rest of the string. *)
Fixpoint removeExtension (s : string) : string :=
  if extensionAt s then ""
  else match s with
       | EmptyString => ""
       | String c s' => String c (removeExtension s')
       end.

(** The first occurrence of [pat] in [s]: what stands before and after it. *)
Fixpoint splitFirst (pat s : string) : option (string * string) :=
  if String.prefix pat s
  then Some ("", String.substring (String.length pat)
                   (String.length s - String.length pat)%nat s)
  else match s with
       | EmptyString => None
       | String c s' =>
           match splitFirst pat s' with
           | Some (before, after) => Some (String c before, after)
           | None => None
           end
       end.

(** ECMAScript GetSubstitution for a string pattern (no captures): in the
    replacement text [$$] is a dollar, [$&] the match, [$`] the text before
    it and [$'] the text after it; every other character, a lone dollar
    included, stands for itself. *)
Fixpoint getSubstitution (matched before after replacement : string) : string :=
  match replacement with
  | EmptyString => ""
  | String c r =>
      if Ascii.eqb c "$"%char then
        match r with
        | EmptyString => "$"
        | String d r' =>
            if Ascii.eqb d "$"%char then
              String "$"%char (getSubstitution matched before after r')
            else if Ascii.eqb d "&"%char then
              matched +:+ getSubstitution matched before after r'
            else if Ascii.eqb d "`"%char then
              before +:+ getSubstitution matched before after r'
            else if Ascii.eqb d "'"%char then
              after +:+ getSubstitution matched before after r'
            else String c (getSubstitution matched before after r)
        end
      else String c (getSubstitution matched before after r)
  end.

(** [s.replace(pat, replacement)] with a string pattern: the first
    occurrence only. *)
Definition replace (pat replacement s : string) : string :=
  match splitFirst pat s with
  | Some (before, after) =>
      before +:+ getSubstitution pat before after replacement +:+ after
  | None => s
  end.

(** Lines 239-246 of [App.tsx]. *)
Definition finalPrompt (template : string) (fileItem : ImageFile) : string :=
  if truthy (customPrompt fileItem) then default "" (customPrompt fileItem)
  else
    let fileNameWithoutExt := removeExtension (file_name (file fileItem)) in
    replace "{filename}" fileNameWithoutExt template.

(** ** 3. The worker ([processSingleFile], [processFileBackground]) *)

(** A value a JavaScript [throw] or a rejected promise carries, as far as
    the queue looks at it: [lastError || ...] tests whether it is falsy and
    the wrapper reads its [message]. *)
Inductive JsThrown : Set :=
  | ThrownNull
  | ThrownUndefined
  | ThrownFalsy                            (* 0, NaN, false, the empty string *)
  | ThrownObject (message : option string) (* anything else; its [.message] *).

Definition newError (message : string) : JsThrown := ThrownObject (Some message).

(** How an awaited call ends. *)
Inductive Settled (A : Type) : Type :=
  | Fulfilled (value : A)
  | Rejected (reason : JsThrown).
Arguments Fulfilled {A} value.
Arguments Rejected {A} reason.

(** What one worker meets while it runs. [attempts] numbers the calls from 1,
    as the code's counter does.
    - [translateImageWithGemini n ...]: the outcome of the n-th call of the
      Transform Service;
    - [fetchBlob n url]: the outcome of [fetch(url)] followed by [.blob()]
      in attempt n;
    - [abortAtLoopTop n]: [abortControllerRef.current] as read at the top of
      the [while] body when [attempts = n];
    - [abortInCatch n]: the same ref as read in the [catch] of attempt n. *)
Record World : Type := mkWorld {
  translateImageWithGemini :
    nat -> list File -> string -> Qc -> string -> Settled string;
  fetchBlob : nat -> string -> Settled Blob;
  abortAtLoopTop : nat -> bool;
  abortInCatch : nat -> bool
}.

(** What a run of [processSingleFile] amounts to: how its promise settles,
    how many times it called the Transform Service and how many 1.5 s
    back-off pauses it took. *)
Record WorkerRun : Set := mkWorkerRun {
  settled : Settled ImageFile;
  attempts : nat;
  backoffs : nat
}.

(** [lastError || new Error("Processing failed")] *)
Definition lastErrorOr (lastError : option JsThrown) (message : string) : JsThrown :=
  match lastError with
  | Some (ThrownObject m) => ThrownObject m
  | Some ThrownNull | Some ThrownUndefined | Some ThrownFalsy | None =>
      newError message
  end.

(** The object returned on success, lines 269-275. *)
Definition completedFile (fileItem : ImageFile) (resultBase64 : string) (blob : Blob)
  : ImageFile :=
  with_error None
    (with_resultBlob (Some blob)
      (with_resultUrl (Some resultBase64)
        (with_status COMPLETED fileItem))).

(** The [while (attempts < maxAttempts)] loop, lines 258-284. [remaining] is
    [maxAttempts - attempts]: it is zero exactly when the loop condition
    fails, and it drops by one with [attempts++]. *)
Fixpoint attemptLoop (w : World) (fileItem : ImageFile) (filesToProcess : list File)
    (prompt : string) (currentTemp : Qc) (currentApiKey : string)
    (maxAttempts remaining attempts : nat) (lastError : option JsThrown)
    (backoffs : nat) : WorkerRun :=
  match remaining with
  | O =>
      mkWorkerRun (Rejected (lastErrorOr lastError "Processing failed"))
        attempts backoffs
  | S remaining' =>
      if abortAtLoopTop w attempts then
        (* break *)
        mkWorkerRun (Rejected (lastErrorOr lastError "Processing failed"))
          attempts backoffs
      else
        let attempts := S attempts in
        let caught (error : JsThrown) : WorkerRun :=
          let backoffs :=
            if (attempts <? maxAttempts)%nat && negb (abortInCatch w attempts)
            then S backoffs else backoffs in
          attemptLoop w fileItem filesToProcess prompt currentTemp currentApiKey
            maxAttempts remaining' attempts (Some error) backoffs in
        match translateImageWithGemini w attempts filesToProcess prompt
                currentTemp currentApiKey with
        | Fulfilled resultBase64 =>
            match fetchBlob w attempts resultBase64 with
            | Fulfilled blob =>
                mkWorkerRun (Fulfilled (completedFile fileItem resultBase64 blob))
                  attempts backoffs
            | Rejected error => caught error
            end
        | Rejected error => caught error
        end
  end.

Definition processSingleFile (cfg : Settings) (w : World) (fileItem : ImageFile)
  : WorkerRun :=
  let currentTemp := temperature cfg in
  let currentAutoRetry := autoRetry cfg in
  let currentApiKey := apiKey cfg in
  if negb (truthy currentApiKey) then
    mkWorkerRun (Rejected (newError "API Key is missing")) 0 0
  else
    let prompt := finalPrompt (customPromptTemplate cfg) fileItem in
    let maxAttempts := if currentAutoRetry then 3%nat else 1%nat in
    let filesToProcess :=
      file fileItem :: match secondaryFile fileItem with
                       | Some f2 => [f2]
                       | None => []
                       end in
    attemptLoop w fileItem filesToProcess prompt currentTemp
      (default "" currentApiKey) maxAttempts maxAttempts 0 None 0.

(** [error.message || "Unknown error"], for a value that is not nullish. *)
Definition messageOr (e : JsThrown) (fallback : string) : string :=
  match e with
  | ThrownObject (Some m) => if String.eqb m "" then fallback else m
  | _ => fallback
  end.

(** The store update [prev.map(f => f.id === key ? g(f) : f)]. *)
Definition mapById (key : string) (g : ImageFile -> ImageFile) (prev : list ImageFile)
  : list ImageFile :=
  (fun f => if decide (id f = key) then g f else f) <$> prev.

Definition failedFile (message : string) (f : ImageFile) : ImageFile :=
  with_error (Some message) (with_status FAILED f).

(** [processFileBackground]: the store update the worker ends with. Reading
    [error.message] of [null] or [undefined] inside the [catch] would itself
    throw a [TypeError] (the message is V8's); that is the only way the
    wrapper's promise could reject. *)
Definition processFileBackground (cfg : Settings) (w : World) (fileItem : ImageFile)
  : Settled (list ImageFile -> list ImageFile) :=
  match settled (processSingleFile cfg w fileItem) with
  | Fulfilled updatedFile =>
      Fulfilled (mapById (id updatedFile) (fun _ => updatedFile))
  | Rejected ThrownNull =>
      Rejected (newError "Cannot read properties of null (reading 'message')")
  | Rejected ThrownUndefined =>
      Rejected (newError "Cannot read properties of undefined (reading 'message')")
  | Rejected error =>
      Fulfilled (mapById (id fileItem) (failedFile (messageOr error "Unknown error")))
  end.

(** ** 4. The task store and the lifecycle operations *)

(** A file handed over by the picker or a drop, with the values
    [crypto.randomUUID()] and [URL.createObjectURL] return for it. *)
Record Incoming : Set := mkIncoming {
  inFile : File;
  inUuid : string;
  inUrl : string
}.

Definition isImage (f : File) : bool := String.prefix "image/" (file_type f).

Definition newImageFile (timestamp : Z) (i : Incoming) : ImageFile :=
  mkImageFile (inUuid i) (inFile i) (inUrl i) IDLE None None None None None None
    None (Some false) timestamp.

Definition newDualImageFile (timestamp : Z) (primary secondary : Incoming) : ImageFile :=
  mkImageFile (inUuid primary) (inFile primary) (inUrl primary) IDLE
    (Some (inFile secondary)) (Some (inUrl secondary)) None None None None
    None (Some false) timestamp.

Definition addFilesToQueue (timestamp : Z) (incomingFiles : list Incoming)
    (prev : list ImageFile) : list ImageFile :=
  prev ++ (newImageFile timestamp <$> filter (fun i => isImage (inFile i)) incomingFiles).

(** The [for (i = 0; i < n; i += 2)] loop of [addDualFilesToQueue]. *)
Fixpoint pairUp (timestamp : Z) (imageFiles : list Incoming) : list ImageFile :=
  match imageFiles with
  | primary :: secondary :: rest =>
      newDualImageFile timestamp primary secondary :: pairUp timestamp rest
  | [single] => [newImageFile timestamp single]
  | [] => []
  end.

Definition addDualFilesToQueue (timestamp : Z) (incomingFiles : list Incoming)
    (prev : list ImageFile) : list ImageFile :=
  prev ++ pairUp timestamp (filter (fun i => isImage (inFile i)) incomingFiles).

Definition handleRemove (key : string) (prev : list ImageFile) : list ImageFile :=
  filter (fun f => id f ≠ key) prev.

Definition handleSavePrompt (editingId newPrompt : string) (prev : list ImageFile)
  : list ImageFile :=
  mapById editingId (with_customPrompt (Some newPrompt)) prev.

(** The record [handleRegenerate] writes, lines 379-387. *)
Definition regenerated (now : Z) (f : ImageFile) : ImageFile :=
  with_lastActivityTimestamp now
    (with_isRetry (Some true)
      (with_error None
        (with_resultBlob None
          (with_resultUrl None
            (with_status PENDING f))))).

(** The record [startProcessing] writes for an idle or failed task. *)
Definition markPending (f : ImageFile) : ImageFile :=
  if decide (status f = IDLE ∨ status f = FAILED)
  then with_error None (with_status PENDING f)
  else f.

(** The record [handleUseResultAsInput] appends, lines 400-413. *)
Definition newQueueItem (item : ImageFile) (blob : Blob) (timestamp : Z)
    (uuid url : string) : ImageFile :=
  let newFileName := "regen_" +:+ pretty timestamp +:+ "_" +:+ file_name (file item) in
  let newFile := mkFile newFileName (blob_type blob) (blob_data blob) in
  mkImageFile uuid newFile url IDLE None None None None None None
    (customPrompt item) (Some false) timestamp.

(** ** 5. The application state and the scheduler loop *)

(** A worker that was launched and has not written back yet: the record it
    was given and the settings it read when it started (it reads every ref
    before its first [await]). *)
Record Worker : Set := mkWorker {
  workerItem : ImageFile;
  workerSettings : Settings
}.

Record State : Set := mkState {
  files : list ImageFile;
  isProcessing : bool;
  abortControllerRef : bool;
  settings : Settings;
  workers : list Worker;      (* fire-and-forget promises still pending *)
  timers : list bool;         (* [setTimeout(() => processQueue(), 0)] not yet
                                 run, oldest first: the [isProcessing] of the
                                 render whose handler queued the call *)
  loops : nat                 (* calls of [processQueue] paused in their loop *)
}.

Definition setFiles (g : list ImageFile -> list ImageFile) (s : State) : State :=
  mkState (g (files s)) (isProcessing s) (abortControllerRef s) (settings s)
    (workers s) (timers s) (loops s).

Definition setIsProcessing (b : bool) (s : State) : State :=
  mkState (files s) b (abortControllerRef s) (settings s) (workers s) (timers s)
    (loops s).

Definition setAbort (b : bool) (s : State) : State :=
  mkState (files s) (isProcessing s) b (settings s) (workers s) (timers s)
    (loops s).

Definition setSettings (cfg : Settings) (s : State) : State :=
  mkState (files s) (isProcessing s) (abortControllerRef s) cfg (workers s)
    (timers s) (loops s).

Definition setWorkers (ws : list Worker) (s : State) : State :=
  mkState (files s) (isProcessing s) (abortControllerRef s) (settings s) ws
    (timers s) (loops s).

Definition setTimers (ts : list bool) (s : State) : State :=
  mkState (files s) (isProcessing s) (abortControllerRef s) (settings s)
    (workers s) ts (loops s).

Definition setLoops (n : nat) (s : State) : State :=
  mkState (files s) (isProcessing s) (abortControllerRef s) (settings s)
    (workers s) (timers s) n.

(** [Array.prototype.sort(compareFn)]: a stable sort; [compareFn a b <= 0]
    keeps [a] before [b]. *)
Fixpoint insertSorted {A} (compareFn : A -> A -> Z) (x : A) (l : list A) : list A :=
  match l with
  | [] => [x]
  | y :: l' =>
      if compareFn x y <=? 0 then x :: y :: l'
      else y :: insertSorted compareFn x l'
  end.

Definition sort {A} (compareFn : A -> A -> Z) (l : list A) : list A :=
  foldr (insertSorted compareFn) [] l.

Definition byRecentActivity (a b : ImageFile) : Z :=
  lastActivityTimestamp b - lastActivityTimestamp a.

Definition pendingFiles (currentFiles : list ImageFile) : list ImageFile :=
  sort byRecentActivity (filter (fun f => status f = PENDING) currentFiles).

Definition processingFiles (currentFiles : list ImageFile) : list ImageFile :=
  filter (fun f => status f = PROCESSING) currentFiles.

(** [MAX_CONCURRENCY], line 332. *)
Definition MAX_CONCURRENCY (cfg : Settings) : Z :=
  if enableConcurrency cfg then maxConcurrency cfg else 1.

(** What one pass through the body of [while (true)] did. *)
Inductive LoopAction : Set :=
  | LoopExit                                            (* break *)
  | LoopDispatch (fileToProcess : ImageFile) (waitMs : Z)
  | LoopPoll (waitMs : Z).

Definition markProcessing (f : ImageFile) : ImageFile :=
  with_error None (with_status PROCESSING f).

(** One pass through the loop body, lines 312-355, up to its [await]; a
    [break] runs the [setIsProcessing(false)] that follows the loop. The
    test [processingFiles.length < MAX_CONCURRENCY && pendingFiles.length > 0]
    is the match on the head of [pending] followed by the comparison. *)
Definition whileBody (s : State) : State * LoopAction :=
  if abortControllerRef s then (setIsProcessing false s, LoopExit)
  else
    let currentFiles := files s in
    let pending := pendingFiles currentFiles in
    let processing := processingFiles currentFiles in
    if (length pending =? 0)%nat && (length processing =? 0)%nat
    then (setIsProcessing false s, LoopExit)
    else
      match pending with
      | fileToProcess :: _ =>
          if Z.of_nat (length processing) <? MAX_CONCURRENCY (settings s) then
            let s1 := setFiles (mapById (id fileToProcess) markProcessing) s in
            let s2 := setWorkers (workers s1 ++ [mkWorker fileToProcess (settings s)]) s1 in
            (s2, LoopDispatch fileToProcess
                   (if enableDelay (settings s) then 10000 else 100))
          else (s, LoopPoll 500)
      | [] => (s, LoopPoll 500)
      end.

(** The loops that are paused once a pass through the loop body is over:
    [others] loops besides the one that made the pass, and that one unless
    it left. *)
Definition afterPass (others : nat) (pass : State * LoopAction) : State :=
  match snd pass with
  | LoopExit => setLoops others (fst pass)
  | LoopDispatch _ _ | LoopPoll _ => setLoops (S others) (fst pass)
  end.

(** [processQueue] up to the first [await]: the guard, the two flags, and
    the first pass through the loop body. [capturedIsProcessing] is the
    [isProcessing] the function closed over, line 306: the constant of the
    render that created it, whatever the cell holds when the call runs. *)
Definition processQueue (capturedIsProcessing : bool) (s : State)
  : State * option LoopAction :=
  if capturedIsProcessing then (s, None)
  else
    let pass := whileBody (setAbort false (setIsProcessing true s)) in
    (afterPass (loops s) pass, Some (snd pass)).

(** [setTimeout(() => processQueue(), 0)] in a handler: the call is queued
    with the [isProcessing] of the render the handler belongs to. *)
Definition queueProcessQueue (s : State) : State :=
  setTimers (timers s ++ [isProcessing s]) s.

Definition startProcessing (s : State) : State :=
  if (length (files s) =? 0)%nat then s
  else queueProcessQueue (setFiles (fmap markPending) s).

Definition handleRegenerate (key : string) (now : Z) (s : State) : State :=
  queueProcessQueue (setFiles (mapById key (regenerated now)) s).

Definition handleUseResultAsInput (item : ImageFile) (timestamp : Z)
    (uuid url : string) (s : State) : State :=
  match resultBlob item with
  | None => s
  | Some blob =>
      setFiles (fun prev => prev ++ [newQueueItem item blob timestamp uuid url]) s
  end.

Definition stopProcessing (s : State) : State := setAbort true s.

Definition clearAll (s : State) : State :=
  if isProcessing s then s else setFiles (fun _ => []) s.

(** [setMaxConcurrency(Math.max(1, parseInt(value) || 1))]; [None] is a
    [parseInt] that gave [NaN]. *)
Definition parsedConcurrency (parsed : option Z) : Z :=
  Z.max 1 (match parsed with
           | Some n => if n =? 0 then 1 else n
           | None => 1
           end).

(** The state of a freshly mounted [App], once a key was entered. *)
Definition initialSettings (key : string) : Settings :=
  mkSettings (Some key) "{filename}" 1%Qc false false true 2.

Definition initialState (key : string) : State :=
  mkState [] false false (initialSettings key) [] [] 0.

(** ** 6. Runs of the application

    Whatever happens between two [await]s runs to completion, so a run is a
    sequence of events: a user action, a timer that fires, the loop waking
    from its pause, a worker's promise settling. *)

Inductive Event : Type :=
  | AddFiles (timestamp : Z) (incomingFiles : list Incoming)
  | AddDualFiles (timestamp : Z) (incomingFiles : list Incoming)
  | Remove (key : string)
  | SavePrompt (editingId newPrompt : string)
  | StartProcessing
  | Regenerate (key : string) (now : Z)
  | UseResultAsInput (key : string) (timestamp : Z) (uuid url : string)
  | StopProcessing
  | ClearAll
  | TimerFires                       (* the oldest queued [processQueue()] runs *)
  | LoopWakes                        (* the pause of a loop is over *)
  | WorkerSettles (n : nat) (w : World)
  | SetApiKey (key : option string)
  | SetCustomPromptTemplate (template : string)
  | SetTemperature (t : Qc)
  | SetAutoRetry (b : bool)
  | SetEnableDelay (b : bool)
  | SetEnableConcurrency (b : bool)
  | SetMaxConcurrency (parsed : option Z).

(** Every id a write-back can still name. *)
Definition usedIds (s : State) : list string :=
  (id <$> files s) ++ ((fun wk => id (workerItem wk)) <$> workers s).

(** [crypto.randomUUID()] gives ids that were never given before. *)
Definition freshIds (ids : list string) (s : State) : Prop :=
  NoDup ids ∧ Forall (fun i => i ∉ usedIds s) ids.

#[global] Instance freshIds_dec ids s : Decision (freshIds ids s).
Proof. unfold freshIds. apply _. Defined.

Definition changeSettings (e : Event) (cfg : Settings) : Settings :=
  match e with
  | SetApiKey key =>
      mkSettings key (customPromptTemplate cfg) (temperature cfg) (autoRetry cfg)
        (enableDelay cfg) (enableConcurrency cfg) (maxConcurrency cfg)
  | SetCustomPromptTemplate template =>
      mkSettings (apiKey cfg) template (temperature cfg) (autoRetry cfg)
        (enableDelay cfg) (enableConcurrency cfg) (maxConcurrency cfg)
  | SetTemperature t =>
      mkSettings (apiKey cfg) (customPromptTemplate cfg) t (autoRetry cfg)
        (enableDelay cfg) (enableConcurrency cfg) (maxConcurrency cfg)
  | SetAutoRetry b =>
      mkSettings (apiKey cfg) (customPromptTemplate cfg) (temperature cfg) b
        (enableDelay cfg) (enableConcurrency cfg) (maxConcurrency cfg)
  | SetEnableDelay b =>
      mkSettings (apiKey cfg) (customPromptTemplate cfg) (temperature cfg)
        (autoRetry cfg) b (enableConcurrency cfg) (maxConcurrency cfg)
  | SetEnableConcurrency b =>
      mkSettings (apiKey cfg) (customPromptTemplate cfg) (temperature cfg)
        (autoRetry cfg) (enableDelay cfg) b (maxConcurrency cfg)
  | SetMaxConcurrency parsed =>
      mkSettings (apiKey cfg) (customPromptTemplate cfg) (temperature cfg)
        (autoRetry cfg) (enableDelay cfg) (enableConcurrency cfg)
        (parsedConcurrency parsed)
  | _ => cfg
  end.

(** One event. [None]: the event cannot happen in this state (no such
    timer, loop or worker; an id that is not fresh; a card that is not
    shown). The answers a worker received while it ran come with the event
    that settles it. *)
Definition step (s : State) (e : Event) : option State :=
  match e with
  | AddFiles timestamp incomingFiles =>
      let s' := setFiles (addFilesToQueue timestamp incomingFiles) s in
      if decide (freshIds (id <$> drop (length (files s)) (files s')) s)
      then Some s' else None
  | AddDualFiles timestamp incomingFiles =>
      let s' := setFiles (addDualFilesToQueue timestamp incomingFiles) s in
      if decide (freshIds (id <$> drop (length (files s)) (files s')) s)
      then Some s' else None
  | Remove key => Some (setFiles (handleRemove key) s)
  | SavePrompt editingId newPrompt =>
      Some (setFiles (handleSavePrompt editingId newPrompt) s)
  | StartProcessing => Some (startProcessing s)
  | Regenerate key now => Some (handleRegenerate key now s)
  | UseResultAsInput key timestamp uuid url =>
      match list_find (fun f => id f = key) (files s) with
      | Some (_, item) =>
          if decide (freshIds [uuid] s)
          then Some (handleUseResultAsInput item timestamp uuid url s)
          else None
      | None => None
      end
  | StopProcessing => Some (stopProcessing s)
  | ClearAll => Some (clearAll s)
  | TimerFires =>
      match timers s with
      | capturedIsProcessing :: rest =>
          Some (fst (processQueue capturedIsProcessing (setTimers rest s)))
      | [] => None
      end
  | LoopWakes =>
      match loops s with
      | S others => Some (afterPass others (whileBody s))
      | O => None
      end
  | WorkerSettles n w =>
      match workers s !! n with
      | Some wk =>
          let s1 := setWorkers (delete n (workers s)) s in
          match processFileBackground (workerSettings wk) w (workerItem wk) with
          | Fulfilled g => Some (setFiles g s1)
          | Rejected _ => Some s1
          end
      | None => None
      end
  | _ => Some (setSettings (changeSettings e (settings s)) s)
  end.

Fixpoint run (s : State) (events : list Event) : option State :=
  match events with
  | [] => Some s
  | e :: events' =>
      match step s e with
      | Some s' => run s' events'
      | None => None
      end
  end.

Definition reachable (s : State) : Prop :=
  ∃ key events, run (initialState key) events = Some s.

(** ** 6b. The rest of [App.tsx]: drops, display, download *)

(** [handleDualDrop], lines 183-198: the store afterwards, and whether the
    alert was shown. *)
Definition handleDualDrop (timestamp : Z) (dataTransferFiles : list Incoming)
    (prev : list ImageFile) : list ImageFile * bool :=
  if (0 <? length dataTransferFiles)%nat then
    let droppedFiles := filter (fun i => isImage (inFile i)) dataTransferFiles in
    if (length droppedFiles =? 2)%nat
    then (addDualFilesToQueue timestamp droppedFiles prev, false)
    else (prev, true)
  else (prev, false).

(** [sortedFiles], lines 457-463: the cards in the order they are shown. *)
Definition sortedFiles (autoSort : bool) (files : list ImageFile) : list ImageFile :=
  if autoSort then sort byRecentActivity files else files.




(** [handleLogout], lines 450-454, and the storage calls of
    [ApiKeyChecker]: [localStorage] as a finite map. *)
Definition storageKey : string := "gemini_api_key".

Definition handleLogout (localStorage : gmap string string) : gmap string string :=
  delete storageKey localStorage.

(** ** 6c. [ProcessingQueue.tsx]: what a card shows *)

(** Line 42: the result image replaces the input preview. *)
Definition showsResultImage (f : ImageFile) : bool :=
  bool_decide (status f = COMPLETED) && truthy (resultUrl f).

(** Line 140: the "use result as input" and download buttons. *)
Definition showsResultButtons (f : ImageFile) : bool :=
  bool_decide (status f = COMPLETED) && bool_decide (is_Some (resultBlob f)).

(** Line 176: the red error line. *)
Definition showsError (f : ImageFile) : bool := truthy (error f).

(** ** 6d. [PromptModal]: the text the editor opens with *)

(** The [useEffect] of [PromptModal] (in [ApiKeyChecker.tsx], lines
    161-171) on the props [App] passes at lines 881-883:
    [initialPrompt = editingFile.customPrompt || ""],
    [fileName = editingFile.file.name || ""]. *)
Definition promptModalPrefill (globalTemplate : string) (editingFile : ImageFile)
  : string :=
  let initialPrompt := if truthy (customPrompt editingFile)
                       then default "" (customPrompt editingFile) else "" in
  let fileName := file_name (file editingFile) in
  if String.eqb initialPrompt "" then
    let fileNameWithoutExt := removeExtension fileName in
    replace "{filename}" fileNameWithoutExt globalTemplate
  else initialPrompt.

(** ** 6e. [services/geminiService.ts] *)

Module geminiService.

(** A part of the request or of the response. *)
Inductive Part : Set :=
  | InlineData (mimeType : string) (data : option string)
  | TextPart (text : string).

Record Content : Set := mkContent { parts : option (list Part) }.
Record Candidate : Set := mkCandidate { content : option Content }.
Record GenerateContentResponse : Set := mkResponse {
  candidates : option (list Candidate)
}.

(** What the service meets: the [FileReader] and the remote model. *)
Record Remote : Type := mkRemote {
  readAsDataURL : File -> Settled string;
  generateContent : list Part -> Qc -> string -> Settled GenerateContentResponse
}.

(** [s.split(sep)] for a separator of one character. *)
Fixpoint splitBy (sep : ascii) (s : string) : list string :=
  match s with
  | EmptyString => [EmptyString]
  | String c s' =>
      if Ascii.eqb c sep then EmptyString :: splitBy sep s'
      else match splitBy sep s' with
           | x :: xs => String c x :: xs
           | [] => [String c EmptyString]
           end
  end.

(** [fileToGenericBase64], lines 4-16: [base64String.split(',')[1]]. *)
Definition fileToGenericBase64 (remote : Remote) (f : File) : Settled (option string) :=
  match readAsDataURL remote f with
  | Fulfilled base64String => Fulfilled (splitBy ","%char base64String !! 1%nat)
  | Rejected e => Rejected e
  end.

(** The [for] loop over the files, lines 31-40: the first reader that fails
    rejects the call. *)
Fixpoint inlineParts (remote : Remote) (files : list File) : Settled (list Part) :=
  match files with
  | [] => Fulfilled []
  | f :: files' =>
      match fileToGenericBase64 remote f with
      | Rejected e => Rejected e
      | Fulfilled base64Data =>
          match inlineParts remote files' with
          | Rejected e => Rejected e
          | Fulfilled ps => Fulfilled (InlineData (file_type f) base64Data :: ps)
          end
      end
  end.

(** [response.candidates?.[0]?.content?.parts] *)
Definition responseParts (response : GenerateContentResponse) : option (list Part) :=
  match candidates response with
  | Some (candidate :: _) =>
      match content candidate with
      | Some c => parts c
      | None => None
      end
  | Some [] | None => None
  end.

(** The [for] loop over the response, lines 66-70. *)
Fixpoint firstImage (ps : list Part) : option string :=
  match ps with
  | [] => None
  | InlineData _ (Some data) :: ps' =>
      if String.eqb data "" then firstImage ps' else Some data
  | _ :: ps' => firstImage ps'
  end.

(** [s.includes(pat)] *)
Definition includes (pat s : string) : bool :=
  match splitFirst pat s with
  | Some _ => true
  | None => false
  end.

(** The [catch] block, lines 74-80: what it throws for what it caught. *)
Definition rethrown (error : JsThrown) : JsThrown :=
  match error with
  | ThrownNull =>
      newError "Cannot read properties of null (reading 'message')"
  | ThrownUndefined =>
      newError "Cannot read properties of undefined (reading 'message')"
  | ThrownObject (Some message) =>
      if negb (String.eqb message "")
         && includes "Requested entity was not found" message
      then newError "API Key invalid or project not found."
      else error
  | ThrownObject None | ThrownFalsy => error
  end.

(** [translateImageWithGemini], lines 18-81. *)
Definition translateImageWithGemini (remote : Remote) (files : list File)
    (customPrompt : string) (temperature : Qc) (apiKey : string) : Settled string :=
  match inlineParts remote files with
  | Rejected e => Rejected e
  | Fulfilled ps =>
      let requestParts := ps ++ [TextPart customPrompt] in
      match generateContent remote requestParts temperature apiKey with
      | Rejected error => Rejected (rethrown error)
      | Fulfilled response =>
          match responseParts response with
          | None => Rejected (rethrown (newError "No content returned from Gemini."))
          | Some rps =>
              match firstImage rps with
              | Some data => Fulfilled ("data:image/png;base64," +:+ data)
              | None =>
                  Rejected (rethrown (newError "No image data found in response."))
              end
          end
      end
  end.

End geminiService.

(** The world of a worker whose calls go through the service above:
    attempt n meets [remote n]. *)
Definition serviceWorld (remote : nat -> geminiService.Remote)
    (fetch : nat -> string -> Settled Blob) (abortTop abortCatch : nat -> bool)
  : World :=
  mkWorld (fun n => geminiService.translateImageWithGemini (remote n))
    fetch abortTop abortCatch.

(** ** 6f. [ApiKeyChecker.tsx] *)

Module ApiKeyChecker.

(** [window.aistudio && window.aistudio.hasSelectedApiKey]: absent, or how
    the call settles. *)
Inductive AiStudio : Set :=
  | NoAiStudio
  | HasSelectedApiKey (selected : Settled bool).

(** [checkKey], lines 17-46: the key handed to [onReady], if any. The
    [finally] clears [loading] on every path. *)
Definition checkKey (aistudio : AiStudio) (envApiKey : option string)
    (localStorage : gmap string string) : option string :=
  let fromStorage :=
    match localStorage !! storageKey with
    | Some storedKey => if String.eqb storedKey "" then None else Some storedKey
    | None => None
    end in
  match aistudio with
  | HasSelectedApiKey (Rejected _) => None      (* caught and logged *)
  | HasSelectedApiKey (Fulfilled true) =>
      if truthy envApiKey then envApiKey else fromStorage
  | HasSelectedApiKey (Fulfilled false) | NoAiStudio => fromStorage
  end.

(** What [handleManualSubmit], lines 57-66, leaves behind. *)
Record Submitted : Set := mkSubmitted {
  storageAfter : gmap string string;
  readyKey : option string;         (* the argument of [onReady] *)
  errorShown : option string        (* [setError] *)
}.

Section Trim.
(** [String.prototype.trim]. *)
Variable trim : string -> string.

Definition handleManualSubmit (inputKey : string) (localStorage : gmap string string)
  : Submitted :=
  let key := trim inputKey in
  if negb (String.prefix "AIza" key) then
    mkSubmitted localStorage None
      (Some "유효하지 않은 API 키 형식입니다. (AIza로 시작해야 합니다)")
  else
    mkSubmitted (<[storageKey := key]> localStorage) (Some key) None.
End Trim.

End ApiKeyChecker.

(** ** 7. Vocabulary of the properties *)

(** A string without a dollar sign. *)
Fixpoint noDollar (s : string) : bool :=
  match s with
  | EmptyString => true
  | String c s' => negb (Ascii.eqb c "$"%char) && noDollar s'
  end.

(** A Transform Service that answers "503", "503" and then an image. *)
Definition flakyWorld : World :=
  mkWorld
    (fun n _ _ _ _ =>
       if (n <? 3)%nat then Rejected (newError "503")
       else Fulfilled "data:image/png;base64,AAAA")
    (fun _ _ => Fulfilled (mkBlob "image/png" "AAAA"))
    (fun _ => false)
    (fun _ => false).

Definition sampleFile (key : string) (st : ProcessingStatus) (ts : Z) : ImageFile :=
  mkImageFile key (mkFile "cat.png" "image/png" "CAT") "blob:cat" st
    None None None None None None None (Some false) ts.

(** A Transform Service that is down. *)
Definition failingWorld : World :=
  mkWorld
    (fun _ _ _ _ _ => Rejected (newError "503"))
    (fun _ _ => Fulfilled (mkBlob "image/png" "AAAA"))
    (fun _ => false)
    (fun _ => false).

(** A record as the queue creates it: idle, nothing produced yet. *)
Definition blank (f : ImageFile) : Prop :=
  status f = IDLE ∧ resultUrl f = None ∧ resultBlob f = None ∧ error f = None.

(** The rewritings of one record that do not dispatch it. *)
Inductive quietUpdate : ImageFile -> ImageFile -> Prop :=
  | QU_same f : quietUpdate f f
  | QU_prompt newPrompt f :
      quietUpdate f (with_customPrompt (Some newPrompt) f)
  | QU_pending f : quietUpdate f (markPending f)
  | QU_regenerated now f : quietUpdate f (regenerated now f)
  | QU_completed fileItem resultBase64 blob f :
      id fileItem = id f →
      quietUpdate f (completedFile fileItem resultBase64 blob)
  | QU_failed message f :
      message ≠ "" → quietUpdate f (failedFile message f).

(** The four ways one event changes the store. *)
Inductive storeChange (s s' : State) : Prop :=
  | SC_append new :
      files s' = files s ++ new → Forall blank new → freshIds (id <$> new) s →
      storeChange s s'
  | SC_sublist :
      files s' `sublist_of` files s → storeChange s s'
  | SC_quiet :
      Forall2 quietUpdate (files s) (files s') → storeChange s s'
  | SC_dispatch fileToProcess :
      head (pendingFiles (files s)) = Some fileToProcess →
      Z.of_nat (length (processingFiles (files s))) < MAX_CONCURRENCY (settings s) →
      files s' = mapById (id fileToProcess) markProcessing (files s) →
      abortControllerRef s' = false →
      storeChange s s'.

(** The result / error discipline of a record, by status. *)
Definition consistent (f : ImageFile) : Prop :=
  match status f with
  | COMPLETED =>
      is_Some (resultUrl f) ∧ is_Some (resultBlob f) ∧ error f = None
  | FAILED =>
      is_Some (error f) ∧ resultUrl f = None ∧ resultBlob f = None
  | IDLE | PENDING | PROCESSING =>
      resultUrl f = None ∧ resultBlob f = None ∧ error f = None
  end.

(** What holds of the result and error fields in every reachable store. *)
Definition settledFields (f : ImageFile) : Prop :=
  (status f = COMPLETED →
     is_Some (resultUrl f) ∧ is_Some (resultBlob f) ∧ error f = None)
  ∧ (status f = FAILED → is_Some (error f))
  ∧ (status f = IDLE → resultUrl f = None ∧ resultBlob f = None ∧ error f = None).

(** A run in which no event switches concurrent generation on. *)
Definition neverConcurrent (events : list Event) : Prop :=
  Forall (fun e => e ≠ SetEnableConcurrency true) events.

(** A picked file named [key ++ ".png"], with [key] as its id. *)
Definition sampleIncoming (key : string) : Incoming :=
  mkIncoming (mkFile (key +:+ ".png") "image/png" key) key ("blob:" +:+ key).

(** What a worker meets once Stop was pressed while its first call was in
    flight: the flag reads true from then on, and the call succeeds or
    fails. *)
Definition stoppedWorld (succeeds : bool) : World :=
  mkWorld
    (fun _ _ _ _ _ =>
       if succeeds then Fulfilled "data:image/png;base64,AAAA"
       else Rejected (newError "503"))
    (fun _ _ => Fulfilled (mkBlob "image/png" "AAAA"))
    (fun n => (0 <? n)%nat)
    (fun _ => true).

(** A Transform Service that answers every call with an image. *)
Definition workingWorld : World :=
  mkWorld
    (fun _ _ _ _ _ => Fulfilled "data:image/png;base64,AAAA")
    (fun _ _ => Fulfilled (mkBlob "image/png" "AAAA"))
    (fun _ => false)
    (fun _ => false).


(** Regenerate is not pressed on a task that is Processing. *)
Definition gentle (s : State) (e : Event) : Prop :=
  match e with
  | Regenerate key _ =>
      Forall (fun f => id f = key → status f ≠ PROCESSING) (files s)
  | _ => True
  end.

Fixpoint gentleRun (s : State) (events : list Event) : Prop :=
  match events with
  | [] => True
  | e :: events' =>
      gentle s e
      ∧ match step s e with
        | Some s' => gentleRun s' events'
        | None => True
        end
  end.

(** A store and a set of running workers in which every task has at most
    one worker, the task of a worker is Processing, and every record keeps
    the result / error discipline. *)
Definition tidy (l : list ImageFile) (ws : list Worker) : Prop :=
  NoDup (id <$> l)
  ∧ Forall consistent l
  ∧ NoDup ((fun wk => id (workerItem wk)) <$> ws)
  ∧ ∀ wk f, wk ∈ ws → f ∈ l → id f = id (workerItem wk) → status f = PROCESSING.

(** The files a task hands to the Transform Service, as [processSingleFile]
    collects them in [filesToProcess]. *)
Definition taskInputs (f : ImageFile) : list File :=
  file f :: match secondaryFile f with
            | Some f2 => [f2]
            | None => []
            end.

(** The picked files that are images. *)
Definition imagesOf (incomingFiles : list Incoming) : list Incoming :=
  filter (fun i => isImage (inFile i)) incomingFiles.

(** The events of a loop that runs until the queue is empty while every
    worker settles before the loop wakes again: [n] rounds of a wake-up and
    a write-back, and a last wake-up. *)
Fixpoint drainEvents (w : World) (n : nat) : list Event :=
  match n with
  | O => [LoopWakes]
  | S n' => LoopWakes :: WorkerSettles 0 w :: drainEvents w n'
  end.

(** A Transform Service whose first call for a task always succeeds, with
    no stop request before it. *)
Definition firstCallSucceeds (w : World) : Prop :=
  abortAtLoopTop w 0 = false
  ∧ ∀ filesToProcess prompt temp key, ∃ resultBase64 blob,
      translateImageWithGemini w 1 filesToProcess prompt temp key
      = Fulfilled resultBase64
      ∧ fetchBlob w 1 resultBase64 = Fulfilled blob.

(** What a drained queue has made of a record: a Pending record holds the
    answer of the service to its own inputs, any other record is as it
    was. *)
Definition drained (cfg : Settings) (w : World) (f f' : ImageFile) : Prop :=
  if decide (status f = PENDING) then
    ∃ resultBase64 blob,
      translateImageWithGemini w 1 (taskInputs f)
        (finalPrompt (customPromptTemplate cfg) f) (temperature cfg)
        (default "" (apiKey cfg)) = Fulfilled resultBase64
      ∧ fetchBlob w 1 resultBase64 = Fulfilled blob
      ∧ f' = completedFile f resultBase64 blob
  else f' = f.


(** [s.includes(c)] for one character. *)
Fixpoint hasChar (c : ascii) (s : string) : bool :=
  match s with
  | EmptyString => false
  | String c' s' => Ascii.eqb c' c || hasChar c s'
  end.

(** The error line of a card goes with the status Failed. *)
Definition errorMatchesStatus (f : ImageFile) : Prop :=
  (status f = FAILED → truthy (error f) = true)
  ∧ (is_Some (error f) → status f = FAILED).

(** * Properties *)

(** ** Record updates *)

Lemma id_with_status v f : id (with_status v f) = id f.
Proof. reflexivity. Qed.

Lemma id_markProcessing f : id (markProcessing f) = id f.
Proof. reflexivity. Qed.

Lemma id_markPending f : id (markPending f) = id f.
Proof. unfold markPending. by case_decide. Qed.

Lemma id_regenerated now f : id (regenerated now f) = id f.
Proof. reflexivity. Qed.

Lemma id_failedFile m f : id (failedFile m f) = id f.
Proof. reflexivity. Qed.

Lemma id_completedFile f url blob : id (completedFile f url blob) = id f.
Proof. reflexivity. Qed.

(** ** The store update [mapById] *)

Section MapById.
Context (key : string) (g : ImageFile -> ImageFile).

Lemma length_mapById prev : length (mapById key g prev) = length prev.
Proof. unfold mapById. by rewrite length_fmap. Qed.

Lemma mapById_lookup prev i :
  mapById key g prev !! i
  = (fun f => if decide (id f = key) then g f else f) <$> prev !! i.
Proof. unfold mapById. by rewrite list_lookup_fmap. Qed.

Lemma mapById_ids prev :
  (∀ f, id f = key → id (g f) = id f) →
  id <$> mapById key g prev = id <$> prev.
Proof.
  intros Hg. unfold mapById. rewrite <- list_fmap_compose.
  apply list_fmap_ext. intros _ f _. simpl.
  case_decide; [by apply Hg | done].
Qed.

Lemma mapById_cons f prev :
  mapById key g (f :: prev)
  = (if decide (id f = key) then g f else f) :: mapById key g prev.
Proof. reflexivity. Qed.

(** A write-back for an id the store does not hold changes nothing. *)
Lemma mapById_absent prev : key ∉ id <$> prev → mapById key g prev = prev.
Proof.
  intros Hnot. unfold mapById.
  rewrite <- (list_fmap_id prev) at 2.
  apply list_fmap_ext. intros i f Hi. simpl.
  case_decide as Hid; [|done].
  exfalso. apply Hnot. rewrite list_elem_of_fmap.
  exists f. split; [done|]. by eapply list_elem_of_lookup_2.
Qed.

Lemma elem_of_mapById prev f' :
  f' ∈ mapById key g prev ↔
  ∃ f, f ∈ prev ∧ f' = (if decide (id f = key) then g f else f).
Proof.
  unfold mapById. rewrite list_elem_of_fmap.
  split; intros (f & H1 & H2); exists f; by split.
Qed.
End MapById.

(** ** Sorting *)

Section Sort.
Context {A : Type} (compareFn : A -> A -> Z).

Lemma insertSorted_Permutation x l : insertSorted compareFn x l ≡ₚ x :: l.
Proof.
  induction l as [|y l IH]; simpl; [done|].
  case_match; [done|]. rewrite IH. apply Permutation_swap.
Qed.

Lemma sort_Permutation l : sort compareFn l ≡ₚ l.
Proof.
  induction l as [|x l IH]; simpl; [done|].
  by rewrite insertSorted_Permutation, IH.
Qed.

Lemma head_insertSorted x l :
  head (insertSorted compareFn x l)
  = match head l with
    | Some y => if compareFn x y <=? 0 then Some x else Some y
    | None => Some x
    end.
Proof. destruct l as [|y l]; simpl; [done|]. by case_match. Qed.
End Sort.

(** The head of the sorted pending list is the first task of the input, in
    store order, among those with the largest timestamp. *)
Lemma head_sort_byRecentActivity l f :
  head (sort byRecentActivity l) = Some f →
  ∃ l1 l2, l = l1 ++ f :: l2
    ∧ Forall (fun g => lastActivityTimestamp g < lastActivityTimestamp f) l1
    ∧ Forall (fun g => lastActivityTimestamp g ≤ lastActivityTimestamp f) l2.
Proof.
  revert f. induction l as [|x l IH]; intros f; simpl; [done|].
  rewrite head_insertSorted.
  destruct (head (sort byRecentActivity l)) as [y|] eqn:Hhd.
  - destruct (IH y eq_refl) as (l1 & l2 & -> & H1 & H2).
    unfold byRecentActivity. case_match eqn:Hcmp; intros [= <-].
    + apply Z.leb_le in Hcmp. exists [], (l1 ++ y :: l2).
      split_and!; [done|constructor|].
      apply Forall_app. split.
      * eapply Forall_impl; [exact H1|]. simpl. lia.
      * constructor; [lia|]. eapply Forall_impl; [exact H2|]. simpl. lia.
    + apply Z.leb_gt in Hcmp. exists (x :: l1), l2.
      split_and!; [done| |done]. constructor; [lia|done].
  - intros [= <-].
    assert (l = []) as ->.
    { apply Permutation_nil_r. rewrite <- (sort_Permutation byRecentActivity l).
      by destruct (sort byRecentActivity l). }
    exists [], []. split_and!; [done|constructor|constructor].
Qed.

Lemma head_pendingFiles currentFiles f :
  head (pendingFiles currentFiles) = Some f →
  f ∈ currentFiles ∧ status f = PENDING
  ∧ ∀ g, g ∈ currentFiles → status g = PENDING →
      lastActivityTimestamp g ≤ lastActivityTimestamp f.
Proof.
  unfold pendingFiles. intros Hhd.
  destruct (head_sort_byRecentActivity _ _ Hhd) as (l1 & l2 & Heq & H1 & H2).
  assert (f ∈ filter (fun f => status f = PENDING) currentFiles) as Hin.
  { rewrite Heq. apply elem_of_app. right. apply elem_of_cons. by left. }
  apply list_elem_of_filter in Hin as [Hst Hin]. split_and!; [done..|].
  intros g Hg Hgst.
  assert (g ∈ filter (fun f => status f = PENDING) currentFiles) as Hgin
    by by apply list_elem_of_filter.
  rewrite Heq in Hgin. rewrite Forall_forall in H1, H2.
  apply elem_of_app in Hgin as [Hg1|Hg2].
  - specialize (H1 _ Hg1). simpl in H1. lia.
  - apply elem_of_cons in Hg2 as [->|Hg2]; [lia|]. by apply H2.
Qed.

(** ** The scheduler loop *)

(** When a pass through the loop body dispatches, and what it does then. *)
Lemma whileBody_dispatch s s' fileToProcess waitMs :
  whileBody s = (s', LoopDispatch fileToProcess waitMs) ↔
    abortControllerRef s = false
    ∧ head (pendingFiles (files s)) = Some fileToProcess
    ∧ Z.of_nat (length (processingFiles (files s))) < MAX_CONCURRENCY (settings s)
    ∧ s' = setWorkers (workers s ++ [mkWorker fileToProcess (settings s)])
             (setFiles (mapById (id fileToProcess) markProcessing) s)
    ∧ waitMs = (if enableDelay (settings s) then 10000 else 100).
Proof.
  unfold whileBody.
  destruct (abortControllerRef s); [naive_solver|].
  destruct (pendingFiles (files s)) as [|f pending] eqn:Hp; simpl.
  - destruct (length (processingFiles (files s)) =? 0)%nat; naive_solver.
  - destruct (Z.ltb_spec (Z.of_nat (length (processingFiles (files s))))
                (MAX_CONCURRENCY (settings s))) as [Hlt|Hge].
    + split.
      * intros [= <- <- <-]. by split_and!.
      * intros (_ & [= <-] & _ & -> & ->). done.
    + split; [done|]. intros (_ & _ & Hlt & _). lia.
Qed.

(** A pass through the loop body that does not dispatch leaves the store
    and the set of running workers alone. *)
Lemma whileBody_no_dispatch s s' a :
  whileBody s = (s', a) →
  (∀ f waitMs, a ≠ LoopDispatch f waitMs) →
  files s' = files s ∧ workers s' = workers s.
Proof.
  unfold whileBody. intros Hbody Hno.
  destruct (abortControllerRef s); [by simplify_eq|].
  destruct (_ && _); [by simplify_eq|].
  destruct (pendingFiles (files s)) as [|f pending]; [by simplify_eq|].
  destruct (_ <? _); simplify_eq; [|done].
  by destruct (Hno _ _ eq_refl).
Qed.


(** Counting the loops touches nothing else. *)
Lemma afterPass_fields others pass :
  files (afterPass others pass) = files (fst pass)
  ∧ workers (afterPass others pass) = workers (fst pass)
  ∧ settings (afterPass others pass) = settings (fst pass)
  ∧ abortControllerRef (afterPass others pass) = abortControllerRef (fst pass)
  ∧ isProcessing (afterPass others pass) = isProcessing (fst pass)
  ∧ timers (afterPass others pass) = timers (fst pass).
Proof. unfold afterPass. by destruct (snd pass). Qed.

Lemma files_afterPass others pass :
  files (afterPass others pass) = files (fst pass).
Proof. apply afterPass_fields. Qed.


Lemma settings_afterPass others pass :
  settings (afterPass others pass) = settings (fst pass).
Proof. apply afterPass_fields. Qed.

Lemma workers_afterPass others pass :
  workers (afterPass others pass) = workers (fst pass).
Proof. apply afterPass_fields. Qed.

Lemma pendingFiles_nonempty currentFiles g :
  g ∈ currentFiles → status g = PENDING →
  ∃ f, head (pendingFiles currentFiles) = Some f.
Proof.
  intros Hin Hst. unfold pendingFiles.
  destruct (sort byRecentActivity _) as [|f l] eqn:Hs; [|by exists f].
  assert (g ∈ filter (fun f => status f = PENDING) currentFiles) as Hg
    by by apply list_elem_of_filter.
  rewrite <- (sort_Permutation byRecentActivity), Hs in Hg.
  by apply elem_of_nil in Hg.
Qed.

Lemma processingFiles_nil currentFiles :
  Forall (fun f => status f ≠ PROCESSING) currentFiles →
  processingFiles currentFiles = [].
Proof.
  unfold processingFiles. induction 1 as [|f l Hf _ IH]; [done|].
  rewrite filter_cons. by case_decide.
Qed.

(** C1. A pass through the loop body that dispatches hands to the worker a
    task that is Pending in the snapshot and whose lastActivityTimestamp no
    Pending task of the snapshot exceeds, and marks it Processing in the
    store: the record of the task stays at its place with the status
    Processing, every record with its id is Processing afterwards and every
    other record is untouched; and on a snapshot made of three Pending tasks
    with timestamps 5, 1 and 9, in any order, a running loop dispatches the
    task with timestamp 9. *)
Theorem C1_dispatch_most_recent_pending :
  (∀ s s' fileToProcess waitMs,
      whileBody s = (s', LoopDispatch fileToProcess waitMs) →
      fileToProcess ∈ files s
      ∧ status fileToProcess = PENDING
      ∧ (∀ g, g ∈ files s → status g = PENDING →
           lastActivityTimestamp g ≤ lastActivityTimestamp fileToProcess)
      ∧ files s' = mapById (id fileToProcess) markProcessing (files s)
      ∧ markProcessing fileToProcess ∈ files s'
      ∧ status (markProcessing fileToProcess) = PROCESSING
      ∧ id (markProcessing fileToProcess) = id fileToProcess
      ∧ (∃ i, files s !! i = Some fileToProcess
              ∧ files s' !! i = Some (markProcessing fileToProcess))
      ∧ (∀ f', f' ∈ files s' → id f' = id fileToProcess → status f' = PROCESSING)
      ∧ (∀ i f, files s !! i = Some f → id f ≠ id fileToProcess →
           files s' !! i = Some f)
      ∧ length (files s') = length (files s)
      ∧ workers s' = workers s ++ [mkWorker fileToProcess (settings s)])
  ∧ (∀ s a b c,
      status a = PENDING → status b = PENDING → status c = PENDING →
      lastActivityTimestamp a = 5 →
      lastActivityTimestamp b = 1 →
      lastActivityTimestamp c = 9 →
      files s ≡ₚ [a; b; c] →
      abortControllerRef s = false →
      1 ≤ maxConcurrency (settings s) →
      ∃ s' waitMs, whileBody s = (s', LoopDispatch c waitMs)).
Proof.
  split.
  - intros s s' f waitMs Hbody.
    apply whileBody_dispatch in Hbody as (_ & Hhd & _ & -> & _).
    destruct (head_pendingFiles _ _ Hhd) as (Hin & Hst & Hmax).
    split_and!; try done; simpl.
    + apply elem_of_mapById. exists f. split; [done|]. by rewrite decide_True.
    + apply list_elem_of_lookup in Hin as [i Hi]. exists i. split; [done|].
      rewrite mapById_lookup, Hi. simpl. by rewrite decide_True.
    + intros f' Hf' Hid.
      apply elem_of_mapById in Hf' as (f0 & _ & ->). by case_decide.
    + intros i f0 Hi Hne. rewrite mapById_lookup, Hi. simpl.
      by rewrite decide_False.
    + apply length_mapById.
  - intros s a b c Ha Hb Hc Hta Htb Htc Hperm Habort Hmax.
    assert (c ∈ files s) as Hcin.
    { rewrite Hperm. do 2 (apply elem_of_cons; right). apply elem_of_cons. by left. }
    destruct (pendingFiles_nonempty _ _ Hcin Hc) as [f Hhd].
    destruct (head_pendingFiles _ _ Hhd) as (Hin & Hst & Hge).
    specialize (Hge c Hcin Hc).
    assert (f = c) as ->.
    { rewrite Hperm in Hin.
      repeat (apply elem_of_cons in Hin as [->|Hin]); try lia; try done.
      by apply elem_of_nil in Hin. }
    eexists _, _. apply whileBody_dispatch. split_and!; try done.
    rewrite processingFiles_nil.
    + unfold MAX_CONCURRENCY. simpl. case_match; lia.
    + rewrite Hperm. repeat constructor; congruence.
Qed.

(** Two orders of insertion, run. *)
Lemma C1_dispatch_most_recent_pending_witness :
  let t (key : string) (ts : Z) :=
    mkImageFile key (mkFile "a.png" "image/png" "") "blob:1" PENDING
      None None None None None None None (Some false) ts in
  let s (l : list ImageFile) :=
    mkState l true false (initialSettings "k") [] [] 1 in
  (∃ s' waitMs, whileBody (s [t "x" 5; t "y" 1; t "z" 9])
                = (s', LoopDispatch (t "z" 9) waitMs)
                ∧ (status <$> files s') = [PENDING; PENDING; PROCESSING])
  ∧ (∃ s' waitMs, whileBody (s [t "z" 9; t "y" 1; t "x" 5])
                = (s', LoopDispatch (t "z" 9) waitMs)
                ∧ (status <$> files s') = [PROCESSING; PENDING; PENDING])
  ∧ lastActivityTimestamp (t "x" 5) ≤ lastActivityTimestamp (t "z" 9).
Proof.
  intros t s.
  pose proof C1_dispatch_most_recent_pending as (Hgen & H519).
  assert (∃ s' waitMs, whileBody (s [t "x" 5; t "y" 1; t "z" 9])
                       = (s', LoopDispatch (t "z" 9) waitMs)) as H1.
  { apply (H519 _ (t "x" 5) (t "y" 1) (t "z" 9)); try reflexivity. simpl. lia. }
  assert (∃ s' waitMs, whileBody (s [t "z" 9; t "y" 1; t "x" 5])
                       = (s', LoopDispatch (t "z" 9) waitMs)) as H2.
  { apply (H519 _ (t "x" 5) (t "y" 1) (t "z" 9)); try reflexivity.
    - exact (Permutation_sym (Permutation_rev [t "x" 5; t "y" 1; t "z" 9])).
    - simpl. lia. }
  destruct H1 as (s1 & waitMs1 & Hbody1). destruct H2 as (s2 & waitMs2 & Hbody2).
  destruct (Hgen _ _ _ _ Hbody1) as (_ & _ & Hmax & Hfiles1 & _).
  destruct (Hgen _ _ _ _ Hbody2) as (_ & _ & _ & Hfiles2 & _).
  split_and!.
  - exists s1, waitMs1. split; [exact Hbody1|]. by rewrite Hfiles1.
  - exists s2, waitMs2. split; [exact Hbody2|]. by rewrite Hfiles2.
  - apply Hmax; [|reflexivity]. apply elem_of_cons. by left.
Defined.

(** ** The worker *)

Lemma truthy_Some key : key ≠ "" → truthy (Some key) = true.
Proof. intros Hne. simpl. by apply negb_true_iff, String.eqb_neq. Qed.

(** What [processSingleFile] throws is never falsy: it is an object. *)
Lemma lastErrorOr_object lastError message :
  ∃ m, lastErrorOr lastError message = ThrownObject m.
Proof. destruct lastError as [[| | |m]|]; simpl; eauto. Qed.

Lemma messageOr_nonempty e fallback : fallback ≠ "" → messageOr e fallback ≠ "".
Proof.
  intros Hne. destruct e as [| | |[m|]]; simpl; try done.
  destruct (String.eqb_spec m ""); done.
Qed.

Lemma attemptLoop_rejects_object w fileItem fs prompt temp key maxAttempts
    remaining attempts0 lastError backoffs0 e :
  settled (attemptLoop w fileItem fs prompt temp key maxAttempts remaining
             attempts0 lastError backoffs0) = Rejected e →
  ∃ m, e = ThrownObject m.
Proof.
  revert attempts0 lastError backoffs0.
  induction remaining as [|remaining IH]; intros attempts0 lastError backoffs0; simpl.
  - intros [= <-]. apply lastErrorOr_object.
  - destruct (abortAtLoopTop w attempts0); simpl.
    + intros [= <-]. apply lastErrorOr_object.
    + destruct (translateImageWithGemini _ _ _ _ _ _); [|by apply IH].
      destruct (fetchBlob _ _ _); [done|by apply IH].
Qed.

Lemma processSingleFile_rejects_object cfg w fileItem e :
  settled (processSingleFile cfg w fileItem) = Rejected e → ∃ m, e = ThrownObject m.
Proof.
  unfold processSingleFile. destruct (truthy (apiKey cfg)); simpl.
  - apply attemptLoop_rejects_object.
  - intros [= <-]. by eexists.
Qed.

(** Whatever the worker returns carries the id it was given. *)
Lemma attemptLoop_fulfils_same_id w fileItem fs prompt temp key maxAttempts
    remaining attempts0 lastError backoffs0 updatedFile :
  settled (attemptLoop w fileItem fs prompt temp key maxAttempts remaining
             attempts0 lastError backoffs0) = Fulfilled updatedFile →
  ∃ resultBase64 blob, updatedFile = completedFile fileItem resultBase64 blob.
Proof.
  revert attempts0 lastError backoffs0.
  induction remaining as [|remaining IH]; intros attempts0 lastError backoffs0; simpl;
    [done|].
  destruct (abortAtLoopTop w attempts0); simpl; [done|].
  destruct (translateImageWithGemini _ _ _ _ _ _); [|by apply IH].
  destruct (fetchBlob _ _ _); [|by apply IH].
  simpl. intros [= <-]. eauto.
Qed.

Lemma processSingleFile_fulfils cfg w fileItem updatedFile :
  settled (processSingleFile cfg w fileItem) = Fulfilled updatedFile →
  ∃ resultBase64 blob, updatedFile = completedFile fileItem resultBase64 blob.
Proof.
  unfold processSingleFile. destruct (truthy (apiKey cfg)); simpl; [|done].
  apply attemptLoop_fulfils_same_id.
Qed.

(** The wrapper always ends in one of two store updates on the id of the
    record the worker was given. *)
Lemma processFileBackground_cases cfg w fileItem :
  (∃ resultBase64 blob,
      settled (processSingleFile cfg w fileItem)
      = Fulfilled (completedFile fileItem resultBase64 blob)
      ∧ processFileBackground cfg w fileItem
        = Fulfilled (mapById (id fileItem)
                       (fun _ => completedFile fileItem resultBase64 blob)))
  ∨ (∃ m,
      settled (processSingleFile cfg w fileItem) = Rejected (ThrownObject m)
      ∧ processFileBackground cfg w fileItem
        = Fulfilled (mapById (id fileItem)
                       (failedFile (messageOr (ThrownObject m) "Unknown error")))).
Proof.
  unfold processFileBackground.
  destruct (settled (processSingleFile cfg w fileItem)) as [u|e] eqn:Hrun.
  - left. destruct (processSingleFile_fulfils _ _ _ _ Hrun) as (url & blob & ->).
    by exists url, blob.
  - right. destruct (processSingleFile_rejects_object _ _ _ _ Hrun) as [m ->].
    by exists m.
Qed.

(** Every record that carries the key after a write-back is the written
    record. *)
Lemma mapById_hit key g prev f' :
  (∀ f, id (g f) = id f) →
  f' ∈ mapById key g prev → id f' = key → ∃ f, f ∈ prev ∧ id f = key ∧ f' = g f.
Proof.
  intros Hg Hin Hid. apply elem_of_mapById in Hin as (f & Hf & ->).
  case_decide as Hk.
  - exists f. by rewrite Hg in Hid.
  - done.
Qed.

Lemma mapById_const_hit key u prev f' :
  f' ∈ mapById key (fun _ => u) prev → id f' = key → f' = u.
Proof.
  intros Hin Hid. apply elem_of_mapById in Hin as (f & Hf & ->).
  by case_decide.
Qed.

(** A write-back by id rewrites the record at its place and leaves the
    other records where they are. *)
Lemma mapById_at key g prev i f :
  prev !! i = Some f → id f = key → mapById key g prev !! i = Some (g f).
Proof.
  intros Hi Hid. rewrite mapById_lookup, Hi. simpl. by rewrite decide_True.
Qed.

Lemma mapById_other key g prev i f :
  prev !! i = Some f → id f ≠ key → mapById key g prev !! i = Some f.
Proof.
  intros Hi Hid. rewrite mapById_lookup, Hi. simpl. by rewrite decide_False.
Qed.

(** C3. With a credential and no stop request, against a Transform Service
    that fails on its first two calls and succeeds on the third: when
    auto-retry is on the worker makes exactly 3 attempts and the write-back
    puts the Completed record, with the result of the third call, in the
    place of the task's record; when it is off the worker makes exactly 1
    attempt and the write-back turns the task's record, at its place, into
    a Failed one with the message of that attempt's error. Either write-back
    keeps the length of the store and every record of another task. *)
Theorem C3_retry_budget cfg w fileItem key e1 e2 resultBase64 blob :
  apiKey cfg = Some key → key ≠ "" →
  (∀ n, abortAtLoopTop w n = false) →
  (∀ n, abortInCatch w n = false) →
  (∀ fs p t k, translateImageWithGemini w 1 fs p t k = Rejected e1) →
  (∀ fs p t k, translateImageWithGemini w 2 fs p t k = Rejected e2) →
  (∀ fs p t k, translateImageWithGemini w 3 fs p t k = Fulfilled resultBase64) →
  fetchBlob w 3 resultBase64 = Fulfilled blob →
  (autoRetry cfg = true →
     let updatedFile := completedFile fileItem resultBase64 blob in
     processSingleFile cfg w fileItem = mkWorkerRun (Fulfilled updatedFile) 3 2
     ∧ processFileBackground cfg w fileItem
       = Fulfilled (mapById (id fileItem) (fun _ => updatedFile))
     ∧ status updatedFile = COMPLETED
     ∧ resultUrl updatedFile = Some resultBase64
     ∧ resultBlob updatedFile = Some blob
     ∧ error updatedFile = None
     ∧ id updatedFile = id fileItem
     ∧ (∀ prev f', f' ∈ mapById (id fileItem) (fun _ => updatedFile) prev →
          id f' = id fileItem → f' = updatedFile)
     ∧ (∀ prev i f, prev !! i = Some f → id f = id fileItem →
          mapById (id fileItem) (fun _ => updatedFile) prev !! i
          = Some updatedFile)
     ∧ (∀ prev i f, prev !! i = Some f → id f ≠ id fileItem →
          mapById (id fileItem) (fun _ => updatedFile) prev !! i = Some f)
     ∧ (∀ prev, length (mapById (id fileItem) (fun _ => updatedFile) prev)
                = length prev))
  ∧ (autoRetry cfg = false →
     let lastError := lastErrorOr (Some e1) "Processing failed" in
     let message := messageOr lastError "Unknown error" in
     processSingleFile cfg w fileItem = mkWorkerRun (Rejected lastError) 1 0
     ∧ processFileBackground cfg w fileItem
       = Fulfilled (mapById (id fileItem) (failedFile message))
     ∧ (∀ m, e1 = ThrownObject (Some m) → m ≠ "" → message = m)
     ∧ message ≠ ""
     ∧ (∀ prev f', f' ∈ mapById (id fileItem) (failedFile message) prev →
          id f' = id fileItem → status f' = FAILED ∧ error f' = Some message)
     ∧ (∀ prev i f, prev !! i = Some f → id f = id fileItem →
          mapById (id fileItem) (failedFile message) prev !! i
          = Some (failedFile message f)
          ∧ status (failedFile message f) = FAILED
          ∧ error (failedFile message f) = Some message
          ∧ id (failedFile message f) = id fileItem)
     ∧ (∀ prev i f, prev !! i = Some f → id f ≠ id fileItem →
          mapById (id fileItem) (failedFile message) prev !! i = Some f)
     ∧ (∀ prev, length (mapById (id fileItem) (failedFile message) prev)
                = length prev)).
Proof.
  intros Hkey Hne Htop Hcatch H1 H2 H3 Hblob.
  assert (truthy (apiKey cfg) = true) as Htruthy
    by (rewrite Hkey; by apply truthy_Some).
  split; intros Hretry.
  - assert (processSingleFile cfg w fileItem
            = mkWorkerRun (Fulfilled (completedFile fileItem resultBase64 blob)) 3 2)
      as Hrun.
    { unfold processSingleFile. rewrite Htruthy, Hretry. simpl.
      rewrite !Htop, H1. simpl. rewrite Hcatch, H2. simpl.
      rewrite Hcatch, H3, Hblob. done. }
    simpl. split_and!; try done.
    + unfold processFileBackground. by rewrite Hrun.
    + intros prev f' Hin Hid. by eapply mapById_const_hit.
    + intros prev i f Hi Hid.
      by apply (mapById_at _ (fun _ => completedFile fileItem resultBase64 blob)
                  _ _ f).
    + intros prev i f. apply mapById_other.
    + intros prev. apply length_mapById.
  - assert (processSingleFile cfg w fileItem
            = mkWorkerRun (Rejected (lastErrorOr (Some e1) "Processing failed")) 1 0)
      as Hrun.
    { unfold processSingleFile. rewrite Htruthy, Hretry. simpl.
      rewrite !Htop, H1. done. }
    simpl. split_and!; try done.
    + unfold processFileBackground. rewrite Hrun. simpl.
      by destruct e1.
    + intros m -> Hm. simpl. by destruct (String.eqb_spec m "").
    + by apply messageOr_nonempty.
    + intros prev f' Hin Hid.
      apply mapById_hit in Hin as (f & _ & _ & ->); done.
    + intros prev i f Hi Hid. split_and!; try done. by apply mapById_at.
    + intros prev i f. apply mapById_other.
    + intros prev. apply length_mapById.
Qed.

Lemma C3_retry_budget_witness :
  let retry := changeSettings (SetAutoRetry true) (initialSettings "k") in
  let task := sampleFile "t" PENDING 1 in
  let other := sampleFile "u" PENDING 2 in
  attempts (processSingleFile retry flakyWorld task) = 3%nat
  ∧ attempts (processSingleFile (initialSettings "k") flakyWorld task) = 1%nat
  ∧ (∃ g, processFileBackground retry flakyWorld task = Fulfilled g
          ∧ (status <$> g [other; markProcessing task]) = [PENDING; COMPLETED])
  ∧ (∃ g, processFileBackground (initialSettings "k") flakyWorld task
          = Fulfilled g
          ∧ (status <$> g [other; markProcessing task]) = [PENDING; FAILED]
          ∧ (error <$> g [other; markProcessing task]) = [None; Some "503"]).
Proof.
  intros retry task other.
  pose proof (C3_retry_budget retry flakyWorld task "k"
                (newError "503") (newError "503")
                "data:image/png;base64,AAAA" (mkBlob "image/png" "AAAA")) as Hon.
  destruct Hon as [Hon _]; [reflexivity|discriminate|reflexivity..|].
  pose proof (C3_retry_budget (initialSettings "k") flakyWorld task "k"
                (newError "503") (newError "503")
                "data:image/png;base64,AAAA" (mkBlob "image/png" "AAAA")) as Hoff.
  destruct Hoff as [_ Hoff]; [reflexivity|discriminate|reflexivity..|].
  destruct (Hon eq_refl) as (Hrun3 & Hbg3 & _).
  destruct (Hoff eq_refl) as (Hrun1 & Hbg1 & _).
  split_and!.
  - by rewrite Hrun3.
  - by rewrite Hrun1.
  - eexists. split; [exact Hbg3|]. reflexivity.
  - eexists. split; [exact Hbg1|]. split; reflexivity.
Defined.

Lemma failedFile_hit key message prev f' :
  f' ∈ mapById key (failedFile message) prev → id f' = key →
  status f' = FAILED ∧ error f' = Some message.
Proof.
  intros Hin Hid.
  apply mapById_hit in Hin as (f & _ & _ & ->); done.
Qed.

(** With no stop request, a retry loop that ends in failure has used every
    attempt that was left, and has paused after each of them that was not
    the last of the budget. *)
Lemma attemptLoop_exhausts w fileItem fs prompt temp key maxAttempts remaining
    attempts0 lastError backoffs0 e :
  (∀ n, abortAtLoopTop w n = false) →
  let r := attemptLoop w fileItem fs prompt temp key maxAttempts remaining
             attempts0 lastError backoffs0 in
  settled r = Rejected e →
  attempts r = (attempts0 + remaining)%nat
  ∧ ((∀ n, abortInCatch w n = false) →
     backoffs r
     = (backoffs0 + Nat.min remaining (maxAttempts - 1 - attempts0))%nat).
Proof.
  intros Htop. revert attempts0 lastError backoffs0.
  induction remaining as [|remaining IH]; intros attempts0 lastError backoffs0; simpl.
  { intros _. split; [lia|]. intros _. lia. }
  rewrite Htop.
  assert (∀ error,
    settled (attemptLoop w fileItem fs prompt temp key maxAttempts remaining
               (S attempts0) (Some error)
               (if (S attempts0 <? maxAttempts)%nat
                   && negb (abortInCatch w (S attempts0))
                then S backoffs0 else backoffs0)) = Rejected e →
    attempts (attemptLoop w fileItem fs prompt temp key maxAttempts remaining
                (S attempts0) (Some error)
                (if (S attempts0 <? maxAttempts)%nat
                    && negb (abortInCatch w (S attempts0))
                 then S backoffs0 else backoffs0))
    = (attempts0 + S remaining)%nat
    ∧ ((∀ n, abortInCatch w n = false) →
       backoffs (attemptLoop w fileItem fs prompt temp key maxAttempts remaining
                   (S attempts0) (Some error)
                   (if (S attempts0 <? maxAttempts)%nat
                       && negb (abortInCatch w (S attempts0))
                    then S backoffs0 else backoffs0))
       = (backoffs0 + Nat.min (S remaining) (maxAttempts - 1 - attempts0))%nat))
    as Hcaught.
  { intros error Hrej. destruct (IH _ _ _ Hrej) as [Hn Hb].
    split; [rewrite Hn; lia|]. intros Hcatch. rewrite (Hb Hcatch), Hcatch.
    rewrite andb_true_r.
    destruct (Nat.ltb_spec (S attempts0) maxAttempts); lia. }
  destruct (translateImageWithGemini w (S attempts0) fs prompt temp key)
    as [resultBase64|error]; [|apply Hcaught].
  destruct (fetchBlob w (S attempts0) resultBase64) as [blob|error];
    [done|apply Hcaught].
Qed.

(** C9, as the code has it. The wrapper never rejects: whatever the worker
    throws, the wrapper ends in the store update that turns the record of
    the task, at its place, into a Failed one with a non-empty error
    message, and leaves the other records alone. A missing (or empty)
    credential fails the worker before its retry loop is entered: no call
    of the Transform Service, no back-off, whatever the retry setting, and
    the record gets the message "API Key is missing". With a credential and
    no stop request, a worker that fails has made every attempt of its
    budget, 3 with auto-retry and 1 without, and has paused between two
    attempts. *)
Theorem C9_failures_become_failed_records cfg w fileItem :
  (∃ g, processFileBackground cfg w fileItem = Fulfilled g)
  ∧ (∀ e, settled (processSingleFile cfg w fileItem) = Rejected e →
       ∃ message, message ≠ ""
         ∧ processFileBackground cfg w fileItem
           = Fulfilled (mapById (id fileItem) (failedFile message))
         ∧ (∀ prev f', f' ∈ mapById (id fileItem) (failedFile message) prev →
              id f' = id fileItem → status f' = FAILED ∧ error f' = Some message)
         ∧ (∀ prev i f, prev !! i = Some f → id f = id fileItem →
              mapById (id fileItem) (failedFile message) prev !! i
              = Some (failedFile message f)
              ∧ status (failedFile message f) = FAILED
              ∧ error (failedFile message f) = Some message
              ∧ id (failedFile message f) = id fileItem)
         ∧ (∀ prev i f, prev !! i = Some f → id f ≠ id fileItem →
              mapById (id fileItem) (failedFile message) prev !! i = Some f)
         ∧ (∀ prev, length (mapById (id fileItem) (failedFile message) prev)
                    = length prev))
  ∧ (truthy (apiKey cfg) = false →
       processSingleFile cfg w fileItem
       = mkWorkerRun (Rejected (newError "API Key is missing")) 0 0
       ∧ processFileBackground cfg w fileItem
         = Fulfilled (mapById (id fileItem) (failedFile "API Key is missing")))
  ∧ (truthy (apiKey cfg) = true →
     (∀ n, abortAtLoopTop w n = false) →
     ∀ e, settled (processSingleFile cfg w fileItem) = Rejected e →
       attempts (processSingleFile cfg w fileItem)
       = (if autoRetry cfg then 3 else 1)%nat
       ∧ ((∀ n, abortInCatch w n = false) →
          backoffs (processSingleFile cfg w fileItem)
          = (if autoRetry cfg then 2 else 0)%nat)).
Proof.
  split_and!.
  - destruct (processFileBackground_cases cfg w fileItem)
      as [(url & blob & _ & ->)|(m & _ & ->)]; eauto.
  - intros e He.
    destruct (processFileBackground_cases cfg w fileItem)
      as [(url & blob & Hrun & _)|(m & Hrun & Hbg)]; [congruence|].
    exists (messageOr (ThrownObject m) "Unknown error"). split_and!.
    + by apply messageOr_nonempty.
    + done.
    + intros prev f'. apply failedFile_hit.
    + intros prev i f Hi Hid. split_and!; try done. by apply mapById_at.
    + intros prev i f. apply mapById_other.
    + intros prev. apply length_mapById.
  - intros Hkey.
    assert (processSingleFile cfg w fileItem
            = mkWorkerRun (Rejected (newError "API Key is missing")) 0 0) as Hrun.
    { unfold processSingleFile. by rewrite Hkey. }
    split; [done|]. unfold processFileBackground. by rewrite Hrun.
  - intros Hkey Htop e. unfold processSingleFile. rewrite Hkey. simpl.
    intros Hrej.
    destruct (attemptLoop_exhausts _ _ _ _ _ _ _ _ _ _ _ _ Htop Hrej) as [Hn Hb].
    split.
    + rewrite Hn. by destruct (autoRetry cfg).
    + intros Hcatch. rewrite (Hb Hcatch). by destruct (autoRetry cfg).
Qed.

Lemma C9_failures_become_failed_records_witness :
  let noKey := changeSettings (SetApiKey None) (initialSettings "k") in
  let retry := changeSettings (SetAutoRetry true) (initialSettings "k") in
  let task := sampleFile "t" PENDING 1 in
  (∃ g, processFileBackground noKey failingWorld task = Fulfilled g
        ∧ g [markProcessing task]
          = [failedFile "API Key is missing" (markProcessing task)])
  ∧ (∃ message, message ≠ ""
        ∧ processFileBackground (initialSettings "k") failingWorld task
          = Fulfilled (mapById (id task) (failedFile message)))
  ∧ attempts (processSingleFile retry failingWorld task) = 3%nat
  ∧ backoffs (processSingleFile retry failingWorld task) = 2%nat.
Proof.
  intros noKey retry task.
  destruct (C9_failures_become_failed_records noKey failingWorld task)
    as (_ & _ & Hkey & _).
  destruct (Hkey eq_refl) as [_ Hbg].
  destruct (C9_failures_become_failed_records (initialSettings "k") failingWorld task)
    as (_ & Hfail & _).
  destruct (Hfail (newError "503") eq_refl) as (message & Hne & Hbg' & _).
  destruct (C9_failures_become_failed_records retry failingWorld task)
    as (_ & _ & _ & Hbudget).
  destruct (Hbudget eq_refl (fun _ => eq_refl) (newError "503") eq_refl)
    as [Hn Hb].
  split_and!.
  - eexists. split; [exact Hbg|]. reflexivity.
  - exists message. by split.
  - exact Hn.
  - exact (Hb (fun _ => eq_refl)).
Defined.

(** C9 as stated fails on its last part: under the same settings (auto-retry
    on) and the same failing Transform Service, a worker without a
    credential makes no attempt at all, while a worker with one makes three
    and pauses twice. *)
Lemma C9_missing_key_is_never_retried :
  let retry := changeSettings (SetAutoRetry true) (initialSettings "k") in
  let noKey := changeSettings (SetApiKey None) retry in
  let task := sampleFile "t" PENDING 1 in
  processSingleFile noKey failingWorld task
  = mkWorkerRun (Rejected (newError "API Key is missing")) 0 0
  ∧ processSingleFile retry failingWorld task
    = mkWorkerRun (Rejected (newError "503")) 3 2
  ∧ attempts (processSingleFile noKey failingWorld task)
    ≠ attempts (processSingleFile retry failingWorld task).
Proof. by vm_compute. Qed.

(** ** Removal and stale write-backs *)

Lemma handleRemove_ids key prev : key ∉ id <$> handleRemove key prev.
Proof.
  unfold handleRemove. rewrite list_elem_of_fmap.
  intros (f & Hid & Hin). apply list_elem_of_filter in Hin as [Hne _]. done.
Qed.

(** C8. After [handleRemove] the store holds no record with the removed
    id and keeps every other record; the write-back of a worker that was
    given the removed task, however that worker ends, is a store update
    that leaves this store as it is; and as an event of a run it is always
    possible and changes no record. *)
Theorem C8_remove_then_stale_write_back cfg w fileItem prev :
  let store := handleRemove (id fileItem) prev in
  (id fileItem ∉ id <$> store)
  ∧ (∀ f, f ∈ store ↔ f ∈ prev ∧ id f ≠ id fileItem)
  ∧ (∃ g, processFileBackground cfg w fileItem = Fulfilled g ∧ g store = store)
  ∧ (∀ s n, workers s !! n = Some (mkWorker fileItem cfg) →
       ∃ s', step (setFiles (handleRemove (id fileItem)) s) (WorkerSettles n w)
             = Some s'
             ∧ files s' = handleRemove (id fileItem) (files s)).
Proof.
  intros store.
  assert (∃ g, processFileBackground cfg w fileItem = Fulfilled g
               ∧ (∀ l, id fileItem ∉ id <$> l → g l = l)) as (g & Hbg & Hg).
  { destruct (processFileBackground_cases cfg w fileItem)
      as [(url & blob & _ & ->)|(m & _ & ->)];
      eexists; (split; [done|]); intros l; apply mapById_absent. }
  split_and!.
  - apply handleRemove_ids.
  - intros f. unfold store, handleRemove. rewrite list_elem_of_filter. tauto.
  - exists g. split; [done|]. apply Hg, handleRemove_ids.
  - intros s n Hn. simpl. rewrite Hn. simpl. rewrite Hbg.
    eexists. split; [done|]. simpl. apply Hg, handleRemove_ids.
Qed.

Lemma C8_remove_then_stale_write_back_witness :
  let a := sampleFile "a" PROCESSING 1 in
  let b := sampleFile "b" PENDING 2 in
  let s := mkState [a; b] true false (initialSettings "k")
             [mkWorker (sampleFile "a" PENDING 1) (initialSettings "k")] [] 1 in
  ∃ s', run s [Remove "a"; WorkerSettles 0 flakyWorld] = Some s' ∧ files s' = [b].
Proof.
  intros a b s.
  destruct (C8_remove_then_stale_write_back (initialSettings "k") flakyWorld
              (sampleFile "a" PENDING 1) [a; b]) as (_ & _ & _ & Hstep).
  destruct (Hstep s 0%nat eq_refl) as (s' & Hs' & Hfiles).
  exists s'. split; [exact Hs'|exact Hfiles].
Defined.

(** ** Regenerate *)

Lemma whileBody_ids s : id <$> files (fst (whileBody s)) = id <$> files s.
Proof.
  destruct (whileBody s) as [s' a] eqn:Hbody. simpl.
  destruct a as [|f waitMs|waitMs].
  - by destruct (whileBody_no_dispatch _ _ _ Hbody) as [-> _].
  - apply whileBody_dispatch in Hbody as (_ & _ & _ & -> & _). simpl.
    by apply mapById_ids.
  - by destruct (whileBody_no_dispatch _ _ _ Hbody) as [-> _].
Qed.

Lemma processQueue_ids capturedIsProcessing s :
  id <$> files (fst (processQueue capturedIsProcessing s)) = id <$> files s.
Proof.
  unfold processQueue. destruct capturedIsProcessing; [done|].
  simpl. by rewrite files_afterPass, whileBody_ids.
Qed.

Lemma processFileBackground_ids cfg w fileItem g prev :
  processFileBackground cfg w fileItem = Fulfilled g →
  id <$> g prev = id <$> prev.
Proof.
  destruct (processFileBackground_cases cfg w fileItem)
    as [(url & blob & _ & ->)|(m & _ & ->)]; intros [= <-].
  - apply mapById_ids. by intros f ->.
  - by apply mapById_ids.
Qed.

(** C4. [handleRegenerate] rewrites the store in place: the list of ids is
    the same, position by position; each record with the given id, whatever
    its status, becomes Pending with no result, no error, the retry flag set
    and the given time as lastActivityTimestamp, its other fields kept;
    every other record is kept; a call of [processQueue] is queued behind
    the calls that wait already, with the [isProcessing] of the moment. The
    dispatch that follows and the worker's write-back, however the worker
    ends, keep the list of ids too, and a successful write-back puts the
    Completed record with the new result under the same id. *)
Theorem C4_regenerate_in_place key now s :
  let s' := handleRegenerate key now s in
  id <$> files s' = id <$> files s
  ∧ (∀ i f, files s !! i = Some f → id f = key →
       let g := regenerated now f in
       files s' !! i = Some g
       ∧ id g = id f ∧ status g = PENDING
       ∧ resultUrl g = None ∧ resultBlob g = None ∧ error g = None
       ∧ isRetry g = Some true ∧ lastActivityTimestamp g = now
       ∧ file g = file f ∧ previewUrl g = previewUrl f
       ∧ secondaryFile g = secondaryFile f
       ∧ secondaryPreviewUrl g = secondaryPreviewUrl f
       ∧ customPrompt g = customPrompt f ∧ retryTimestamp g = retryTimestamp f)
  ∧ (∀ i f, files s !! i = Some f → id f ≠ key → files s' !! i = Some f)
  ∧ timers s' = timers s ++ [isProcessing s]
  ∧ (∀ capturedIsProcessing s1,
       id <$> files (fst (processQueue capturedIsProcessing s1))
       = id <$> files s1)
  ∧ (∀ s1, id <$> files (fst (whileBody s1)) = id <$> files s1)
  ∧ (∀ cfg w fileItem g prev,
       processFileBackground cfg w fileItem = Fulfilled g →
       id <$> g prev = id <$> prev)
  ∧ (∀ cfg w fileItem updatedFile prev f',
       settled (processSingleFile cfg w fileItem) = Fulfilled updatedFile →
       id updatedFile = id fileItem ∧ status updatedFile = COMPLETED
       ∧ is_Some (resultBlob updatedFile)
       ∧ (f' ∈ mapById (id updatedFile) (fun _ => updatedFile) prev →
          id f' = id fileItem → f' = updatedFile)).
Proof.
  intros s'. split_and!.
  - simpl. by apply mapById_ids.
  - intros i f Hi Hid g. split_and!; try done.
    simpl. rewrite mapById_lookup, Hi. simpl. by rewrite decide_True.
  - intros i f Hi Hid. simpl. rewrite mapById_lookup, Hi. simpl.
    by rewrite decide_False.
  - done.
  - apply processQueue_ids.
  - apply whileBody_ids.
  - apply processFileBackground_ids.
  - intros cfg w fileItem updatedFile prev f' Hrun.
    destruct (processSingleFile_fulfils _ _ _ _ Hrun) as (url & blob & ->).
    split_and!; try done.
    intros Hin Hid. by eapply mapById_const_hit.
Qed.

(** A Completed task is regenerated, dispatched and completed again. *)
Lemma C4_regenerate_in_place_witness :
  let done_ :=
    completedFile (sampleFile "t" PENDING 1) "data:old" (mkBlob "image/png" "OLD") in
  let s := mkState [done_] false false (initialSettings "k") [] [] 0 in
  files (handleRegenerate "t" 7 s) !! 0%nat = Some (regenerated 7 done_)
  ∧ ∃ s', run s [Regenerate "t" 7; TimerFires; WorkerSettles 0 flakyWorld] = Some s'
       ∧ id <$> files s' = ["t"].
Proof.
  intros done_ s.
  destruct (C4_regenerate_in_place "t" 7 s) as (_ & Hhit & _).
  destruct (Hhit 0%nat done_ eq_refl eq_refl) as (Hlook & _).
  split; [exact Hlook|].
  eexists. split; [vm_compute; reflexivity|vm_compute; reflexivity].
Defined.

(** ** The effective prompt *)

Lemma getSubstitution_plain matched before after replacement :
  noDollar replacement = true →
  getSubstitution matched before after replacement = replacement.
Proof.
  induction replacement as [|c r IH]; simpl; [done|].
  intros [Hc Hr]%andb_true_iff. apply negb_true_iff in Hc. rewrite Hc.
  by rewrite IH.
Qed.

Lemma substring_all s : String.substring 0 (String.length s) s = s.
Proof. induction s as [|c s IH]; simpl; [done|]. by rewrite IH. Qed.

Lemma prefix_split pat s :
  String.prefix pat s = true →
  s = pat +:+ String.substring (String.length pat)
                (String.length s - String.length pat)%nat s.
Proof.
  revert s. induction pat as [|a pat IH]; intros s; simpl.
  - intros _. by rewrite Nat.sub_0_r, substring_all.
  - destruct s as [|b s]; simpl; [done|].
    destruct (Ascii.ascii_dec a b) as [->|]; [|done].
    intros Hp. rewrite (IH s Hp) at 1. done.
Qed.

Lemma splitFirst_unfold pat s :
  splitFirst pat s
  = if String.prefix pat s
    then Some ("", String.substring (String.length pat)
                     (String.length s - String.length pat)%nat s)
    else match s with
         | EmptyString => None
         | String c s' =>
             match splitFirst pat s' with
             | Some (before, after) => Some (String c before, after)
             | None => None
             end
         end.
Proof. by destruct s. Qed.

Lemma splitFirst_Some pat s before after :
  splitFirst pat s = Some (before, after) → s = before +:+ pat +:+ after.
Proof.
  revert before. induction s as [|c s IH]; intros before;
    rewrite splitFirst_unfold;
    destruct (String.prefix pat _) eqn:Hp; try done.
  - intros [= <- <-]. by apply prefix_split in Hp.
  - intros [= <- <-]. by apply prefix_split in Hp.
  - destruct (splitFirst pat s) as [[b a]|]; [|done].
    intros [= <- <-]. by rewrite (IH b eq_refl) at 1.
Qed.

Lemma extensionChars_dot x y : extensionChars (x +:+ String "."%char y) = false.
Proof.
  induction x as [|c x IH]; simpl; [done|].
  rewrite IH. by rewrite andb_false_r.
Qed.

(** What the regular expression strips: a last dot with a non-empty tail
    free of dots and slashes. *)
Lemma removeExtension_strip base ext :
  ext ≠ "" → extensionChars ext = true →
  removeExtension (base +:+ String "."%char ext) = base.
Proof.
  intros Hne Hext. induction base as [|c base IH]; simpl.
  - rewrite Hext. by destruct (String.eqb_spec ext "").
  - rewrite extensionChars_dot, andb_false_r. by rewrite IH.
Qed.

Lemma finalPrompt_override template fileItem prompt :
  customPrompt fileItem = Some prompt → prompt ≠ "" →
  finalPrompt template fileItem = prompt.
Proof.
  intros Hp Hne. unfold finalPrompt. rewrite Hp, truthy_Some by done. done.
Qed.

(** Without an override, and for a stripped name that holds no dollar sign,
    the first placeholder of the template is replaced by the stripped
    name; a template without the placeholder is used as it is. *)
Lemma finalPrompt_template template fileItem :
  truthy (customPrompt fileItem) = false →
  let name := removeExtension (file_name (file fileItem)) in
  noDollar name = true →
  match splitFirst "{filename}" template with
  | Some (before, after) =>
      template = before +:+ "{filename}" +:+ after
      ∧ finalPrompt template fileItem = before +:+ name +:+ after
  | None => finalPrompt template fileItem = template
  end.
Proof.
  intros Hno name Hplain. unfold finalPrompt, replace. rewrite Hno.
  destruct (splitFirst "{filename}" template) as [[before after]|] eqn:Hsplit;
    [|done].
  split; [by apply splitFirst_Some|].
  fold name. by rewrite getSubstitution_plain.
Qed.

(** C10 at a file name that holds two dollar signs: the template
    "{filename}" gives the prompt "a$b" for the file "a$$b.png", whose name
    without extension is "a$$b"; for "a$&b.png" it gives "a{filename}b". *)
Theorem C10_dollar_in_file_name :
  let task (name : string) :=
    mkImageFile "t" (mkFile name "image/png" "") "blob:1" PENDING
      None None None None None None None (Some false) 1 in
  removeExtension "a$$b.png" = "a$$b"
  ∧ finalPrompt "{filename}" (task "a$$b.png") = "a$b"
  ∧ finalPrompt "{filename}" (task "a$$b.png") ≠ "a$$b"
  ∧ finalPrompt "{filename}" (task "a$&b.png") = "a{filename}b".
Proof. by vm_compute. Qed.

(** ** Runs: how one event changes the store *)

Lemma run_invariant (P : State -> Prop) :
  (∀ s e s', P s → step s e = Some s' → P s') →
  ∀ events s s', P s → run s events = Some s' → P s'.
Proof.
  intros Hstep. induction events as [|e events IH]; intros s s' Hs; simpl.
  - by intros [= <-].
  - destruct (step s e) as [s1|] eqn:He; [|done].
    apply IH. by eapply Hstep.
Qed.

Lemma run_app s events1 events2 :
  run s (events1 ++ events2)
  = match run s events1 with
    | Some s1 => run s1 events2
    | None => None
    end.
Proof.
  revert s. induction events1 as [|e events1 IH]; intros s; simpl; [done|].
  destruct (step s e); [apply IH|done].
Qed.

Lemma reachable_invariant (P : State -> Prop) :
  (∀ key, P (initialState key)) →
  (∀ s e s', P s → step s e = Some s' → P s') →
  ∀ s, reachable s → P s.
Proof.
  intros Hinit Hstep s (key & events & Hrun).
  eapply run_invariant; [exact Hstep|apply Hinit|exact Hrun].
Qed.

Lemma reachable_step s e s' : reachable s → step s e = Some s' → reachable s'.
Proof.
  intros (key & events & Hrun) He. exists key, (events ++ [e]).
  rewrite run_app, Hrun. simpl. by rewrite He.
Qed.

Lemma blank_newImageFile timestamp i : blank (newImageFile timestamp i).
Proof. by repeat split. Qed.

Lemma blank_pairUp timestamp l : Forall blank (pairUp timestamp l).
Proof.
  assert (Forall blank (pairUp timestamp l)
          ∧ ∀ a, Forall blank (pairUp timestamp (a :: l))) as [H _]; [|done].
  induction l as [|b l [IH1 IH2]].
  - split; [constructor|]. intros a. repeat constructor.
  - split; [apply IH2|]. intros a. simpl. constructor; [by repeat split|done].
Qed.

Lemma Forall2_mapById (Q : ImageFile -> ImageFile -> Prop) key g l :
  (∀ f, Q f f) → (∀ f, id f = key → Q f (g f)) →
  Forall2 Q l (mapById key g l).
Proof.
  intros Hsame Hhit. unfold mapById. apply Forall2_fmap_r.
  apply Forall_Forall2_diag, Forall_forall. intros f _. simpl.
  case_decide; auto.
Qed.

Lemma whileBody_storeChange s0 s others :
  files s0 = files s → settings s0 = settings s →
  storeChange s (afterPass others (whileBody s0)).
Proof.
  intros Hfiles Hcfg. destruct (whileBody s0) as [s' a] eqn:Hbody.
  destruct a as [|f waitMs|waitMs].
  - apply SC_sublist. rewrite files_afterPass. simpl.
    destruct (whileBody_no_dispatch _ _ _ Hbody) as [-> _]; [done|].
    by rewrite Hfiles.
  - apply whileBody_dispatch in Hbody as (Habort & Hhd & Hlt & -> & _).
    rewrite Hfiles in Hhd, Hlt. rewrite Hcfg in Hlt.
    apply (SC_dispatch _ _ f); simpl; by rewrite ?Hfiles.
  - apply SC_sublist. rewrite files_afterPass. simpl.
    destruct (whileBody_no_dispatch _ _ _ Hbody) as [-> _]; [done|].
    by rewrite Hfiles.
Qed.

Lemma step_storeChange s e s' : step s e = Some s' → storeChange s s'.
Proof.
  destruct e; simpl; intros Hstep.
  - case_decide as Hfresh; simplify_eq.
    unfold addFilesToQueue in *. rewrite drop_app_length in Hfresh.
    eapply SC_append; [done| |done].
    apply Forall_fmap, Forall_forall. intros i _. apply blank_newImageFile.
  - case_decide as Hfresh; simplify_eq.
    unfold addDualFilesToQueue in *. rewrite drop_app_length in Hfresh.
    eapply SC_append; [done| |done]. apply blank_pairUp.
  - simplify_eq. apply SC_sublist. apply sublist_filter.
  - simplify_eq. apply SC_quiet. apply Forall2_mapById; constructor.
  - simplify_eq. unfold startProcessing.
    destruct (length (files s) =? 0)%nat; [by apply SC_sublist|].
    apply SC_quiet. simpl. apply Forall2_fmap_r.
    apply Forall_Forall2_diag, Forall_forall. intros f _. constructor.
  - simplify_eq. apply SC_quiet. apply Forall2_mapById; constructor.
  - destruct (list_find _ _) as [[i item]|]; [|done].
    case_decide as Hfresh; simplify_eq.
    unfold handleUseResultAsInput.
    destruct (resultBlob item) as [blob|]; [|by apply SC_sublist].
    eapply SC_append; [done| |done]. by repeat constructor.
  - simplify_eq. by apply SC_sublist.
  - simplify_eq. apply SC_sublist. unfold clearAll.
    destruct (isProcessing s); [done|]. apply sublist_nil_l.
  - destruct (timers s) as [|[|] rest]; simplify_eq; [by apply SC_sublist|].
    unfold processQueue. simpl. by apply whileBody_storeChange.
  - destruct (loops s) as [|others]; simplify_eq.
    by apply whileBody_storeChange.
  - destruct (workers s !! n) as [wk|]; [|done].
    destruct (processFileBackground_cases (workerSettings wk) w (workerItem wk))
      as [(url & blob & _ & Hbg)|(m & _ & Hbg)];
      rewrite Hbg in Hstep; simplify_eq; apply SC_quiet; simpl.
    + apply Forall2_mapById; [constructor|]. intros f Hid. by constructor.
    + apply Forall2_mapById; [constructor|]. intros f Hid. constructor.
      by apply (messageOr_nonempty (ThrownObject m)).
  - simplify_eq. by apply SC_sublist.
  - simplify_eq. by apply SC_sublist.
  - simplify_eq. by apply SC_sublist.
  - simplify_eq. by apply SC_sublist.
  - simplify_eq. by apply SC_sublist.
  - simplify_eq. by apply SC_sublist.
  - simplify_eq. by apply SC_sublist.
Qed.

Lemma step_settings s e s' :
  step s e = Some s' → settings s' = changeSettings e (settings s).
Proof.
  destruct e; simpl; intros Hstep; try by simplify_eq.
  - by case_decide; simplify_eq.
  - by case_decide; simplify_eq.
  - unfold startProcessing in Hstep. simplify_eq. by case_match.
  - destruct (list_find _ _) as [[i item]|]; [|done].
    case_decide; simplify_eq. unfold handleUseResultAsInput. by case_match.
  - simplify_eq. unfold clearAll. by case_match.
  - destruct (timers s) as [|[|] rest]; simplify_eq; [done|].
    unfold processQueue. simpl. rewrite settings_afterPass.
    unfold whileBody. simpl. by repeat case_match; simplify_eq.
  - destruct (loops s) as [|others]; simplify_eq.
    rewrite settings_afterPass.
    unfold whileBody. by repeat case_match; simplify_eq.
  - destruct (workers s !! n) as [wk|]; [|done].
    by case_match; simplify_eq.
Qed.

(** ** The concurrency ceiling *)

Lemma quietUpdate_spec f f' :
  quietUpdate f f' →
  id f' = id f ∧ (status f' = PROCESSING → status f = PROCESSING).
Proof.
  destruct 1; split; try done; unfold markPending; by case_decide.
Qed.

Lemma quietUpdate_ids l l' : Forall2 quietUpdate l l' → id <$> l' = id <$> l.
Proof.
  induction 1 as [|f f' l l' Hq _ IH]; [done|].
  rewrite !fmap_cons.
  destruct (quietUpdate_spec _ _ Hq) as [-> _]. by rewrite IH.
Qed.

Lemma quietUpdate_processing l l' :
  Forall2 quietUpdate l l' →
  (length (processingFiles l') ≤ length (processingFiles l))%nat.
Proof.
  unfold processingFiles.
  induction 1 as [|f f' l l' Hq _ IH]; simpl; [done|].
  destruct (quietUpdate_spec _ _ Hq) as [_ Hst].
  rewrite !filter_cons. repeat case_decide; simpl; try lia.
  by destruct (Hst ltac:(done)).
Qed.

Lemma sublist_processing (l l' : list ImageFile) :
  l' `sublist_of` l →
  (length (processingFiles l') ≤ length (processingFiles l))%nat.
Proof.
  unfold processingFiles.
  induction 1 as [|f l1 l2 _ IH|f l1 l2 _ IH]; [done|..];
    rewrite ?filter_cons; repeat case_decide; simpl; lia.
Qed.

Lemma blank_processing new :
  Forall blank new → processingFiles new = [].
Proof.
  intros Hnew. apply processingFiles_nil.
  eapply Forall_impl; [exact Hnew|]. intros f (Hst & _). by rewrite Hst.
Qed.

(** With no record in Processing and ids that are unique, marking by id
    puts at most one record in Processing. *)
Lemma dispatch_processing key l :
  NoDup (id <$> l) → processingFiles l = [] →
  (length (processingFiles (mapById key markProcessing l)) ≤ 1)%nat.
Proof.
  unfold processingFiles. intros Hnodup Hnil.
  induction l as [|f l IH]; [simpl; lia|].
  rewrite fmap_cons, NoDup_cons in Hnodup. destruct Hnodup as [Hnotin Hnodup].
  rewrite filter_cons in Hnil. case_decide as Hst; [done|].
  rewrite mapById_cons, filter_cons.
  destruct (decide (id f = key)) as [Hkey|Hkey].
  - rewrite decide_True by done.
    rewrite mapById_absent by (by rewrite <- Hkey).
    rewrite Hnil. simpl. lia.
  - rewrite decide_False by done. by apply IH.
Qed.

Lemma freshIds_files ids s :
  freshIds ids s → NoDup ids ∧ ∀ i, i ∈ id <$> files s → i ∉ ids.
Proof.
  intros [Hnodup Hfresh]. split; [done|]. intros i Hi Hin.
  rewrite Forall_forall in Hfresh. apply (Hfresh i Hin).
  unfold usedIds. apply elem_of_app. by left.
Qed.

(** Ids stay unique along a run. *)
Lemma step_NoDup s e s' :
  NoDup (id <$> files s) → step s e = Some s' → NoDup (id <$> files s').
Proof.
  intros Hnodup Hstep.
  destruct (step_storeChange _ _ _ Hstep) as [new -> _ Hfresh|Hsub|Hq|f _ _ -> _].
  - rewrite fmap_app. apply NoDup_app.
    destruct (freshIds_files _ _ Hfresh) as [Hnew Hdisj]. done.
  - eapply sublist_NoDup; [exact Hnodup|]. by apply fmap_sublist.
  - by rewrite (quietUpdate_ids _ _ Hq).
  - by rewrite mapById_ids.
Qed.

Lemma step_processing_sequential s e s' :
  enableConcurrency (settings s) = false →
  NoDup (id <$> files s) →
  (length (processingFiles (files s)) ≤ 1)%nat →
  step s e = Some s' →
  (length (processingFiles (files s')) ≤ 1)%nat.
Proof.
  intros Hoff Hnodup Hcount Hstep.
  destruct (step_storeChange _ _ _ Hstep)
    as [new -> Hnew _|Hsub|Hq|f _ Hlt -> _].
  - unfold processingFiles in *. rewrite filter_app, length_app.
    fold (processingFiles new). rewrite (blank_processing _ Hnew). simpl. lia.
  - pose proof (sublist_processing _ _ Hsub). lia.
  - pose proof (quietUpdate_processing _ _ Hq). lia.
  - apply dispatch_processing; [done|].
    unfold MAX_CONCURRENCY in Hlt. rewrite Hoff in Hlt.
    apply nil_length_inv. lia.
Qed.

(** C2. A pass through the loop body dispatches only when the number of
    Processing records is strictly below the ceiling, which is 1 when
    concurrent generation is off and the configured number otherwise; and
    from a store with unique ids and at most one Processing record, along
    any run that starts with concurrent generation off and never switches it
    on, the store never holds more than one Processing record; so it is in
    every state of a run of the application in which concurrent generation
    is switched off before anything else happens and never switched on. *)
Theorem C2_concurrency_ceiling :
  (∀ s s' fileToProcess waitMs,
      whileBody s = (s', LoopDispatch fileToProcess waitMs) →
      Z.of_nat (length (processingFiles (files s))) < MAX_CONCURRENCY (settings s)
      ∧ MAX_CONCURRENCY (settings s)
        = (if enableConcurrency (settings s) then maxConcurrency (settings s) else 1))
  ∧ (∀ events s s',
      enableConcurrency (settings s) = false →
      neverConcurrent events →
      NoDup (id <$> files s) →
      (length (processingFiles (files s)) ≤ 1)%nat →
      run s events = Some s' →
      (length (processingFiles (files s')) ≤ 1)%nat)
  ∧ (∀ key events s',
      neverConcurrent events →
      run (initialState key) (SetEnableConcurrency false :: events) = Some s' →
      reachable s' ∧ (length (processingFiles (files s')) ≤ 1)%nat).
Proof.
  assert (∀ events s s',
      enableConcurrency (settings s) = false →
      neverConcurrent events →
      NoDup (id <$> files s) →
      (length (processingFiles (files s)) ≤ 1)%nat →
      run s events = Some s' →
      (length (processingFiles (files s')) ≤ 1)%nat) as Hsequential.
  { induction events as [|e events IH]; intros s s' Hoff Hnever Hnodup Hcount; simpl.
    - by intros [= <-].
    - destruct (step s e) as [s1|] eqn:Hstep; [|done].
      apply Forall_cons in Hnever as [He Hnever].
      apply IH; try done.
      + rewrite (step_settings _ _ _ Hstep).
        destruct e; simpl; try done. by destruct b.
      + by eapply step_NoDup.
      + by eapply step_processing_sequential. }
  split_and!.
  - intros s s' f waitMs Hbody.
    by apply whileBody_dispatch in Hbody as (_ & _ & Hlt & _).
  - exact Hsequential.
  - intros key events s' Hnever Hrun. split; [by eexists _, _|].
    simpl in Hrun. eapply Hsequential; [| exact Hnever | | | exact Hrun].
    + done.
    + constructor.
    + simpl. lia.
Qed.

Lemma C2_concurrency_ceiling_witness :
  let events := [AddFiles 1 [sampleIncoming "x"; sampleIncoming "y"];
                 StartProcessing; TimerFires; LoopWakes] in
  ∃ s', run (initialState "k") (SetEnableConcurrency false :: events) = Some s'
        ∧ (length (processingFiles (files s')) ≤ 1)%nat
        ∧ length (pendingFiles (files s')) = 1%nat.
Proof.
  intros events.
  destruct C2_concurrency_ceiling as (_ & _ & Hrun).
  eexists. split; [vm_compute; reflexivity|]. split.
  - eapply (Hrun "k" events).
    + repeat constructor; discriminate.
    + vm_compute. reflexivity.
  - vm_compute. reflexivity.
Defined.

(** ** What every reachable store satisfies *)

Lemma quietUpdate_settledFields f f' :
  quietUpdate f f' → settledFields f → settledFields f'.
Proof.
  intros Hq (Hc & Hf & Hi). destruct Hq; try done.
  unfold markPending. case_decide; [|done]. by repeat split.
Qed.

Lemma step_settledFields s e s' :
  Forall settledFields (files s) → step s e = Some s' →
  Forall settledFields (files s').
Proof.
  intros Hinv Hstep.
  destruct (step_storeChange _ _ _ Hstep) as [new -> Hnew _|Hsub|Hq|f _ _ -> _].
  - apply Forall_app. split; [done|].
    eapply Forall_impl; [exact Hnew|].
    intros f (Hst & Hu & Hb & He). unfold settledFields. rewrite Hst.
    by repeat split.
  - apply Forall_forall. intros f Hin. rewrite Forall_forall in Hinv.
    by eapply Hinv, elem_of_sublist.
  - revert Hinv. induction Hq as [|f f' l l' Hq _ IH]; [done|].
    rewrite !Forall_cons. intros [Hf Hl]. split; [|by apply IH].
    by eapply quietUpdate_settledFields.
  - apply Forall_forall. intros f' Hin.
    apply elem_of_mapById in Hin as (f0 & Hf0 & ->).
    rewrite Forall_forall in Hinv. case_decide; [|by apply Hinv].
    by repeat split.
Qed.

(** In every reachable store a Completed record holds its result and no
    error, a Failed record holds an error, an Idle record holds neither. *)
Lemma reachable_settledFields s : reachable s → Forall settledFields (files s).
Proof.
  apply (reachable_invariant (fun s => Forall settledFields (files s))).
  - intros key. constructor.
  - apply step_settledFields.
Qed.

Lemma reachable_NoDup s : reachable s → NoDup (id <$> files s).
Proof.
  apply (reachable_invariant (fun s => NoDup (id <$> files s))).
  - intros key. constructor.
  - apply step_NoDup.
Qed.

(** Each update of a record keeps the result / error discipline, the mark
    of the dispatch on a Pending record and the failure write-back on a
    record that holds no result. *)
Lemma consistent_preserved f :
  consistent f →
  consistent (markPending f)
  ∧ (∀ now, consistent (regenerated now f))
  ∧ (∀ newPrompt, consistent (with_customPrompt (Some newPrompt) f))
  ∧ (∀ fileItem resultBase64 blob,
       consistent (completedFile fileItem resultBase64 blob))
  ∧ (status f = PENDING → consistent (markProcessing f))
  ∧ (∀ message, resultUrl f = None → resultBlob f = None →
       consistent (failedFile message f)).
Proof.
  intros Hf. split_and!.
  - unfold markPending. case_decide as Hst; [|done].
    unfold consistent in *. destruct Hst as [Hst|Hst]; rewrite Hst in Hf; simpl;
      by destruct Hf as (? & ? & ?).
  - done.
  - done.
  - by repeat split.
  - intros Hst. unfold consistent in *. rewrite Hst in Hf.
    by destruct Hf as (? & ? & ?).
  - intros message Hu Hb. by repeat split.
Qed.

(** ** Clone from result *)

Lemma pendingFiles_app_blank l new :
  Forall blank new → pendingFiles (l ++ new) = pendingFiles l.
Proof.
  intros Hnew. unfold pendingFiles. rewrite filter_app.
  replace (filter (fun f => status f = PENDING) new) with (@nil ImageFile);
    [by rewrite app_nil_r|].
  induction Hnew as [|f new (Hst & _) _ IH]; [done|].
  rewrite filter_cons, decide_False; [done|by rewrite Hst].
Qed.

Lemma processingFiles_app_blank l new :
  Forall blank new → processingFiles (l ++ new) = processingFiles l.
Proof.
  intros Hnew. unfold processingFiles. rewrite filter_app.
  fold (processingFiles new).
  by rewrite (blank_processing _ Hnew), app_nil_r.
Qed.

(** C7. In a reachable state, [handleUseResultAsInput] on a Completed task
    of the store, given an id the store does not hold: the task has result
    bytes; the store is the old store, every record in its place and
    untouched, followed by one new record; the new record has the given id,
    which is not the source's, is Idle, has the result bytes and MIME type
    as its file, the source's prompt override, and no secondary file, result
    or error; the lists of Pending and of Processing records are the same;
    no [processQueue] call is queued and the loop flags, the running workers
    and the settings are as before. *)
Theorem C7_clone_from_result s item timestamp uuid url :
  reachable s → item ∈ files s → status item = COMPLETED →
  uuid ∉ id <$> files s →
  ∃ blob, resultBlob item = Some blob ∧
    let s' := handleUseResultAsInput item timestamp uuid url s in
    let new := newQueueItem item blob timestamp uuid url in
    files s' = files s ++ [new]
    ∧ (∀ i f, files s !! i = Some f → files s' !! i = Some f)
    ∧ item ∈ files s'
    ∧ id new = uuid ∧ id new ≠ id item
    ∧ status new = IDLE
    ∧ file_data (file new) = blob_data blob
    ∧ file_type (file new) = blob_type blob
    ∧ customPrompt new = customPrompt item
    ∧ secondaryFile new = None
    ∧ resultUrl new = None ∧ resultBlob new = None ∧ error new = None
    ∧ pendingFiles (files s') = pendingFiles (files s)
    ∧ processingFiles (files s') = processingFiles (files s)
    ∧ timers s' = timers s
    ∧ isProcessing s' = isProcessing s
    ∧ abortControllerRef s' = abortControllerRef s
    ∧ workers s' = workers s
    ∧ settings s' = settings s.
Proof.
  intros Hreach Hin Hst Hfresh.
  pose proof (reachable_settledFields _ Hreach) as Hinv.
  rewrite Forall_forall in Hinv.
  destruct (Hinv _ Hin) as (Hc & _). destruct (Hc Hst) as (_ & [blob Hblob] & _).
  exists blob. split; [done|].
  unfold handleUseResultAsInput. rewrite Hblob. simpl.
  assert (Forall blank [newQueueItem item blob timestamp uuid url]) as Hnew
    by by repeat constructor.
  split_and!; try done.
  - intros i f Hi. by apply lookup_app_l_Some.
  - apply elem_of_app. by left.
  - intros Heq. apply Hfresh. apply list_elem_of_fmap. by exists item.
  - by apply pendingFiles_app_blank.
  - by apply processingFiles_app_blank.
Qed.

Lemma C7_clone_from_result_witness :
  let events := [AddFiles 1 [sampleIncoming "x"]; StartProcessing; TimerFires;
                 WorkerSettles 0 workingWorld] in
  let s := default (initialState "k") (run (initialState "k") events) in
  let item := completedFile (markPending (newImageFile 1 (sampleIncoming "x")))
                "data:image/png;base64,AAAA" (mkBlob "image/png" "AAAA") in
  files s = [item]
  ∧ length (files (handleUseResultAsInput item 5 "y" "blob:y" s)) = 2%nat
  ∧ files (handleUseResultAsInput item 5 "y" "blob:y" s) !! 0%nat = Some item.
Proof.
  intros events s item.
  assert (files s = [item]) as Hfiles by (vm_compute; reflexivity).
  split; [exact Hfiles|].
  assert (reachable s) as Hreach.
  { exists "k", events. vm_compute. reflexivity. }
  assert (item ∈ files s) as Hin.
  { rewrite Hfiles. apply elem_of_cons. by left. }
  assert ("y" ∉ id <$> files s) as Hfresh.
  { rewrite Hfiles. intros [Heq|Hnil]%elem_of_cons; [discriminate|].
    by apply elem_of_nil in Hnil. }
  destruct (C7_clone_from_result s item 5 "y" "blob:y" Hreach Hin eq_refl Hfresh)
    as (blob & _ & Happ & Hkeep & _).
  split.
  - rewrite Happ, length_app, Hfiles. reflexivity.
  - apply Hkeep. rewrite Hfiles. reflexivity.
Defined.

(** ** The result / error discipline *)

(** C6 at the run: add a file, start; the task is dispatched; Regenerate is
    pressed while it is Processing and the loop dispatches it a second time;
    the first worker succeeds and the second one fails. The record ends
    Failed with an error and with the result of the first worker. *)
Theorem C6_failed_record_keeps_result :
  let events := [AddFiles 1 [sampleIncoming "x"]; StartProcessing; TimerFires;
                 Regenerate "x" 2; LoopWakes;
                 WorkerSettles 0 workingWorld; WorkerSettles 0 failingWorld] in
  ∃ s f, run (initialState "k") events = Some s
    ∧ reachable s
    ∧ files s = [f]
    ∧ status f = FAILED
    ∧ error f = Some "503"
    ∧ resultUrl f = Some "data:image/png;base64,AAAA"
    ∧ resultBlob f = Some (mkBlob "image/png" "AAAA")
    ∧ ¬ consistent f.
Proof.
  intros events.
  assert (∃ s, run (initialState "k") events = Some s) as [s Hrun]
    by (eexists; vm_compute; reflexivity).
  assert (∃ f, files s = [f] ∧ status f = FAILED ∧ error f = Some "503"
               ∧ resultUrl f = Some "data:image/png;base64,AAAA"
               ∧ resultBlob f = Some (mkBlob "image/png" "AAAA"))
    as (f & Hfiles & Hst & He & Hu & Hb).
  { vm_compute in Hrun. injection Hrun as <-. eexists. by split_and!. }
  exists s, f. split_and!; try done.
  - by exists "k", events.
  - unfold consistent. rewrite Hst, Hu. by intros (_ & [=] & _).
Qed.

(** ** Stop *)














(** ** The discipline holds while no task has two workers *)

Lemma NoDup_delete_fresh {A B} (g : A -> B) (l : list A) n x :
  NoDup (g <$> l) → l !! n = Some x → g x ∉ g <$> delete n l.
Proof.
  intros Hnodup Hn. rewrite delete_take_drop.
  rewrite <- (take_drop_middle l n x Hn), fmap_app, fmap_cons in Hnodup.
  apply NoDup_app in Hnodup as (_ & Hdisj & Hrest).
  apply NoDup_cons in Hrest as [Hnotin _].
  rewrite fmap_app. intros [Hin|Hin]%elem_of_app; [|done].
  apply (Hdisj _ Hin). apply elem_of_cons. by left.
Qed.

Lemma blank_consistent f : blank f → consistent f.
Proof. intros (Hst & Hu & Hb & He). unfold consistent. by rewrite Hst. Qed.

Lemma tidy_app l ws new :
  tidy l ws → Forall blank new →
  NoDup (id <$> new) →
  (∀ i, i ∈ id <$> new →
     i ∉ (id <$> l) ++ ((fun wk => id (workerItem wk)) <$> ws)) →
  tidy (l ++ new) ws.
Proof.
  intros (Hids & Hcons & Hws & Hproc) Hnew Hnodup Hfresh. split_and!.
  - rewrite fmap_app. apply NoDup_app. split_and!; [done| |done].
    intros i Hi Hin. apply (Hfresh i Hin). apply elem_of_app. by left.
  - apply Forall_app. split; [done|].
    eapply Forall_impl; [exact Hnew|]. apply blank_consistent.
  - done.
  - intros wk f Hwk [Hf|Hf]%elem_of_app Hid; [by eapply Hproc|].
    exfalso. apply (Hfresh (id f)); [by apply list_elem_of_fmap_2|].
    apply elem_of_app. right. rewrite Hid.
    by apply (list_elem_of_fmap_2 (fun wk => id (workerItem wk))).
Qed.

Lemma tidy_sublist l l' ws ws' :
  tidy l ws → l' `sublist_of` l → ws' `sublist_of` ws → tidy l' ws'.
Proof.
  intros (Hids & Hcons & Hws & Hproc) Hsub Hsubw. split_and!.
  - eapply sublist_NoDup; [exact Hids|]. by apply fmap_sublist.
  - apply Forall_forall. intros f Hin. rewrite Forall_forall in Hcons.
    by eapply Hcons, elem_of_sublist.
  - eapply sublist_NoDup; [exact Hws|]. by apply fmap_sublist.
  - intros wk f Hwk Hf. eapply Hproc; by eapply elem_of_sublist.
Qed.

(** A rewriting of the records in place, with the workers that remain. *)
Lemma tidy_pointwise (u : ImageFile -> ImageFile) l ws ws' :
  tidy l ws →
  (∀ f, f ∈ l → id (u f) = id f) →
  (∀ f, f ∈ l → consistent (u f)) →
  NoDup ((fun wk => id (workerItem wk)) <$> ws') →
  (∀ wk f, wk ∈ ws' → f ∈ l → id f = id (workerItem wk) →
     status (u f) = PROCESSING) →
  tidy (u <$> l) ws'.
Proof.
  intros (Hids & Hcons & Hws & Hproc) Hid Hu Hws' Hproc'. split_and!.
  - rewrite <- list_fmap_compose.
    replace ((id ∘ u) <$> l) with (id <$> l); [done|].
    apply list_fmap_ext. intros i f Hi. simpl. symmetry.
    by eapply Hid, list_elem_of_lookup_2.
  - apply Forall_fmap, Forall_forall. intros f Hf. by apply Hu.
  - done.
  - intros wk f' Hwk Hin Hidf.
    apply list_elem_of_fmap in Hin as (f & -> & Hf).
    rewrite Hid in Hidf by done. by eapply Hproc'.
Qed.

Lemma tidy_same_id l ws f g :
  tidy l ws → f ∈ l → g ∈ l → id f = id g → f = g.
Proof.
  intros (Hids & _) Hf Hg Hid.
  apply list_elem_of_lookup in Hf as [i Hi].
  apply list_elem_of_lookup in Hg as [j Hj].
  assert (i = j) as ->; [|congruence].
  eapply (NoDup_lookup (id <$> l)); [done|..].
  - by rewrite list_lookup_fmap, Hi.
  - by rewrite list_lookup_fmap, Hj, Hid.
Qed.

Lemma tidy_whileBody s0 s' a :
  tidy (files s0) (workers s0) → whileBody s0 = (s', a) →
  tidy (files s') (workers s').
Proof.
  intros Htidy Hbody.
  assert (files s' = files s0 ∧ workers s' = workers s0 →
          tidy (files s') (workers s')) as Hsame by by intros [-> ->].
  destruct a as [|f0 waitMs|waitMs];
    [by apply Hsame; eapply whileBody_no_dispatch| |
     by apply Hsame; eapply whileBody_no_dispatch].
  apply whileBody_dispatch in Hbody as (_ & Hhd & _ & -> & _). simpl.
  destruct (head_pendingFiles _ _ Hhd) as (Hin0 & Hst0 & _).
  pose proof Htidy as (Hids & Hcons & Hws & Hproc).
  rewrite Forall_forall in Hcons.
  eapply tidy_pointwise; [exact Htidy|..].
  - intros f _. by case_decide.
  - intros f Hf. case_decide as Hid; [|by apply Hcons].
    rewrite (tidy_same_id _ _ _ _ Htidy Hf Hin0 Hid).
    by apply (consistent_preserved f0 (Hcons _ Hin0)).
  - rewrite fmap_app. apply NoDup_app. split_and!; [done| |apply NoDup_singleton].
    intros i Hi [->|Hnil]%elem_of_cons; [|by apply elem_of_nil in Hnil].
    apply list_elem_of_fmap in Hi as (wk & Hidwk & Hwk). simpl in Hidwk.
    specialize (Hproc wk f0 Hwk Hin0 Hidwk). congruence.
  - intros wk f [Hwk|Hwk]%elem_of_app Hf Hid.
    + specialize (Hproc wk f Hwk Hf Hid). by case_decide.
    + apply elem_of_cons in Hwk as [->|Hnil]; [|by apply elem_of_nil in Hnil].
      simpl in Hid. by rewrite decide_True.
Qed.

Lemma step_tidy s e s' :
  tidy (files s) (workers s) → gentle s e → step s e = Some s' →
  tidy (files s') (workers s').
Proof.
  intros Htidy Hgentle.
  pose proof Htidy as (Hids & Hcons & Hws & Hproc).
  rewrite Forall_forall in Hcons.
  destruct e; simpl; intros Hstep; try by simplify_eq.
  - case_decide as Hfresh; simplify_eq. simpl.
    unfold addFilesToQueue in *. rewrite drop_app_length in Hfresh.
    destruct Hfresh as [Hnodup Hfresh]. rewrite Forall_forall in Hfresh.
    apply tidy_app; [done| |done|done].
    apply Forall_fmap, Forall_forall. intros i _. apply blank_newImageFile.
  - case_decide as Hfresh; simplify_eq. simpl.
    unfold addDualFilesToQueue in *. rewrite drop_app_length in Hfresh.
    destruct Hfresh as [Hnodup Hfresh]. rewrite Forall_forall in Hfresh.
    apply tidy_app; [done|apply blank_pairUp|done|done].
  - simplify_eq. simpl. eapply tidy_sublist; [done|apply sublist_filter|done].
  - simplify_eq. simpl. eapply tidy_pointwise; [exact Htidy|..|done|].
    + intros f _. by case_decide.
    + intros f Hf. case_decide; [|by apply Hcons].
      by apply (consistent_preserved f (Hcons _ Hf)).
    + intros wk f Hwk Hf Hid. specialize (Hproc wk f Hwk Hf Hid). by case_decide.
  - simplify_eq. unfold startProcessing.
    destruct (length (files s) =? 0)%nat; [done|]. simpl.
    eapply tidy_pointwise; [exact Htidy|..|done|].
    + intros f _. apply id_markPending.
    + intros f Hf. by apply (consistent_preserved f (Hcons _ Hf)).
    + intros wk f Hwk Hf Hid. specialize (Hproc wk f Hwk Hf Hid).
      unfold markPending. rewrite decide_False; [done|]. rewrite Hproc.
      by intros [|].
  - simplify_eq. simpl. simpl in Hgentle. rewrite Forall_forall in Hgentle.
    eapply tidy_pointwise; [exact Htidy|..|done|].
    + intros f _. by case_decide.
    + intros f Hf. case_decide; [|by apply Hcons].
      by apply (consistent_preserved f (Hcons _ Hf)).
    + intros wk f Hwk Hf Hid. specialize (Hproc wk f Hwk Hf Hid).
      case_decide as Hkey; [|done]. by destruct (Hgentle f Hf Hkey).
  - destruct (list_find _ _) as [[i item]|]; [|done].
    case_decide as Hfresh; simplify_eq.
    unfold handleUseResultAsInput.
    destruct (resultBlob item) as [blob|]; [|done]. simpl.
    destruct Hfresh as [Hnodup Hfresh]. rewrite Forall_forall in Hfresh.
    apply tidy_app; [done| |done|done]. by repeat constructor.
  - simplify_eq. unfold clearAll. destruct (isProcessing s); [done|]. simpl.
    eapply tidy_sublist; [done|apply sublist_nil_l|done].
  - destruct (timers s) as [|[|] rest]; simplify_eq; [done|].
    unfold processQueue. simpl. rewrite files_afterPass, workers_afterPass.
    destruct (whileBody _) as [s1 a] eqn:Hbody. simpl.
    by eapply tidy_whileBody in Hbody.
  - destruct (loops s) as [|others]; simplify_eq.
    rewrite files_afterPass, workers_afterPass.
    destruct (whileBody s) as [s1 a] eqn:Hbody. simpl.
    by eapply tidy_whileBody in Hbody.
  - destruct (workers s !! n) as [wk|] eqn:Hn; [|done].
    assert (wk ∈ workers s) as Hwk by by eapply list_elem_of_lookup_2.
    pose proof (NoDup_delete_fresh _ _ _ _ Hws Hn) as Hother.
    assert (NoDup ((fun wk => id (workerItem wk)) <$> delete n (workers s)))
      as Hws'.
    { eapply sublist_NoDup; [exact Hws|]. apply fmap_sublist, sublist_delete. }
    assert (∀ wk' f, wk' ∈ delete n (workers s) → f ∈ files s →
              id f = id (workerItem wk') →
              status f = PROCESSING ∧ id f ≠ id (workerItem wk)) as Hrest.
    { intros wk' f Hwk' Hf Hid. split.
      - eapply Hproc; [|done..]. by eapply list_elem_of_delete_inv.
      - intros Heq. apply Hother. rewrite <- Heq, Hid.
        by apply (list_elem_of_fmap_2 (fun wk => id (workerItem wk))). }
    destruct (processFileBackground_cases (workerSettings wk) w (workerItem wk))
      as [(url & blob & _ & Hbg)|(m & _ & Hbg)];
      rewrite Hbg in Hstep; simplify_eq; simpl;
      (eapply tidy_pointwise; [exact Htidy|..|done|]).
    + intros f _. by case_decide.
    + intros f Hf. case_decide; [|by apply Hcons].
      by apply (consistent_preserved f (Hcons _ Hf)).
    + intros wk' f Hwk' Hf Hid.
      destruct (Hrest wk' f Hwk' Hf Hid) as [Hst Hne]. by rewrite decide_False.
    + intros f _. by case_decide.
    + intros f Hf. case_decide as Hid; [|by apply Hcons].
      specialize (Hproc wk f Hwk Hf Hid).
      pose proof (Hcons _ Hf) as Hc. unfold consistent in Hc.
      rewrite Hproc in Hc. destruct Hc as (Hu & Hb & _).
      by apply (consistent_preserved f (Hcons _ Hf)).
    + intros wk' f Hwk' Hf Hid.
      destruct (Hrest wk' f Hwk' Hf Hid) as [Hst Hne]. by rewrite decide_False.
Qed.

(** Along a run of the application in which Regenerate is never pressed on
    a task that is Processing, every record of the store keeps the result /
    error discipline. *)
Lemma gentle_run_consistent events :
  ∀ s s', tidy (files s) (workers s) → gentleRun s events →
    run s events = Some s' → Forall consistent (files s').
Proof.
  induction events as [|e events IH]; intros s s' Htidy Hgentle; simpl.
  - intros [= <-]. by destruct Htidy as (_ & Hcons & _).
  - destruct Hgentle as [He Hrest].
    destruct (step s e) as [s1|] eqn:Hstep; [|done].
    apply IH; [|done]. by eapply step_tidy.
Qed.

Lemma initialState_tidy key :
  tidy (files (initialState key)) (workers (initialState key)).
Proof.
  split_and!; try constructor. intros wk f Hwk. by apply elem_of_nil in Hwk.
Qed.

Lemma gentle_run_from_start key events s :
  gentleRun (initialState key) events →
  run (initialState key) events = Some s →
  Forall consistent (files s).
Proof.
  intros Hgentle Hrun.
  eapply gentle_run_consistent; [apply initialState_tidy|exact Hgentle|exact Hrun].
Qed.

(** * Further properties of the code *)

(** ** Adding files *)

Lemma pairUp_two_steps (P : list Incoming -> Prop) :
  P [] → (∀ a, P [a]) → (∀ a b l, P l → P (a :: b :: l)) → ∀ l, P l.
Proof.
  intros Hnil Hone Hstep l.
  assert (P l ∧ ∀ a, P (a :: l)) as [H _]; [|done].
  induction l as [|b l [IH1 IH2]]; [by split|].
  split; [apply IH2|]. intros a. by apply Hstep.
Qed.


Lemma pairUp_inputs timestamp l :
  concat (taskInputs <$> pairUp timestamp l) = inFile <$> l.
Proof.
  induction l as [|a|a b l IH] using pairUp_two_steps; [done..|].
  change (pairUp timestamp (a :: b :: l))
    with (newDualImageFile timestamp a b :: pairUp timestamp l).
  rewrite !fmap_cons, concat_cons, IH. done.
Qed.

Lemma pairUp_length timestamp l :
  length (pairUp timestamp l) = Nat.div2 (S (length l)).
Proof.
  induction l as [|a|a b l IH] using pairUp_two_steps; [done..|].
  change (pairUp timestamp (a :: b :: l))
    with (newDualImageFile timestamp a b :: pairUp timestamp l).
  rewrite !length_cons, IH. done.
Qed.

Lemma pairUp_paired timestamp l i f :
  pairUp timestamp l !! i = Some f →
  blank f ∧ lastActivityTimestamp f = timestamp
  ∧ (secondaryFile f = None →
     S i = length (pairUp timestamp l) ∧ Nat.Odd (length l)).
Proof.
  revert i. induction l as [|a|a b l IH] using pairUp_two_steps; intros i.
  - done.
  - destruct i as [|i]; simpl; [|done]. intros [= <-].
    split; [apply blank_newImageFile|]. split; [done|].
    intros _. split; [done|]. exists 0%nat. done.
  - change (pairUp timestamp (a :: b :: l))
      with (newDualImageFile timestamp a b :: pairUp timestamp l).
    destruct i as [|i]; simpl.
    + intros [= <-]. split; [by repeat split|]. split; done.
    + intros Hi. destruct (IH i Hi) as (Hb & Hts & Hlast).
      split; [done|]. split; [done|]. intros Hnone.
      destruct (Hlast Hnone) as [Hlen [k Hk]]. split; [by rewrite Hlen|].
      exists (S k). lia.
Qed.

(** X2. [addDualFilesToQueue] keeps the records of the store in place and
    appends Idle tasks stamped with the given time whose input files, read
    task after task, are exactly the picked image files in their order: no
    file is lost or used twice. There are as many new tasks as half the
    number of image files, rounded up, and only the last one can be without
    a second image, when the number of image files is odd. *)
Theorem X2_addDualFilesToQueue_pairs timestamp incomingFiles prev :
  let store := addDualFilesToQueue timestamp incomingFiles prev in
  let new := drop (length prev) store in
  store = prev ++ new
  ∧ concat (taskInputs <$> new) = inFile <$> imagesOf incomingFiles
  ∧ length new = Nat.div2 (S (length (imagesOf incomingFiles)))
  ∧ (∀ i f, new !! i = Some f →
       blank f ∧ lastActivityTimestamp f = timestamp
       ∧ (secondaryFile f = None →
          S i = length new ∧ Nat.Odd (length (imagesOf incomingFiles)))).
Proof.
  intros store new. subst new store. unfold addDualFilesToQueue.
  rewrite drop_app_length. fold (imagesOf incomingFiles). split_and!.
  - done.
  - apply pairUp_inputs.
  - apply pairUp_length.
  - apply pairUp_paired.
Qed.

Lemma X2_addDualFilesToQueue_pairs_witness :
  let picked := [sampleIncoming "a"; sampleIncoming "b"; sampleIncoming "c"] in
  let new := drop 0 (addDualFilesToQueue 7 picked []) in
  length new = 2%nat
  ∧ ∀ f, new !! 1%nat = Some f → secondaryFile f = None → Nat.Odd 3.
Proof.
  intros picked new.
  destruct (X2_addDualFilesToQueue_pairs 7 picked []) as (_ & _ & Hlen & Hlast).
  split; [exact Hlen|].
  intros f Hf Hnone. destruct (Hlast 1%nat f Hf) as (_ & _ & Hodd).
  destruct (Hodd Hnone) as [_ H]. exact H.
Defined.

(** X3. [handleDualDrop] adds a task only when exactly two of the dropped
    files are images, and then exactly one task, Idle, made of these two
    files in their order; in every other case the store is left as it was,
    with the alert shown whenever something was dropped. *)
Theorem X3_handleDualDrop_two_or_nothing timestamp dropped prev :
  let store := fst (handleDualDrop timestamp dropped prev) in
  let alerted := snd (handleDualDrop timestamp dropped prev) in
  (∀ a b, imagesOf dropped = [a; b] →
      store = prev ++ [newDualImageFile timestamp a b] ∧ alerted = false)
  ∧ (length (imagesOf dropped) ≠ 2%nat →
      store = prev ∧ alerted = bool_decide (dropped ≠ []))
  ∧ (length store ≤ S (length prev))%nat.
Proof.
  intros store alerted. subst alerted store. unfold handleDualDrop.
  fold (imagesOf dropped). split_and!.
  - intros a b Himg.
    destruct dropped as [|d dropped]; [done|]. simpl.
    rewrite Himg. simpl. split; [|done]. unfold addDualFilesToQueue.
    assert (isImage (inFile a) ∧ isImage (inFile b)) as [Ha Hb].
    { assert (a ∈ imagesOf (d :: dropped) ∧ b ∈ imagesOf (d :: dropped))
        as [Ha Hb].
      { rewrite Himg. split; [by left|right; by left]. }
      apply list_elem_of_filter in Ha as [Ha _].
      apply list_elem_of_filter in Hb as [Hb _]. done. }
    rewrite !filter_cons_True by done. done.
  - intros Hlen. destruct dropped as [|d dropped]; [done|]. simpl.
    apply Nat.eqb_neq in Hlen. by rewrite Hlen.
  - destruct dropped as [|d dropped]; simpl; [lia|].
    destruct (length (imagesOf (d :: dropped)) =? 2)%nat eqn:Hlen; simpl; [|lia].
    apply Nat.eqb_eq in Hlen. unfold addDualFilesToQueue.
    rewrite length_app, pairUp_length.
    assert (length (filter (fun i => isImage (inFile i)) (imagesOf (d :: dropped)))
            ≤ 2)%nat as Hle.
    { rewrite <- Hlen. apply length_filter. }
    destruct (length (filter _ (imagesOf (d :: dropped)))) as [|[|[|n]]];
      simpl; lia.
Qed.

Lemma X3_handleDualDrop_two_or_nothing_witness :
  let a := sampleIncoming "a" in
  let b := sampleIncoming "b" in
  let text := mkIncoming (mkFile "notes.txt" "text/plain" "") "n" "blob:n" in
  fst (handleDualDrop 7 [a; text; b] []) = [newDualImageFile 7 a b]
  ∧ fst (handleDualDrop 7 [a; text] []) = []
  ∧ snd (handleDualDrop 7 [a; text] []) = true.
Proof.
  intros a b text.
  destruct (X3_handleDualDrop_two_or_nothing 7 [a; text; b] [])
    as (Htwo & _ & _).
  destruct (Htwo a b eq_refl) as [H2 _].
  destruct (X3_handleDualDrop_two_or_nothing 7 [a; text] [])
    as (_ & Hother & _).
  destruct Hother as [H1 Halert]; [vm_compute; discriminate|].
  split; [exact H2|]. split; [exact H1|exact Halert].
Defined.

(** ** Start *)

Lemma markPending_spec f :
  with_error (error f) (with_status (status f) (markPending f)) = f
  ∧ status (markPending f) ≠ IDLE ∧ status (markPending f) ≠ FAILED
  ∧ (status f = IDLE ∨ status f = FAILED →
     status (markPending f) = PENDING ∧ error (markPending f) = None)
  ∧ (status f ≠ IDLE → status f ≠ FAILED → markPending f = f)
  ∧ markPending (markPending f) = markPending f.
Proof.
  unfold markPending. destruct f as [? ? ? st ? ? ? ? ? ? ? ? ?]. simpl.
  destruct st; simpl; repeat case_decide; split_and!;
    try done; try tauto; try (by intros [|]).
Qed.

Lemma startProcessing_files s :
  files (startProcessing s) = markPending <$> files s.
Proof.
  unfold startProcessing. destruct (files s) eqn:H; simpl; by rewrite H.
Qed.

(** X4. [startProcessing] on an empty store does nothing, not even queue a
    [processQueue]; otherwise it queues one, behind the calls that wait
    already and with the [isProcessing] of the moment, and rewrites the
    store in place: an Idle or Failed record becomes Pending with its error cleared, every
    other record is kept, and no record changes any field but status and
    error: in particular lastActivityTimestamp is not touched. Afterwards
    no record is Idle or Failed, and starting again changes no record. *)
Theorem X4_startProcessing_marks_waiting s :
  let s' := startProcessing s in
  (files s = [] → s' = s)
  ∧ (files s ≠ [] → timers s' = timers s ++ [isProcessing s])
  ∧ length (files s') = length (files s)
  ∧ (∀ i f, files s !! i = Some f →
       ∃ f', files s' !! i = Some f'
         ∧ with_error (error f) (with_status (status f) f') = f
         ∧ status f' ≠ IDLE ∧ status f' ≠ FAILED
         ∧ (status f = IDLE ∨ status f = FAILED →
            status f' = PENDING ∧ error f' = None)
         ∧ (status f ≠ IDLE → status f ≠ FAILED → f' = f))
  ∧ files (startProcessing s') = files s'
  ∧ isProcessing s' = isProcessing s
  ∧ abortControllerRef s' = abortControllerRef s
  ∧ workers s' = workers s.
Proof.
  intros s'. subst s'.
  pose proof (startProcessing_files s) as Hfiles.
  split_and!.
  - intros Hnil. unfold startProcessing. by rewrite Hnil.
  - intros Hne. unfold startProcessing. by destruct (files s).
  - by rewrite Hfiles, length_fmap.
  - intros i f Hi. exists (markPending f).
    rewrite Hfiles, list_lookup_fmap, Hi. split; [done|].
    destruct (markPending_spec f) as (H1 & H2 & H3 & H4 & H5 & _).
    by split_and!.
  - rewrite startProcessing_files, Hfiles, <- list_fmap_compose.
    apply list_fmap_ext. intros i f _. simpl.
    by destruct (markPending_spec f) as (_ & _ & _ & _ & _ & ->).
  - unfold startProcessing. by destruct (files s).
  - unfold startProcessing. by destruct (files s).
  - unfold startProcessing. by destruct (files s).
Qed.

Lemma X4_startProcessing_marks_waiting_witness :
  let failed := failedFile "503" (sampleFile "a" PROCESSING 3) in
  let done_ := completedFile (sampleFile "b" PENDING 4) "data:x"
                 (mkBlob "image/png" "X") in
  let s := mkState [failed; done_] false false (initialSettings "k") [] [] 0 in
  (∃ f', files (startProcessing s) !! 0%nat = Some f'
         ∧ status f' = PENDING ∧ error f' = None
         ∧ lastActivityTimestamp f' = 3)
  ∧ files (startProcessing s) !! 1%nat = Some done_
  ∧ startProcessing (mkState [] false false (initialSettings "k") [] [] 0)
    = mkState [] false false (initialSettings "k") [] [] 0.
Proof.
  intros failed done_ s.
  destruct (X4_startProcessing_marks_waiting s) as (_ & _ & _ & Hrec & _).
  destruct (Hrec 0%nat failed eq_refl) as (f' & Hf' & Hkeep & _ & _ & Hpend & _).
  destruct (Hpend (or_intror eq_refl)) as [Hst He].
  destruct (Hrec 1%nat done_ eq_refl) as (g' & Hg' & _ & _ & _ & _ & Hsame).
  split.
  - exists f'. split; [exact Hf'|]. split; [exact Hst|]. split; [exact He|].
    change (lastActivityTimestamp
              (with_error (error failed) (with_status (status failed) f')) = 3).
    rewrite Hkeep. reflexivity.
  - split.
    + rewrite Hg'. f_equal. apply Hsame; discriminate.
    + destruct (X4_startProcessing_marks_waiting
                  (mkState [] false false (initialSettings "k") [] [] 0))
        as (Hempty & _).
      apply Hempty. reflexivity.
Defined.

(** ** Prompts *)

Lemma truthy_spec o :
  truthy o = true ↔ ∃ s, o = Some s ∧ s ≠ "".
Proof.
  destruct o as [s|]; simpl.
  - rewrite negb_true_iff, String.eqb_neq. split; [by exists s|].
    by intros (? & [= <-] & ?).
  - split; [done|]. by intros (? & ? & ?).
Qed.

(** X5. The text the prompt editor opens with for a task is the prompt the
    worker would send for it under the current template; so saving the
    editor's text as it opened leaves the effective prompt under that
    template as it was. *)
Theorem X5_promptModal_opens_with_effective_prompt globalTemplate editingFile :
  promptModalPrefill globalTemplate editingFile
  = finalPrompt globalTemplate editingFile
  ∧ finalPrompt globalTemplate
      (with_customPrompt (Some (promptModalPrefill globalTemplate editingFile))
         editingFile)
    = finalPrompt globalTemplate editingFile.
Proof.
  assert (promptModalPrefill globalTemplate editingFile
          = finalPrompt globalTemplate editingFile) as Hprefill.
  { unfold promptModalPrefill, finalPrompt.
    destruct (truthy (customPrompt editingFile)) eqn:Ht; [|done].
    apply truthy_spec in Ht as (p & -> & Hne). simpl.
    by destruct (String.eqb_spec p ""). }
  split; [done|]. rewrite Hprefill.
  unfold finalPrompt at 1. simpl.
  destruct (String.eqb_spec (finalPrompt globalTemplate editingFile) "")
    as [Hempty|Hne]; simpl; [|done].
  unfold finalPrompt in *.
  destruct (truthy (customPrompt editingFile)) eqn:Ht; [|done].
  apply truthy_spec in Ht as (p & Hp & Hne). rewrite Hp in Hempty. done.
Qed.

(** X6. After [handleSavePrompt] with a text that is not empty, the prompt
    of the edited task is that text under every template; after a save of
    the empty text the task follows the template again, as a task without
    an override does; the records of the other tasks are not changed. *)
Theorem X6_handleSavePrompt_overrides_template editingId newPrompt prev :
  let store := handleSavePrompt editingId newPrompt prev in
  length store = length prev
  ∧ (∀ i f, prev !! i = Some f → id f = editingId →
       ∃ f', store !! i = Some f'
         ∧ with_customPrompt (customPrompt f) f' = f
         ∧ (newPrompt ≠ "" → ∀ template, finalPrompt template f' = newPrompt)
         ∧ (newPrompt = "" → ∀ template,
              finalPrompt template f'
              = replace "{filename}" (removeExtension (file_name (file f)))
                  template))
  ∧ (∀ i f, prev !! i = Some f → id f ≠ editingId → store !! i = Some f).
Proof.
  intros store. subst store. unfold handleSavePrompt. split_and!.
  - apply length_mapById.
  - intros i f Hi Hid. eexists. rewrite mapById_lookup, Hi. simpl.
    rewrite decide_True by done. split; [done|]. split_and!.
    + by destruct f.
    + intros Hne template. by apply finalPrompt_override.
    + intros -> template. done.
  - intros i f Hi Hid. rewrite mapById_lookup, Hi. simpl.
    by rewrite decide_False.
Qed.

Lemma X6_handleSavePrompt_overrides_template_witness :
  let task := sampleFile "t" IDLE 1 in
  ∃ f', handleSavePrompt "t" "remove shadow." [task] !! 0%nat = Some f'
        ∧ finalPrompt "{filename}" f' = "remove shadow."
        ∧ finalPrompt "{filename}" task = "cat".
Proof.
  intros task.
  destruct (X6_handleSavePrompt_overrides_template "t" "remove shadow." [task])
    as (_ & Hhit & _).
  destruct (Hhit 0%nat task eq_refl eq_refl) as (f' & Hf' & _ & Hset & _).
  exists f'. split; [exact Hf'|]. split; [|reflexivity].
  apply Hset. discriminate.
Defined.

(** ** The worker's retry loop *)

Lemma attemptLoop_bounds w fileItem fs prompt temp key maxAttempts remaining
    attempts0 lastError backoffs0 :
  let r := attemptLoop w fileItem fs prompt temp key maxAttempts remaining
             attempts0 lastError backoffs0 in
  (attempts0 + remaining = maxAttempts)%nat →
  (backoffs0 ≤ attempts0)%nat →
  (backoffs0 < maxAttempts ∨ maxAttempts = 0%nat)%nat →
  (attempts0 ≤ attempts r ≤ maxAttempts)%nat
  ∧ (backoffs r ≤ attempts r)%nat
  ∧ (backoffs r < maxAttempts ∨ maxAttempts = 0%nat)%nat
  ∧ (∀ u, settled r = Fulfilled u →
       (attempts0 < attempts r)%nat ∧ (backoffs r < attempts r)%nat).
Proof.
  revert attempts0 lastError backoffs0.
  induction remaining as [|remaining IH]; intros attempts0 lastError backoffs0;
    simpl; intros Hsum Hb Hbmax.
  - split_and!; try done; lia.
  - destruct (abortAtLoopTop w attempts0); simpl; [split_and!; try done; lia|].
    set (backoffs1 := if (S attempts0 <? maxAttempts)%nat
                         && negb (abortInCatch w (S attempts0))
                      then S backoffs0 else backoffs0).
    assert ((backoffs1 ≤ S attempts0)%nat
            ∧ (backoffs1 < maxAttempts ∨ maxAttempts = 0%nat)%nat) as [Hb1 Hb1max].
    { unfold backoffs1.
      destruct (Nat.ltb_spec (S attempts0) maxAttempts); simpl;
        [destruct (abortInCatch w (S attempts0)); simpl|]; lia. }
    assert (∀ e,
      let r := attemptLoop w fileItem fs prompt temp key maxAttempts remaining
                 (S attempts0) (Some e) backoffs1 in
      (attempts0 ≤ attempts r ≤ maxAttempts)%nat
      ∧ (backoffs r ≤ attempts r)%nat
      ∧ (backoffs r < maxAttempts ∨ maxAttempts = 0%nat)%nat
      ∧ (∀ u, settled r = Fulfilled u →
           (attempts0 < attempts r)%nat ∧ (backoffs r < attempts r)%nat))
      as Hcaught.
    { intros e.
      destruct (IH (S attempts0) (Some e) backoffs1) as (H1 & H2 & H3 & H4);
        [lia|done|done|].
      split_and!; [lia|lia|done|done|]. intros u Hu.
      destruct (H4 u Hu). lia. }
    destruct (translateImageWithGemini w (S attempts0) fs prompt temp key);
      [|apply Hcaught].
    destruct (fetchBlob w (S attempts0) value); [|apply Hcaught].
    simpl. split_and!; first [lia | intros u _; lia].
Qed.

(** X7. The worker never calls the Transform Service more often than its
    budget allows, 3 times with auto-retry and once without; it pauses
    before a retry only, so fewer times than the budget and at most once per
    call made; a run that succeeds made at least one call and paused fewer
    times than it called; without a credential nothing is called. *)
Theorem X7_attempts_within_budget cfg w fileItem :
  let r := processSingleFile cfg w fileItem in
  let maxAttempts := if autoRetry cfg then 3%nat else 1%nat in
  (attempts r ≤ maxAttempts)%nat
  ∧ (backoffs r ≤ attempts r)%nat
  ∧ (backoffs r < maxAttempts)%nat
  ∧ (∀ u, settled r = Fulfilled u →
       (1 ≤ attempts r)%nat ∧ (backoffs r < attempts r)%nat)
  ∧ (truthy (apiKey cfg) = false → attempts r = 0%nat ∧ backoffs r = 0%nat).
Proof.
  intros r maxAttempts. subst r maxAttempts. unfold processSingleFile.
  destruct (truthy (apiKey cfg)); simpl;
    [|destruct (autoRetry cfg); split_and!; try done; lia].
  destruct (autoRetry cfg);
    match goal with
    | |- context [attemptLoop ?w ?f ?fs ?p ?t ?k ?m ?rem ?a ?l ?b] =>
        destruct (attemptLoop_bounds w f fs p t k m rem a l b)
          as (H1 & H2 & H3 & H4); [done|done|left; lia|]
    end;
    (split_and!;
       [lia|done|destruct H3; [done|lia]
       |intros u Hu; destruct (H4 u Hu); lia|done]).
Qed.

Lemma X7_attempts_within_budget_witness :
  let noKey := changeSettings (SetApiKey None) (initialSettings "k") in
  attempts (processSingleFile noKey flakyWorld (sampleFile "t" PENDING 1)) = 0%nat
  ∧ (attempts (processSingleFile (initialSettings "k") flakyWorld
                 (sampleFile "t" PENDING 1)) ≤ 1)%nat.
Proof.
  intros noKey. split.
  - destruct (X7_attempts_within_budget noKey flakyWorld (sampleFile "t" PENDING 1))
      as (_ & _ & _ & _ & Hkey).
    destruct (Hkey eq_refl) as [H _]. exact H.
  - destruct (X7_attempts_within_budget (initialSettings "k") flakyWorld
                (sampleFile "t" PENDING 1)) as (H & _).
    exact H.
Defined.

Lemma attemptLoop_stops w fileItem fs prompt temp key maxAttempts remaining
    attempts0 lastError backoffs0 k :
  abortAtLoopTop w k = true → (attempts0 ≤ k)%nat →
  (attempts (attemptLoop w fileItem fs prompt temp key maxAttempts remaining
               attempts0 lastError backoffs0) ≤ k)%nat.
Proof.
  intros Hstop. revert attempts0 lastError backoffs0.
  induction remaining as [|remaining IH]; intros attempts0 lastError backoffs0 Hle;
    simpl; [done|].
  destruct (abortAtLoopTop w attempts0) eqn:Htop; simpl; [done|].
  assert (attempts0 ≠ k) by congruence.
  assert (S attempts0 ≤ k)%nat by lia.
  destruct (translateImageWithGemini w (S attempts0) fs prompt temp key);
    [|by apply IH].
  destruct (fetchBlob w (S attempts0) value); [done|by apply IH].
Qed.

Lemma attemptLoop_no_backoff w fileItem fs prompt temp key maxAttempts remaining
    attempts0 lastError backoffs0 :
  (∀ n, abortInCatch w n = true) →
  backoffs (attemptLoop w fileItem fs prompt temp key maxAttempts remaining
              attempts0 lastError backoffs0) = backoffs0.
Proof.
  intros Hstop. revert attempts0 lastError backoffs0.
  induction remaining as [|remaining IH]; intros attempts0 lastError backoffs0;
    simpl; [done|].
  destruct (abortAtLoopTop w attempts0); simpl; [done|].
  rewrite Hstop, andb_false_r.
  destruct (translateImageWithGemini w (S attempts0) fs prompt temp key);
    [|by apply IH].
  destruct (fetchBlob w (S attempts0) value); [done|by apply IH].
Qed.

(** X8. The stop flag ends the retries of a worker: if the flag reads true
    at the top of the loop once k calls were made, the worker makes no more
    than k calls, whatever its budget; a worker that finds the flag set
    before its first call calls nothing and fails with "Processing failed";
    and a worker that reads the flag as set in every [catch] never pauses. *)
Theorem X8_stop_ends_retries cfg w fileItem :
  (∀ k, abortAtLoopTop w k = true →
        (attempts (processSingleFile cfg w fileItem) ≤ k)%nat)
  ∧ (abortAtLoopTop w 0 = true → truthy (apiKey cfg) = true →
       processSingleFile cfg w fileItem
       = mkWorkerRun (Rejected (newError "Processing failed")) 0 0)
  ∧ ((∀ n, abortInCatch w n = true) →
       backoffs (processSingleFile cfg w fileItem) = 0%nat).
Proof.
  split_and!.
  - intros k Hk. unfold processSingleFile.
    destruct (truthy (apiKey cfg)); simpl; [|lia].
    apply attemptLoop_stops; [done|lia].
  - intros Hstop Hkey. unfold processSingleFile. rewrite Hkey. simpl.
    destruct (autoRetry cfg); simpl; by rewrite Hstop.
  - intros Hstop. unfold processSingleFile.
    destruct (truthy (apiKey cfg)); simpl; [|done].
    by apply attemptLoop_no_backoff.
Qed.

Lemma X8_stop_ends_retries_witness :
  let retry := changeSettings (SetAutoRetry true) (initialSettings "k") in
  (attempts (processSingleFile retry (stoppedWorld false)
               (sampleFile "t" PENDING 1)) ≤ 1)%nat
  ∧ backoffs (processSingleFile retry (stoppedWorld false)
                (sampleFile "t" PENDING 1)) = 0%nat.
Proof.
  intros retry.
  destruct (X8_stop_ends_retries retry (stoppedWorld false)
              (sampleFile "t" PENDING 1)) as (Hk & _ & Hb).
  split; [apply (Hk 1%nat); reflexivity|apply Hb; reflexivity].
Defined.

(** X9. The worker depends on the outside only through calls of the
    Transform Service with the files of its task (the second image
    included), the task's effective prompt, the temperature and the key it
    read when it started: two worlds that answer these calls alike, and
    convert results and show the stop flag alike, give the same run. *)
Theorem X9_worker_calls_with_task_inputs cfg w w' fileItem :
  (∀ n, translateImageWithGemini w n (taskInputs fileItem)
          (finalPrompt (customPromptTemplate cfg) fileItem)
          (temperature cfg) (default "" (apiKey cfg))
        = translateImageWithGemini w' n (taskInputs fileItem)
            (finalPrompt (customPromptTemplate cfg) fileItem)
            (temperature cfg) (default "" (apiKey cfg))) →
  (∀ n url, fetchBlob w n url = fetchBlob w' n url) →
  (∀ n, abortAtLoopTop w n = abortAtLoopTop w' n) →
  (∀ n, abortInCatch w n = abortInCatch w' n) →
  processSingleFile cfg w fileItem = processSingleFile cfg w' fileItem
  ∧ processFileBackground cfg w fileItem = processFileBackground cfg w' fileItem.
Proof.
  intros Hcall Hfetch Htop Hcatch.
  assert (processSingleFile cfg w fileItem = processSingleFile cfg w' fileItem)
    as Hrun.
  { unfold processSingleFile. destruct (truthy (apiKey cfg)); simpl; [|done].
    fold (taskInputs fileItem).
    generalize (if autoRetry cfg then 3%nat else 1%nat) at 1 3. intros maxAttempts.
    generalize (if autoRetry cfg then 3%nat else 1%nat). intros remaining.
    generalize 0%nat at 1 3. generalize (@None JsThrown).
    generalize 0%nat. intros backoffs0 lastError attempts0.
    revert attempts0 lastError backoffs0.
    induction remaining as [|remaining IH]; intros attempts0 lastError backoffs0;
      simpl; [done|].
    rewrite <- Htop. destruct (abortAtLoopTop w attempts0); [done|].
    rewrite <- Hcall, <- Hcatch.
    destruct (translateImageWithGemini w (S attempts0) _ _ _ _); [|apply IH].
    rewrite <- Hfetch. destruct (fetchBlob w (S attempts0) value); [done|apply IH]. }
  split; [done|]. unfold processFileBackground. by rewrite Hrun.
Qed.

Lemma X9_worker_calls_with_task_inputs_witness :
  let onlyCat : World :=
    mkWorld
      (fun n fs _ _ _ =>
         if bool_decide (fs = [mkFile "cat.png" "image/png" "CAT"])
         then Fulfilled "data:image/png;base64,AAAA"
         else Rejected (newError "not called"))
      (fun _ _ => Fulfilled (mkBlob "image/png" "AAAA"))
      (fun _ => false) (fun _ => false) in
  settled (processSingleFile (initialSettings "k") onlyCat (sampleFile "t" PENDING 1))
  = settled (processSingleFile (initialSettings "k") workingWorld
               (sampleFile "t" PENDING 1)).
Proof.
  intros onlyCat.
  destruct (X9_worker_calls_with_task_inputs (initialSettings "k") onlyCat
              workingWorld (sampleFile "t" PENDING 1)) as [H _];
    [reflexivity..|].
  by rewrite H.
Defined.

(** X10. The two write-backs differ in what they keep. The write-back of a
    success puts in the place of the task's record the record the worker was
    given at dispatch, completed: whatever was written to the task while it
    was Processing (a saved prompt, a regenerate) is overwritten by the
    values of dispatch time. The write-back of a failure keeps the current
    record and changes only its status and error. *)
Theorem X10_write_back_keeps_or_restores cfg w fileItem prev i current :
  prev !! i = Some current → id current = id fileItem →
  ∃ g, processFileBackground cfg w fileItem = Fulfilled g
    ∧ length (g prev) = length prev
    ∧ match settled (processSingleFile cfg w fileItem) with
      | Fulfilled updatedFile =>
          g prev !! i = Some updatedFile
          ∧ status updatedFile = COMPLETED
          ∧ with_error (error fileItem)
              (with_resultBlob (resultBlob fileItem)
                 (with_resultUrl (resultUrl fileItem)
                    (with_status (status fileItem) updatedFile))) = fileItem
      | Rejected _ =>
          ∃ f', g prev !! i = Some f'
            ∧ status f' = FAILED ∧ is_Some (error f')
            ∧ with_error (error current) (with_status (status current) f')
              = current
      end.
Proof.
  intros Hi Hid.
  destruct (processFileBackground_cases cfg w fileItem)
    as [(url & blob & Hrun & Hbg)|(m & Hrun & Hbg)];
    rewrite Hbg, Hrun; eexists; (split; [done|]);
    (split; [apply length_mapById|]).
  - rewrite mapById_lookup, Hi. simpl. rewrite decide_True by done.
    split_and!; try done. by destruct fileItem.
  - eexists. rewrite mapById_lookup, Hi. simpl. rewrite decide_True by done.
    split; [done|]. split_and!; try done. by destruct current.
Qed.

Lemma X10_write_back_keeps_or_restores_witness :
  let given := sampleFile "t" PENDING 1 in
  let current := with_customPrompt (Some "remove shadow.") (markProcessing given) in
  (∃ g, processFileBackground (initialSettings "k") workingWorld given = Fulfilled g
        ∧ customPrompt <$> g [current] = [None])
  ∧ (∃ g, processFileBackground (initialSettings "k") failingWorld given = Fulfilled g
          ∧ customPrompt <$> g [current] = [Some "remove shadow."]).
Proof.
  intros given current. split.
  - destruct (X10_write_back_keeps_or_restores (initialSettings "k") workingWorld
                given [current] 0%nat current eq_refl eq_refl)
      as (g & Hg & _ & _).
    exists g. split; [exact Hg|].
    vm_compute in Hg. injection Hg as <-. reflexivity.
  - destruct (X10_write_back_keeps_or_restores (initialSettings "k") failingWorld
                given [current] 0%nat current eq_refl eq_refl)
      as (g & Hg & _ & _).
    exists g. split; [exact Hg|].
    vm_compute in Hg. injection Hg as <-. reflexivity.
Defined.

(** ** The loop: leaving, waiting, dispatching *)

Lemma pendingFiles_nil currentFiles :
  pendingFiles currentFiles = [] ↔
  Forall (fun f => status f ≠ PENDING) currentFiles.
Proof.
  unfold pendingFiles. split.
  - intros Hnil. apply Forall_forall. intros f Hin Hst.
    assert (f ∈ filter (fun f => status f = PENDING) currentFiles) as Hf
      by by apply list_elem_of_filter.
    rewrite <- (sort_Permutation byRecentActivity), Hnil in Hf.
    by apply elem_of_nil in Hf.
  - intros Hall.
    assert (filter (fun f => status f = PENDING) currentFiles = []) as ->; [|done].
    induction Hall as [|f l Hf _ IH]; [done|].
    by rewrite filter_cons_False.
Qed.

Lemma processingFiles_nil_iff currentFiles :
  processingFiles currentFiles = [] ↔
  Forall (fun f => status f ≠ PROCESSING) currentFiles.
Proof.
  split; [|apply processingFiles_nil].
  unfold processingFiles. intros Hnil. apply Forall_forall. intros f Hin Hst.
  assert (f ∈ filter (fun f => status f = PROCESSING) currentFiles) as Hf
    by by apply list_elem_of_filter.
  rewrite Hnil in Hf. by apply elem_of_nil in Hf.
Qed.

(** X11. A pass through the loop body leaves the loop exactly when the stop
    flag is set or no record is Pending or Processing; it then clears
    [isProcessing] and changes nothing else. A pass that neither leaves nor
    dispatches changes nothing and waits 500 ms: it happens exactly when
    the flag is clear and either nothing is Pending while something is
    Processing, or the ceiling is reached. *)
Theorem X11_loop_leaves_only_when_idle_or_stopped s :
  (snd (whileBody s) = LoopExit ↔
     abortControllerRef s = true
     ∨ Forall (fun f => status f ≠ PENDING ∧ status f ≠ PROCESSING) (files s))
  ∧ (snd (whileBody s) = LoopExit → fst (whileBody s) = setIsProcessing false s)
  ∧ (∀ waitMs, snd (whileBody s) = LoopPoll waitMs ↔
       waitMs = 500 ∧ abortControllerRef s = false
       ∧ ((pendingFiles (files s) = [] ∧ processingFiles (files s) ≠ [])
          ∨ (pendingFiles (files s) ≠ []
             ∧ MAX_CONCURRENCY (settings s)
               ≤ Z.of_nat (length (processingFiles (files s))))))
  ∧ (∀ waitMs, snd (whileBody s) = LoopPoll waitMs → fst (whileBody s) = s).
Proof.
  assert (Forall (fun f => status f ≠ PENDING ∧ status f ≠ PROCESSING) (files s)
          ↔ pendingFiles (files s) = [] ∧ processingFiles (files s) = [])
    as Hidle.
  { rewrite pendingFiles_nil, processingFiles_nil_iff, <- Forall_and. done. }
  rewrite Hidle. unfold whileBody.
  destruct (abortControllerRef s); simpl; [naive_solver|].
  destruct (pendingFiles (files s)) as [|f pending] eqn:Hp;
    destruct (processingFiles (files s)) as [|g processing] eqn:Hq; simpl;
    try match goal with
        | |- context [?a <? ?b] => destruct (Z.ltb_spec a b)
        end;
    simpl in *; split_and!; try done; try naive_solver lia.
Qed.

Lemma X11_loop_leaves_only_when_idle_or_stopped_witness :
  let s := mkState [sampleFile "a" PROCESSING 1] true false
             (changeSettings (SetEnableConcurrency false) (initialSettings "k"))
             [] [] 1 in
  whileBody s = (s, LoopPoll 500)
  ∧ fst (whileBody (stopProcessing s)) = setIsProcessing false (stopProcessing s).
Proof.
  intros s.
  destruct (X11_loop_leaves_only_when_idle_or_stopped s) as (_ & _ & _ & Hpoll).
  destruct (X11_loop_leaves_only_when_idle_or_stopped (stopProcessing s))
    as (_ & Hexit & _).
  split.
  - rewrite (surjective_pairing (whileBody s)).
    rewrite (Hpoll 500 eq_refl). reflexivity.
  - apply Hexit. reflexivity.
Defined.

(** In a store with unique ids, a write by id rewrites one record. *)
Lemma mapById_middle key g l1 f l2 :
  id f = key → key ∉ id <$> l1 → key ∉ id <$> l2 →
  mapById key g (l1 ++ f :: l2) = l1 ++ g f :: l2.
Proof.
  intros Hid Hnot1 Hnot2.
  unfold mapById. rewrite fmap_app, fmap_cons, decide_True by done.
  fold (mapById key g l1). fold (mapById key g l2).
  by rewrite !mapById_absent.
Qed.

Lemma mapById_NoDup_split g l f :
  NoDup (id <$> l) → f ∈ l →
  ∃ l1 l2, l = l1 ++ f :: l2
    ∧ mapById (id f) g l = l1 ++ g f :: l2
    ∧ (id f ∉ id <$> l1) ∧ (id f ∉ id <$> l2).
Proof.
  intros Hnodup Hin.
  apply list_elem_of_split in Hin as (l1 & l2 & ->).
  rewrite fmap_app, fmap_cons in Hnodup.
  apply NoDup_app in Hnodup as (_ & Hdisj & Hrest).
  apply NoDup_cons in Hrest as [Hnot2 _].
  assert (id f ∉ id <$> l1) as Hnot1.
  { intros Hin. apply (Hdisj _ Hin). by left. }
  exists l1, l2. split_and!; try done.
  by apply mapById_middle.
Qed.

Lemma length_sort {A} (compareFn : A -> A -> Z) l :
  length (sort compareFn l) = length l.
Proof. apply Permutation_length, sort_Permutation. Qed.

(** X12. In a store with unique ids a dispatch rewrites the record of the
    dispatched task and no other; the task is then no longer among the
    Pending ones, so the next pass cannot pick it again; one record fewer is
    Pending and one more is Processing. *)
Theorem X12_dispatch_takes_task_off_pending s s' fileToProcess waitMs :
  NoDup (id <$> files s) →
  whileBody s = (s', LoopDispatch fileToProcess waitMs) →
  (∃ l1 l2, files s = l1 ++ fileToProcess :: l2
      ∧ files s' = l1 ++ markProcessing fileToProcess :: l2)
  ∧ (id fileToProcess ∉ id <$> pendingFiles (files s'))
  ∧ S (length (pendingFiles (files s'))) = length (pendingFiles (files s))
  ∧ length (processingFiles (files s')) = S (length (processingFiles (files s))).
Proof.
  intros Hnodup Hbody.
  apply whileBody_dispatch in Hbody as (_ & Hhd & _ & -> & _).
  destruct (head_pendingFiles _ _ Hhd) as (Hin & Hst & _).
  destruct (mapById_NoDup_split markProcessing _ _ Hnodup Hin)
    as (l1 & l2 & Hsplit & Hmap & Hnot1 & Hnot2).
  simpl. rewrite Hmap, Hsplit.
  assert (filter (fun f => status f = PENDING)
            (l1 ++ markProcessing fileToProcess :: l2)
          = filter (fun f => status f = PENDING) l1
            ++ filter (fun f => status f = PENDING) l2) as Hp'.
  { by rewrite filter_app, filter_cons_False. }
  split_and!.
  - by exists l1, l2.
  - unfold pendingFiles. rewrite Hp'.
    rewrite (sort_Permutation byRecentActivity), fmap_app.
    intros [H|H]%elem_of_app;
      apply list_elem_of_fmap in H as (g & Hid & Hg);
      apply list_elem_of_filter in Hg as [_ Hg];
      [apply Hnot1|apply Hnot2]; rewrite Hid; by apply list_elem_of_fmap_2.
  - unfold pendingFiles. rewrite !length_sort, Hp'.
    rewrite filter_app, filter_cons_True by done.
    rewrite !length_app. simpl. lia.
  - unfold processingFiles.
    rewrite !filter_app, filter_cons_True by done.
    rewrite (filter_cons_False _ fileToProcess) by by rewrite Hst.
    rewrite !length_app. simpl. lia.
Qed.

Lemma X12_dispatch_takes_task_off_pending_witness :
  let s := mkState [sampleFile "a" PENDING 1; sampleFile "b" PENDING 2]
             true false (initialSettings "k") [] [] 1 in
  length (pendingFiles (files (fst (whileBody s)))) = 1%nat.
Proof.
  intros s.
  assert (NoDup (id <$> files s)) as Hnodup.
  { apply NoDup_cons. split; [|apply NoDup_singleton].
    intros [Heq|Hnil]%elem_of_cons; [discriminate|]. by apply elem_of_nil in Hnil. }
  destruct (X12_dispatch_takes_task_off_pending s (fst (whileBody s))
              (sampleFile "b" PENDING 2) 100 Hnodup eq_refl)
    as (_ & _ & Hlen & _).
  apply eq_add_S. rewrite Hlen. reflexivity.
Defined.

(** ** The ceiling is never below one *)

Lemma parsedConcurrency_spec parsed :
  1 ≤ parsedConcurrency parsed
  ∧ (∀ n, parsed = Some n → 1 ≤ n → parsedConcurrency parsed = n)
  ∧ (∀ n, parsed = Some n → n ≤ 0 → parsedConcurrency parsed = 1)
  ∧ (parsed = None → parsedConcurrency parsed = 1).
Proof.
  unfold parsedConcurrency. split_and!.
  - lia.
  - intros n -> Hn. destruct (Z.eqb_spec n 0); lia.
  - intros n -> Hn. destruct (Z.eqb_spec n 0); lia.
  - by intros ->.
Qed.

Lemma reachable_ceiling s : reachable s → 1 ≤ maxConcurrency (settings s).
Proof.
  apply (reachable_invariant (fun s => 1 ≤ maxConcurrency (settings s))).
  - intros key. simpl. lia.
  - intros s0 e s1 Hinv Hstep. rewrite (step_settings _ _ _ Hstep).
    destruct e; simpl; try done.
    by destruct (parsedConcurrency_spec parsed) as [? _].
Qed.

(** X13. Whatever is typed in the concurrency field, the number stored is at
    least 1 (a number that is 1 or more is stored as it is; zero, a negative
    number or no number at all becomes 1). So in every reachable state the
    ceiling is at least 1, and a pass of the loop with the stop flag clear,
    a Pending record and no Processing record always dispatches. *)
Theorem X13_ceiling_allows_dispatch :
  (∀ parsed,
      1 ≤ parsedConcurrency parsed
      ∧ (∀ n, parsed = Some n → 1 ≤ n → parsedConcurrency parsed = n)
      ∧ (∀ n, parsed = Some n → n ≤ 0 → parsedConcurrency parsed = 1)
      ∧ (parsed = None → parsedConcurrency parsed = 1))
  ∧ (∀ s, reachable s → 1 ≤ MAX_CONCURRENCY (settings s))
  ∧ (∀ s g, reachable s → abortControllerRef s = false →
       g ∈ files s → status g = PENDING → processingFiles (files s) = [] →
       ∃ s' fileToProcess waitMs,
         whileBody s = (s', LoopDispatch fileToProcess waitMs)).
Proof.
  assert (∀ s, reachable s → 1 ≤ MAX_CONCURRENCY (settings s)) as Hmax.
  { intros s Hs. pose proof (reachable_ceiling s Hs).
    unfold MAX_CONCURRENCY. case_match; lia. }
  split_and!.
  - apply parsedConcurrency_spec.
  - done.
  - intros s g Hs Habort Hg Hst Hproc.
    destruct (pendingFiles_nonempty _ _ Hg Hst) as [f Hhd].
    eexists _, f, _. apply whileBody_dispatch. split_and!; try done.
    rewrite Hproc. specialize (Hmax s Hs). simpl. lia.
Qed.

Lemma X13_ceiling_allows_dispatch_witness :
  parsedConcurrency (Some (-3)) = 1
  ∧ parsedConcurrency (Some 4) = 4
  ∧ ∃ s' f waitMs,
      whileBody (default (initialState "k")
                   (run (initialState "k")
                      [SetMaxConcurrency (Some 0);
                       AddFiles 1 [sampleIncoming "x"]; StartProcessing]))
      = (s', LoopDispatch f waitMs).
Proof.
  destruct X13_ceiling_allows_dispatch as (Hparsed & _ & Hdispatch).
  destruct (Hparsed (Some (-3))) as (_ & _ & Hneg & _).
  destruct (Hparsed (Some 4)) as (_ & Hpos & _).
  split; [apply (Hneg (-3)); [reflexivity|lia]|].
  split; [apply (Hpos 4); [reflexivity|lia]|].
  apply (Hdispatch _ (markPending (newImageFile 1 (sampleIncoming "x")))).
  - exists "k", [SetMaxConcurrency (Some 0);
                 AddFiles 1 [sampleIncoming "x"]; StartProcessing].
    reflexivity.
  - reflexivity.
  - vm_compute. by left.
  - reflexivity.
  - reflexivity.
Defined.

(** ** A queue that drains *)

Lemma processSingleFile_first_call cfg w fileItem resultBase64 blob :
  truthy (apiKey cfg) = true →
  abortAtLoopTop w 0 = false →
  translateImageWithGemini w 1 (taskInputs fileItem)
    (finalPrompt (customPromptTemplate cfg) fileItem) (temperature cfg)
    (default "" (apiKey cfg)) = Fulfilled resultBase64 →
  fetchBlob w 1 resultBase64 = Fulfilled blob →
  processSingleFile cfg w fileItem
  = mkWorkerRun (Fulfilled (completedFile fileItem resultBase64 blob)) 1 0.
Proof.
  intros Hkey Htop Hcall Hblob. unfold processSingleFile, taskInputs in *.
  rewrite Hkey. destruct (autoRetry cfg); simpl; by rewrite Htop, Hcall, Hblob.
Qed.

Lemma drained_settled cfg w f : status f ≠ PENDING → drained cfg w f f.
Proof. intros Hst. unfold drained. by rewrite decide_False. Qed.

Lemma drained_refl cfg w l :
  Forall (fun f => status f ≠ PENDING) l → Forall2 (drained cfg w) l l.
Proof.
  induction 1 as [|f l Hf _ IH]; constructor; [by apply drained_settled|done].
Qed.

(** X14. While one loop runs with the stop flag clear, a credential set and
    no worker in flight, against a Transform Service whose first call
    always succeeds: if every worker settles before the loop wakes again,
    then after as many rounds of dispatch and write-back as there are
    Pending records and one more wake-up the loop has left
    ([isProcessing] false, no loop and no worker left), every record that was Pending is
    Completed with the answer of the service to its own files and prompt,
    and every other record is as it was. *)
Theorem X14_queue_drains w s :
  firstCallSucceeds w →
  reachable s →
  loops s = 1%nat → abortControllerRef s = false →
  workers s = [] → processingFiles (files s) = [] →
  truthy (apiKey (settings s)) = true →
  ∃ s', run s (drainEvents w (length (pendingFiles (files s)))) = Some s'
    ∧ Forall2 (drained (settings s) w) (files s) (files s')
    ∧ isProcessing s' = false ∧ loops s' = 0%nat ∧ workers s' = []
    ∧ settings s' = settings s.
Proof.
  intros [Htop Hcalls].
  remember (length (pendingFiles (files s))) as n eqn:Hlen. symmetry in Hlen.
  revert s Hlen. induction n as [|n IH];
    intros s Hlen Hreach Hrunning Habort Hworkers Hproc Hkey.
  - apply length_zero_iff_nil in Hlen.
    exists (setLoops 0 (setIsProcessing false s)). simpl. rewrite Hrunning.
    unfold whileBody. rewrite Habort, Hlen, Hproc. simpl.
    split_and!; try done.
    apply drained_refl. by apply pendingFiles_nil.
  - destruct (pendingFiles (files s)) as [|f pending] eqn:Hp; [done|].
    assert (head (pendingFiles (files s)) = Some f) as Hhd by by rewrite Hp.
    destruct (head_pendingFiles _ _ Hhd) as (Hin & Hst & _).
    pose proof (reachable_NoDup s Hreach) as Hnodup.
    pose proof (reachable_ceiling s Hreach) as Hceiling.
    set (s0 := setWorkers (workers s ++ [mkWorker f (settings s)])
                 (setFiles (mapById (id f) markProcessing) s)).
    set (s1 := setLoops 1 s0).
    assert (whileBody s = (s0, LoopDispatch f
              (if enableDelay (settings s) then 10000 else 100))) as Hbody.
    { apply whileBody_dispatch. split_and!; try done.
      rewrite Hproc. unfold MAX_CONCURRENCY. simpl. case_match; lia. }
    destruct (Hcalls (taskInputs f)
                (finalPrompt (customPromptTemplate (settings s)) f)
                (temperature (settings s)) (default "" (apiKey (settings s))))
      as (resultBase64 & blob & Hcall & Hblob).
    pose proof (processSingleFile_first_call _ _ _ _ _ Hkey Htop Hcall Hblob)
      as Hworker.
    destruct (mapById_NoDup_split markProcessing _ _ Hnodup Hin)
      as (l1 & l2 & Hsplit & Hmap & Hnot1 & Hnot2).
    set (cf := completedFile f resultBase64 blob).
    set (s2 := setFiles (mapById (id f) (fun _ => cf))
                 (setWorkers [] s1)).
    assert (step s LoopWakes = Some s1) as Hstep1.
    { simpl. by rewrite Hrunning, Hbody. }
    assert (step s1 (WorkerSettles 0 w) = Some s2) as Hstep2.
    { simpl. rewrite Hworkers. simpl.
      unfold processFileBackground. rewrite Hworker. done. }
    assert (files s2 = l1 ++ cf :: l2) as Hfiles2.
    { simpl. rewrite Hmap. by apply mapById_middle. }
    assert (reachable s2) as Hreach2.
    { eapply reachable_step; [|exact Hstep2].
      eapply reachable_step; [exact Hreach|exact Hstep1]. }
    assert (length (pendingFiles (files s2)) = n) as Hlen2.
    { assert (length (pendingFiles (files s)) = S n) as Hlen' by by rewrite Hp.
      revert Hlen'. unfold pendingFiles. rewrite !length_sort, Hfiles2, Hsplit.
      rewrite !filter_app, filter_cons_True by done.
      rewrite (filter_cons_False _ cf) by done.
      rewrite !length_app. simpl. lia. }
    assert (processingFiles (files s2) = []) as Hproc2.
    { apply processingFiles_nil. rewrite Hfiles2.
      apply processingFiles_nil_iff in Hproc. rewrite Hsplit in Hproc.
      apply Forall_app in Hproc as [H1 H2]. apply Forall_cons in H2 as [_ H2].
      apply Forall_app. split; [done|]. by apply Forall_cons. }
    destruct (IH s2 Hlen2 Hreach2 eq_refl Habort eq_refl Hproc2 Hkey)
      as (s' & Hrun & Hall & Hdone & Hleft & Hnone & Hsettings).
    exists s'. split_and!; try done.
    + change (drainEvents w (S n))
        with (LoopWakes :: WorkerSettles 0 w :: drainEvents w n).
      change (run s (LoopWakes :: WorkerSettles 0 w :: drainEvents w n))
        with (match step s LoopWakes with
              | Some s1 => run s1 (WorkerSettles 0 w :: drainEvents w n)
              | None => None
              end).
      rewrite Hstep1.
      change (run s1 (WorkerSettles 0 w :: drainEvents w n))
        with (match step s1 (WorkerSettles 0 w) with
              | Some s2 => run s2 (drainEvents w n)
              | None => None
              end).
      by rewrite Hstep2.
    + change (settings s2) with (settings s) in Hall.
      rewrite Hfiles2 in Hall. rewrite Hsplit.
      apply Forall2_app_inv_l in Hall as (k1 & k2 & H1 & H2 & ->).
      apply Forall2_cons_inv_l in H2 as (c' & k2' & Hc & H2 & ->).
      apply Forall2_app; [done|]. constructor; [|done].
      unfold drained in Hc |- *. rewrite decide_False in Hc by done.
      rewrite decide_True by done. subst c'. by exists resultBase64, blob.
Qed.

Lemma X14_queue_drains_witness :
  let s := default (initialState "k")
             (run (initialState "k")
                [AddFiles 1 [sampleIncoming "x"; sampleIncoming "y"];
                 StartProcessing; TimerFires; WorkerSettles 0 workingWorld]) in
  status <$> files s = [COMPLETED; PENDING]
  ∧ ∃ s', run s (drainEvents workingWorld 1) = Some s'
      ∧ status <$> files s' = [COMPLETED; COMPLETED]
      ∧ isProcessing s' = false.
Proof.
  intros s.
  assert (firstCallSucceeds workingWorld) as Hw.
  { split; [reflexivity|]. intros fs p t k. by eexists _, _. }
  assert (reachable s) as Hreach.
  { exists "k", [AddFiles 1 [sampleIncoming "x"; sampleIncoming "y"];
                 StartProcessing; TimerFires; WorkerSettles 0 workingWorld].
    vm_compute. reflexivity. }
  destruct (X14_queue_drains workingWorld s Hw Hreach)
    as (s' & Hrun & _ & Hdone & _); [vm_compute; reflexivity..|].
  split; [vm_compute; reflexivity|].
  exists s'.
  assert (length (pendingFiles (files s)) = 1%nat) as Hone
    by (vm_compute; reflexivity).
  rewrite Hone in Hrun.
  split; [exact Hrun|]. split; [|exact Hdone].
  vm_compute in Hrun. injection Hrun as <-. reflexivity.
Defined.

(** ** The order of display and the order of dispatch *)









(** ** The Transform Service *)

Section Service.
Import geminiService.

Lemma inlineParts_spec remote files ps :
  inlineParts remote files = Fulfilled ps ↔
  ∃ datas,
    Forall2 (fun f d => fileToGenericBase64 remote f = Fulfilled d) files datas
    ∧ ps = zip_with (fun f d => InlineData (file_type f) d) files datas.
Proof.
  revert ps. induction files as [|f files IH]; intros ps; simpl.
  - split.
    + intros [= <-]. exists []. by split; [constructor|].
    + intros (datas & Hall & ->). by inversion Hall.
  - destruct (fileToGenericBase64 remote f) as [d|e] eqn:Hf.
    + destruct (inlineParts remote files) as [ps'|e] eqn:Hrest.
      * destruct (IH ps') as [IH1 _].
        destruct (IH1 eq_refl) as (datas & Hall & ->).
        split.
        -- intros [= <-]. exists (d :: datas). split; [by constructor|done].
        -- intros (datas' & Hall' & ->).
           inversion Hall' as [|f0 d' files0 datas'' Hd Hrest']; subst.
           rewrite Hf in Hd. injection Hd as <-. simpl. do 2 f_equal.
           destruct (IH (zip_with (fun f d => InlineData (file_type f) d)
                           files datas'')) as [_ IH2].
           specialize (IH2 (ex_intro _ datas'' (conj Hrest' eq_refl))).
           by injection IH2.
      * split; [done|]. intros (datas' & Hall' & ->).
        inversion Hall' as [|f0 d' files0 datas'' Hd Hrest']; subst.
        destruct (IH (zip_with (fun f d => InlineData (file_type f) d)
                        files datas'')) as [_ IH2].
        by specialize (IH2 (ex_intro _ datas'' (conj Hrest' eq_refl))).
    + split; [done|]. intros (datas' & Hall' & ->).
      inversion Hall' as [|f0 d' files0 datas'' Hd Hrest']; subst.
      by rewrite Hf in Hd.
Qed.

Lemma firstImage_cons p rps :
  firstImage (p :: rps)
  = match firstImage [p] with
    | Some data => Some data
    | None => firstImage rps
    end.
Proof.
  destruct p as [mime [data|]|text]; simpl; try done.
  by destruct (String.eqb data "").
Qed.

Lemma firstImage_singleton p data :
  firstImage [p] = Some data ↔ ∃ mime, p = InlineData mime (Some data) ∧ data ≠ "".
Proof.
  destruct p as [mime [d|]|text]; simpl.
  - destruct (String.eqb_spec d "") as [->|Hne].
    + split; [done|]. by intros (mime' & [= <- <-] & ?).
    + split.
      * intros [= <-]. by exists mime.
      * by intros (mime' & [= <- <-] & ?).
  - split; [done|]. by intros (mime' & ? & ?).
  - split; [done|]. by intros (mime' & ? & ?).
Qed.

(** The image of a response is the data of its first part that carries
    non-empty inline data. *)
Lemma firstImage_spec rps data :
  firstImage rps = Some data ↔
  ∃ i mime, rps !! i = Some (InlineData mime (Some data)) ∧ data ≠ ""
    ∧ ∀ j p, (j < i)%nat → rps !! j = Some p → firstImage [p] = None.
Proof.
  induction rps as [|p rps IH].
  - split; [done|]. by intros (i & mime & ? & _).
  - rewrite firstImage_cons.
    destruct (firstImage [p]) as [d|] eqn:Hp.
    + apply firstImage_singleton in Hp as (mime & -> & Hne). split.
      * intros [= <-]. exists 0%nat, mime. split_and!; try done. lia.
      * intros ([|i] & mime' & Hi & _ & Hbefore).
        -- by injection Hi as <- <-.
        -- specialize (Hbefore 0%nat _ ltac:(lia) eq_refl).
           simpl in Hbefore. destruct (String.eqb_spec d ""); done.
    + rewrite IH. split.
      * intros (i & mime & Hi & Hne & Hbefore). exists (S i), mime.
        split_and!; try done. intros [|j] q Hj Hq.
        -- by injection Hq as <-.
        -- apply (Hbefore j); [lia|done].
      * intros ([|i] & mime & Hi & Hne & Hbefore).
        -- injection Hi as ->.
           assert (firstImage [InlineData mime (Some data)] = Some data) as Hq
             by (apply firstImage_singleton; eauto).
           congruence.
        -- exists i, mime. split_and!; try done. intros j q Hj Hq.
           apply (Hbefore (S j)); [lia|done].
Qed.

(** X16. The service fulfils exactly when every file could be read, the one
    request it makes holds one inline part per file, in the order of the
    files and with the type of each file, followed by the prompt as last
    part, and the first candidate of the response holds a part with
    non-empty inline data; the result is then the data of the first such
    part behind the prefix [data:image/png;base64,]. *)
Theorem X16_service_returns_first_image remote files customPrompt temperature
    apiKey resultBase64 :
  translateImageWithGemini remote files customPrompt temperature apiKey
  = Fulfilled resultBase64 ↔
  ∃ datas response rps i mime data,
    Forall2 (fun f d => fileToGenericBase64 remote f = Fulfilled d) files datas
    ∧ generateContent remote
        (zip_with (fun f d => InlineData (file_type f) d) files datas
         ++ [TextPart customPrompt]) temperature apiKey = Fulfilled response
    ∧ responseParts response = Some rps
    ∧ rps !! i = Some (InlineData mime (Some data)) ∧ data ≠ ""
    ∧ (∀ j p, (j < i)%nat → rps !! j = Some p → firstImage [p] = None)
    ∧ resultBase64 = "data:image/png;base64," +:+ data.
Proof.
  unfold translateImageWithGemini. split.
  - destruct (inlineParts remote files) as [ps|e] eqn:Hps; [|done].
    apply inlineParts_spec in Hps as (datas & Hall & ->).
    destruct (generateContent remote _ temperature apiKey) as [response|e] eqn:Hcall;
      [|done].
    destruct (responseParts response) as [rps|] eqn:Hrps; [|done].
    destruct (firstImage rps) as [data|] eqn:Himg; [|done].
    intros [= <-]. apply firstImage_spec in Himg as (i & mime & Hi & Hne & Hbefore).
    by exists datas, response, rps, i, mime, data.
  - intros (datas & response & rps & i & mime & data
            & Hall & Hcall & Hrps & Hi & Hne & Hbefore & ->).
    assert (inlineParts remote files
            = Fulfilled (zip_with (fun f d => InlineData (file_type f) d)
                           files datas)) as ->.
    { apply inlineParts_spec. by exists datas. }
    rewrite Hcall, Hrps.
    assert (firstImage rps = Some data) as ->; [|done].
    apply firstImage_spec. by exists i, mime.
Qed.

Lemma includes_nil pat : pat ≠ "" → includes pat "" = false.
Proof. by destruct pat. Qed.

(** X17. Once the files are read, the service never rejects with [null] or
    [undefined]: when the remote call rejects with one of them, reading its
    [message] in the [catch] throws a [TypeError] instead. An error of the remote call whose message contains
    [Requested entity was not found] is replaced by an error with the
    message [API Key invalid or project not found.]; any other error of the
    remote call is passed on as it is. A response without parts in its first
    candidate, and a response none of whose parts holds non-empty inline
    data, are rejected with the service's own two messages. A file that
    cannot be read rejects the call with the reader's error, whatever the
    remote model would answer. *)
Theorem X17_service_rejections remote files customPrompt temperature apiKey :
  let call :=
    translateImageWithGemini remote files customPrompt temperature apiKey in
  (∀ e, inlineParts remote files = Rejected e → call = Rejected e)
  ∧ ∀ ps, inlineParts remote files = Fulfilled ps →
      let request :=
        generateContent remote (ps ++ [TextPart customPrompt]) temperature apiKey in
      call ≠ Rejected ThrownNull ∧ call ≠ Rejected ThrownUndefined
      ∧ (request = Rejected ThrownNull →
           call = Rejected
                    (newError "Cannot read properties of null (reading 'message')"))
      ∧ (request = Rejected ThrownUndefined →
           call = Rejected
                    (newError
                       "Cannot read properties of undefined (reading 'message')"))
      ∧ (∀ message, request = Rejected (newError message) →
           call = Rejected (newError
                    (if includes "Requested entity was not found" message
                     then "API Key invalid or project not found."
                     else message)))
      ∧ (∀ response, request = Fulfilled response →
           responseParts response = None →
           call = Rejected (newError "No content returned from Gemini."))
      ∧ (∀ response rps, request = Fulfilled response →
           responseParts response = Some rps → firstImage rps = None →
           call = Rejected (newError "No image data found in response.")).
Proof.
  intros call. subst call. unfold translateImageWithGemini. split.
  { by intros e ->. }
  intros ps Hps. rewrite Hps. cbv zeta.
  assert (∀ bad, bad = ThrownNull ∨ bad = ThrownUndefined →
            match generateContent remote (ps ++ [TextPart customPrompt])
                    temperature apiKey with
            | Fulfilled response =>
                match responseParts response with
                | Some rps =>
                    match firstImage rps with
                    | Some data => Fulfilled ("data:image/png;base64," +:+ data)
                    | None =>
                        Rejected
                          (rethrown (newError "No image data found in response."))
                    end
                | None =>
                    Rejected (rethrown (newError "No content returned from Gemini."))
                end
            | Rejected error => Rejected (rethrown error)
            end ≠ Rejected bad) as Hnever.
  { intros bad Hbad.
    destruct (generateContent remote _ temperature apiKey) as [response|e].
    + destruct (responseParts response) as [rps|];
        [destruct (firstImage rps)|]; destruct Hbad as [-> | ->]; done.
    + destruct e as [| | |[message|]]; simpl;
        try (destruct Hbad as [-> | ->]; done).
      destruct (negb (String.eqb message "") && includes _ message);
        destruct Hbad as [-> | ->]; done. }
  split_and!.
  - apply Hnever. by left.
  - apply Hnever. by right.
  - by intros ->.
  - by intros ->.
  - intros message ->. unfold newError, rethrown.
    destruct (String.eqb_spec message "") as [->|Hne]; [done|].
    simpl. by destruct (includes _ message).
  - by intros response -> ->.
  - by intros response rps -> -> ->.
Qed.

Lemma X17_service_rejections_witness :
  translateImageWithGemini
    (mkRemote (fun _ => Fulfilled "data:image/png;base64,QUJD")
       (fun _ _ _ => Rejected (newError "404: Requested entity was not found.")))
    [mkFile "cat.png" "image/png" "CAT"] "redraw" 1%Qc "AIzaX"
  = Rejected (newError "API Key invalid or project not found.").
Proof.
  set (remote := mkRemote (fun _ => Fulfilled "data:image/png;base64,QUJD")
       (fun _ _ _ => Rejected (newError "404: Requested entity was not found."))).
  destruct (X17_service_rejections remote [mkFile "cat.png" "image/png" "CAT"]
              "redraw" 1%Qc "AIzaX") as [_ Hread].
  destruct (Hread _ eq_refl) as (_ & _ & _ & _ & Hmap & _).
  apply (Hmap "404: Requested entity was not found."). reflexivity.
Defined.

(** ** Reading a file as base64 *)

Lemma string_app_assoc (a b c : string) : (a +:+ b) +:+ c = a +:+ (b +:+ c).
Proof.
  induction a as [|x a IH]; [reflexivity|].
  change (String x ((a +:+ b) +:+ c) = String x (a +:+ (b +:+ c))).
  by rewrite IH.
Qed.

Lemma hasChar_app c a b : hasChar c (a +:+ b) = hasChar c a || hasChar c b.
Proof.
  induction a as [|c' a IH]; simpl; [done|]. by rewrite IH, orb_assoc.
Qed.

Lemma splitBy_no_sep sep s : hasChar sep s = false → splitBy sep s = [s].
Proof.
  induction s as [|c s IH]; simpl; [done|].
  intros [Hc Hs]%orb_false_iff. by rewrite Hc, IH.
Qed.

Lemma splitBy_app sep a b :
  hasChar sep a = false → splitBy sep (a +:+ String sep b) = a :: splitBy sep b.
Proof.
  induction a as [|c a IH]; simpl.
  - intros _. by rewrite Ascii.eqb_refl.
  - intros [Hc Ha]%orb_false_iff. by rewrite Hc, IH.
Qed.

(** X18. For a reader that answers with a data URL
    [data:<type>;base64,<payload>] (no comma in the type nor in the
    payload), [fileToGenericBase64] gives the payload; for a reader whose
    answer holds no comma it gives [undefined]; an error of the reader is
    passed on. *)
Theorem X18_fileToGenericBase64_strips_prefix remote f :
  (∀ mime payload,
      hasChar "," mime = false → hasChar "," payload = false →
      readAsDataURL remote f
      = Fulfilled ("data:" +:+ mime +:+ ";base64," +:+ payload) →
      fileToGenericBase64 remote f = Fulfilled (Some payload))
  ∧ (∀ base64String,
      hasChar "," base64String = false →
      readAsDataURL remote f = Fulfilled base64String →
      fileToGenericBase64 remote f = Fulfilled None)
  ∧ (∀ e, readAsDataURL remote f = Rejected e →
      fileToGenericBase64 remote f = Rejected e).
Proof.
  unfold fileToGenericBase64. split_and!.
  - intros mime payload Hmime Hpayload ->.
    assert ("data:" +:+ mime +:+ ";base64," +:+ payload
            = ("data:" +:+ mime +:+ ";base64") +:+ String "," payload) as ->.
    { by rewrite !string_app_assoc. }
    rewrite splitBy_app.
    + by rewrite splitBy_no_sep.
    + rewrite !hasChar_app, Hmime. done.
  - intros base64String Hno ->. by rewrite splitBy_no_sep.
  - by intros e ->.
Qed.

Lemma X18_fileToGenericBase64_strips_prefix_witness :
  fileToGenericBase64
    (mkRemote (fun _ => Fulfilled "data:image/png;base64,QUJD")
       (fun _ _ _ => Rejected ThrownUndefined))
    (mkFile "cat.png" "image/png" "CAT")
  = Fulfilled (Some "QUJD").
Proof.
  destruct (X18_fileToGenericBase64_strips_prefix
              (mkRemote (fun _ => Fulfilled "data:image/png;base64,QUJD")
                 (fun _ _ _ => Rejected ThrownUndefined))
              (mkFile "cat.png" "image/png" "CAT")) as (Hpayload & _).
  apply (Hpayload "image/png" "QUJD"); reflexivity.
Defined.

End Service.

(** ** The worker on top of the service *)

Lemma attemptLoop_fulfils_call w fileItem fs prompt temp key maxAttempts
    remaining attempts0 lastError backoffs0 updatedFile :
  let r := attemptLoop w fileItem fs prompt temp key maxAttempts remaining
             attempts0 lastError backoffs0 in
  settled r = Fulfilled updatedFile →
  ∃ resultBase64 blob,
    translateImageWithGemini w (attempts r) fs prompt temp key
    = Fulfilled resultBase64
    ∧ fetchBlob w (attempts r) resultBase64 = Fulfilled blob
    ∧ updatedFile = completedFile fileItem resultBase64 blob.
Proof.
  revert attempts0 lastError backoffs0.
  induction remaining as [|remaining IH]; intros attempts0 lastError backoffs0; simpl;
    [done|].
  destruct (abortAtLoopTop w attempts0); simpl; [done|].
  destruct (translateImageWithGemini w (S attempts0) fs prompt temp key)
    as [resultBase64|e] eqn:Hcall; [|by apply IH].
  destruct (fetchBlob w (S attempts0) resultBase64) as [blob|e] eqn:Hblob;
    [|by apply IH].
  simpl. intros [= <-]. by exists resultBase64, blob.
Qed.

Lemma attemptLoop_all_reject w fileItem fs prompt temp key maxAttempts
    remaining attempts0 lastError backoffs0 e :
  (∀ n, translateImageWithGemini w n fs prompt temp key = Rejected e) →
  (∀ n, abortAtLoopTop w n = false) →
  let r := attemptLoop w fileItem fs prompt temp key maxAttempts remaining
             attempts0 lastError backoffs0 in
  attempts r = (attempts0 + remaining)%nat
  ∧ settled r
    = Rejected (lastErrorOr (match remaining with
                             | O => lastError
                             | S _ => Some e
                             end) "Processing failed").
Proof.
  intros Hcall Htop. revert attempts0 lastError backoffs0.
  induction remaining as [|remaining IH]; intros attempts0 lastError backoffs0; simpl.
  { split; [lia|done]. }
  rewrite Htop, Hcall.
  destruct (IH (S attempts0) (Some e)
              (if (S attempts0 <? maxAttempts)%nat && negb (abortInCatch w (S attempts0))
               then S backoffs0 else backoffs0)) as [Hn Hs].
  split; [rewrite Hn; lia|]. rewrite Hs. by destruct remaining.
Qed.

Lemma service_result_is_data_url remote files customPrompt temperature apiKey
    resultBase64 :
  geminiService.translateImageWithGemini remote files customPrompt temperature
    apiKey = Fulfilled resultBase64 →
  ∃ data, resultBase64 = "data:image/png;base64," +:+ data ∧ data ≠ "".
Proof.
  unfold geminiService.translateImageWithGemini.
  destruct (geminiService.inlineParts remote files) as [ps|e]; [|done].
  destruct (geminiService.generateContent remote _ temperature apiKey)
    as [response|e]; [|done].
  destruct (geminiService.responseParts response) as [rps|]; [|done].
  destruct (geminiService.firstImage rps) as [data|] eqn:Himg; [|done].
  intros [= <-]. exists data. split; [done|].
  clear -Himg. induction rps as [|p rps IH]; [done|].
  destruct p as [mime [d|]|text]; simpl in Himg; try by apply IH.
  destruct (String.eqb_spec d ""); [by apply IH|]. by injection Himg as <-.
Qed.

(** X19. A worker whose calls go through the service and that succeeds:
    the record it writes back is the record it was given, Completed, with
    the data URL the service returned at the last attempt for the task's
    own files and prompt, a PNG data URL with a non-empty payload, and the
    blob fetched from it; its card shows the result image and the result
    buttons, and no error line. *)
Theorem X19_completed_card_shows_service_image cfg remote fetch abortTop
    abortCatch fileItem updatedFile :
  let r := processSingleFile cfg
             (serviceWorld remote fetch abortTop abortCatch) fileItem in
  settled r = Fulfilled updatedFile →
  ∃ data blob,
    data ≠ ""
    ∧ geminiService.translateImageWithGemini (remote (attempts r))
        (taskInputs fileItem) (finalPrompt (customPromptTemplate cfg) fileItem)
        (temperature cfg) (default "" (apiKey cfg))
      = Fulfilled ("data:image/png;base64," +:+ data)
    ∧ fetch (attempts r) ("data:image/png;base64," +:+ data) = Fulfilled blob
    ∧ updatedFile
      = completedFile fileItem ("data:image/png;base64," +:+ data) blob
    ∧ showsResultImage updatedFile = true
    ∧ showsResultButtons updatedFile = true
    ∧ showsError updatedFile = false.
Proof.
  intros r. subst r. unfold processSingleFile.
  destruct (truthy (apiKey cfg)); simpl; [|done].
  fold (taskInputs fileItem). intros Hrun.
  apply attemptLoop_fulfils_call in Hrun as (resultBase64 & blob & Hcall & Hblob & ->).
  simpl in Hcall, Hblob.
  destruct (service_result_is_data_url _ _ _ _ _ _ Hcall) as (data & -> & Hne).
  exists data, blob. by split_and!.
Qed.

Lemma X19_completed_card_shows_service_image_witness :
  ∃ data blob,
    settled (processSingleFile (initialSettings "AIzaX")
               (serviceWorld
                  (fun _ => geminiService.mkRemote
                     (fun _ => Fulfilled "data:image/png;base64,QUJD")
                     (fun _ _ _ => Fulfilled (geminiService.mkResponse
                        (Some [geminiService.mkCandidate
                           (Some (geminiService.mkContent
                              (Some [geminiService.TextPart "done";
                                     geminiService.InlineData "image/jpeg"
                                       (Some "REVG")])))]))))
                  (fun _ _ => Fulfilled (mkBlob "image/png" "DEF"))
                  (fun _ => false) (fun _ => false))
               (sampleFile "a" PENDING 1))
    = Fulfilled (completedFile (sampleFile "a" PENDING 1)
                   ("data:image/png;base64," +:+ data) blob)
    ∧ data = "REVG".
Proof.
  set (w := serviceWorld _ _ _ _).
  destruct (X19_completed_card_shows_service_image (initialSettings "AIzaX")
              (fun _ => geminiService.mkRemote
                 (fun _ => Fulfilled "data:image/png;base64,QUJD")
                 (fun _ _ _ => Fulfilled (geminiService.mkResponse
                    (Some [geminiService.mkCandidate
                       (Some (geminiService.mkContent
                          (Some [geminiService.TextPart "done";
                                 geminiService.InlineData "image/jpeg"
                                   (Some "REVG")])))]))))
              (fun _ _ => Fulfilled (mkBlob "image/png" "DEF"))
              (fun _ => false) (fun _ => false)
              (sampleFile "a" PENDING 1)
              (completedFile (sampleFile "a" PENDING 1)
                 "data:image/png;base64,REVG" (mkBlob "image/png" "DEF"))
              eq_refl)
    as (data & blob & _ & Hcall & _ & Hfile & _).
  exists data, blob. split.
  - fold w in Hfile. rewrite <- Hfile. reflexivity.
  - vm_compute in Hcall. by injection Hcall as <-.
Defined.

(** X20. A worker with a credential whose calls go through the service,
    when the remote model answers every call with an error whose message
    contains [Requested entity was not found] and no stop is requested:
    the error is retried like any other (3 attempts with auto-retry, 1
    without), and the write-back marks the record Failed with the message
    [API Key invalid or project not found.]. *)
Theorem X20_invalid_key_is_retried_and_reported cfg remote fetch abortCatch
    fileItem ps message :
  truthy (apiKey cfg) = true →
  geminiService.inlineParts remote (taskInputs fileItem) = Fulfilled ps →
  geminiService.generateContent remote
    (ps ++ [geminiService.TextPart
              (finalPrompt (customPromptTemplate cfg) fileItem)])
    (temperature cfg) (default "" (apiKey cfg)) = Rejected (newError message) →
  geminiService.includes "Requested entity was not found" message = true →
  let w := serviceWorld (fun _ => remote) fetch (fun _ => false) abortCatch in
  attempts (processSingleFile cfg w fileItem)
  = (if autoRetry cfg then 3 else 1)%nat
  ∧ processFileBackground cfg w fileItem
    = Fulfilled (mapById (id fileItem)
                   (failedFile "API Key invalid or project not found.")).
Proof.
  intros Hkey Hps Hcall Hincl w.
  assert (∀ n, translateImageWithGemini w n (taskInputs fileItem)
                 (finalPrompt (customPromptTemplate cfg) fileItem)
                 (temperature cfg) (default "" (apiKey cfg))
               = Rejected (newError "API Key invalid or project not found."))
    as Hall.
  { intros n. simpl. unfold geminiService.translateImageWithGemini.
    rewrite Hps. cbv zeta. rewrite Hcall. unfold newError, geminiService.rethrown.
    rewrite Hincl.
    destruct (String.eqb_spec message "") as [->|Hne]; [done|done]. }
  assert (processSingleFile cfg w fileItem
          = attemptLoop w fileItem (taskInputs fileItem)
              (finalPrompt (customPromptTemplate cfg) fileItem) (temperature cfg)
              (default "" (apiKey cfg))
              (if autoRetry cfg then 3 else 1)%nat
              (if autoRetry cfg then 3 else 1)%nat 0 None 0) as Hrun.
  { unfold processSingleFile. by rewrite Hkey. }
  destruct (attemptLoop_all_reject w fileItem (taskInputs fileItem)
              (finalPrompt (customPromptTemplate cfg) fileItem) (temperature cfg)
              (default "" (apiKey cfg)) (if autoRetry cfg then 3 else 1)%nat
              (if autoRetry cfg then 3 else 1)%nat 0 None 0 _ Hall
              (fun _ => eq_refl)) as [Hn Hs].
  split.
  - by rewrite Hrun, Hn.
  - unfold processFileBackground. rewrite Hrun, Hs.
    by destruct (autoRetry cfg).
Qed.

Lemma X20_invalid_key_is_retried_and_reported_witness :
  let remote := geminiService.mkRemote
       (fun _ => Fulfilled "data:image/png;base64,QUJD")
       (fun _ _ _ => Rejected (newError "404: Requested entity was not found.")) in
  let w := serviceWorld (fun _ => remote)
             (fun _ _ => Fulfilled (mkBlob "image/png" "DEF"))
             (fun _ => false) (fun _ => false) in
  attempts (processSingleFile
              (changeSettings (SetAutoRetry true) (initialSettings "AIzaX")) w
              (sampleFile "a" PENDING 1)) = 3%nat.
Proof.
  intros remote w.
  apply (X20_invalid_key_is_retried_and_reported
           (changeSettings (SetAutoRetry true) (initialSettings "AIzaX"))
           remote (fun _ _ => Fulfilled (mkBlob "image/png" "DEF"))
           (fun _ => false) (sampleFile "a" PENDING 1)
           [geminiService.InlineData "image/png" (Some "QUJD")]
           "404: Requested entity was not found.");
    reflexivity.
Defined.

(** ** The credential: entering, finding and forgetting it *)

Lemma prefix_AIza_nonempty key : String.prefix "AIza" key = true → key ≠ "".
Proof. by intros Hp ->. Qed.

(** X21. [handleManualSubmit] accepts the trimmed input exactly when it
    starts with [AIza]. An accepted key is not empty, is stored under
    [gemini_api_key] (no other entry of the storage changes) and handed to
    the application, and no error is shown; on the next visit [checkKey]
    finds that key in the storage when AI Studio is absent or has no key
    selected. A refused input leaves the storage as it was, hands nothing to
    the application and shows the error. *)
Theorem X21_manual_key_is_stored_and_found trim inputKey localStorage :
  let r := ApiKeyChecker.handleManualSubmit trim inputKey localStorage in
  (String.prefix "AIza" (trim inputKey) = true →
     ApiKeyChecker.readyKey r = Some (trim inputKey)
     ∧ truthy (ApiKeyChecker.readyKey r) = true
     ∧ ApiKeyChecker.errorShown r = None
     ∧ ApiKeyChecker.storageAfter r !! storageKey = Some (trim inputKey)
     ∧ (∀ k, k ≠ storageKey →
          ApiKeyChecker.storageAfter r !! k = localStorage !! k)
     ∧ (∀ envApiKey,
          ApiKeyChecker.checkKey ApiKeyChecker.NoAiStudio envApiKey
            (ApiKeyChecker.storageAfter r) = Some (trim inputKey)
          ∧ ApiKeyChecker.checkKey
              (ApiKeyChecker.HasSelectedApiKey (Fulfilled false)) envApiKey
              (ApiKeyChecker.storageAfter r) = Some (trim inputKey)))
  ∧ (String.prefix "AIza" (trim inputKey) = false →
     ApiKeyChecker.readyKey r = None
     ∧ ApiKeyChecker.storageAfter r = localStorage
     ∧ truthy (ApiKeyChecker.errorShown r) = true).
Proof.
  intros r. subst r. unfold ApiKeyChecker.handleManualSubmit. split; intros Hp;
    rewrite Hp; simpl; [|done].
  pose proof (prefix_AIza_nonempty _ Hp) as Hne.
  split_and!; try done.
  - by apply truthy_Some.
  - by rewrite lookup_insert_eq.
  - intros k Hk. by rewrite lookup_insert_ne.
  - intros envApiKey. unfold ApiKeyChecker.checkKey.
    rewrite lookup_insert_eq. destruct (String.eqb_spec (trim inputKey) ""); done.
Qed.

Lemma X21_manual_key_is_stored_and_found_witness :
  ApiKeyChecker.checkKey ApiKeyChecker.NoAiStudio None
    (ApiKeyChecker.storageAfter
       (ApiKeyChecker.handleManualSubmit (fun s => s) "AIzaSyX" ∅))
  = Some "AIzaSyX".
Proof.
  destruct (X21_manual_key_is_stored_and_found (fun s => s) "AIzaSyX" ∅)
    as [Hok _].
  destruct (Hok eq_refl) as (_ & _ & _ & _ & _ & Hfound).
  apply (Hfound None).
Defined.

(** X22. The key [checkKey] hands to the application is never empty, so the
    application leaves the key screen and the worker's credential check
    passes. With a key selected in AI Studio and a non-empty environment
    key, that key wins over the stored one; a failing AI Studio probe hands
    over nothing, even when a key is stored; in every other case the stored
    key is handed over when it is not empty. After [handleLogout] no stored
    key is found any more, and the other entries of the storage are
    untouched. *)
Theorem X22_checkKey_precedence aistudio envApiKey localStorage :
  (∀ key, ApiKeyChecker.checkKey aistudio envApiKey localStorage = Some key →
     truthy (Some key) = true)
  ∧ (aistudio = ApiKeyChecker.HasSelectedApiKey (Fulfilled true) →
     truthy envApiKey = true →
     ApiKeyChecker.checkKey aistudio envApiKey localStorage = envApiKey)
  ∧ (∀ e, aistudio = ApiKeyChecker.HasSelectedApiKey (Rejected e) →
     ApiKeyChecker.checkKey aistudio envApiKey localStorage = None)
  ∧ (∀ storedKey,
     aistudio = ApiKeyChecker.HasSelectedApiKey (Fulfilled true) →
     truthy envApiKey = false →
     localStorage !! storageKey = Some storedKey → storedKey ≠ "" →
     ApiKeyChecker.checkKey aistudio envApiKey localStorage = Some storedKey)
  ∧ (∀ storedKey,
     aistudio = ApiKeyChecker.NoAiStudio
     ∨ aistudio = ApiKeyChecker.HasSelectedApiKey (Fulfilled false) →
     localStorage !! storageKey = Some storedKey → storedKey ≠ "" →
     ApiKeyChecker.checkKey aistudio envApiKey localStorage = Some storedKey)
  ∧ (truthy envApiKey = false →
     ApiKeyChecker.checkKey aistudio envApiKey (handleLogout localStorage) = None)
  ∧ (∀ k, k ≠ storageKey → handleLogout localStorage !! k = localStorage !! k).
Proof.
  assert (∀ (st : gmap string string) key,
            match st !! storageKey with
            | Some storedKey =>
                if String.eqb storedKey "" then None else Some storedKey
            | None => None
            end = Some key → truthy (Some key) = true) as Hstored.
  { intros st key. destruct (st !! storageKey) as [storedKey|]; [|done].
    destruct (String.eqb_spec storedKey ""); [done|].
    intros [= <-]. by apply truthy_Some. }
  unfold ApiKeyChecker.checkKey. split_and!.
  - intros key. destruct aistudio as [|[[|]|e]]; try done; try apply Hstored.
    destruct (truthy envApiKey) eqn:Henv; [|apply Hstored].
    by intros ->.
  - by intros -> ->.
  - by intros e ->.
  - intros storedKey -> -> -> Hne. by destruct (String.eqb_spec storedKey "").
  - intros storedKey [->| ->] -> Hne; by destruct (String.eqb_spec storedKey "").
  - intros Henv. unfold handleLogout. rewrite lookup_delete_eq.
    destruct aistudio as [|[[|]|e]]; try done. by rewrite Henv.
  - intros k Hk. unfold handleLogout. by rewrite lookup_delete_ne.
Qed.

Lemma X22_checkKey_precedence_witness :
  ApiKeyChecker.checkKey
    (ApiKeyChecker.HasSelectedApiKey (Fulfilled true)) (Some "AIzaEnv")
    (<[storageKey := "AIzaStored"]> ∅) = Some "AIzaEnv"
  ∧ ApiKeyChecker.checkKey
      (ApiKeyChecker.HasSelectedApiKey (Rejected ThrownFalsy)) None
      (<[storageKey := "AIzaStored"]> ∅) = None.
Proof.
  split.
  - destruct (X22_checkKey_precedence
                (ApiKeyChecker.HasSelectedApiKey (Fulfilled true)) (Some "AIzaEnv")
                (<[storageKey := "AIzaStored"]> ∅)) as (_ & Henv & _).
    by apply Henv.
  - destruct (X22_checkKey_precedence
                (ApiKeyChecker.HasSelectedApiKey (Rejected ThrownFalsy)) None
                (<[storageKey := "AIzaStored"]> ∅)) as (_ & _ & Hprobe & _).
    by apply (Hprobe ThrownFalsy).
Defined.

(** ** What the cards show *)

Lemma quietUpdate_errorMatchesStatus f f' :
  quietUpdate f f' → errorMatchesStatus f → errorMatchesStatus f'.
Proof.
  intros Hq [Hfailed Herror]. destruct Hq; try done.
  - unfold markPending. case_decide; [|done].
    split; [done|]. by intros [? ?].
  - split; [done|]. by intros [? ?].
  - split; [done|]. by intros [? ?].
  - split; [|done]. intros _. by apply truthy_Some.
Qed.

Lemma step_errorMatchesStatus s e s' :
  Forall errorMatchesStatus (files s) → step s e = Some s' →
  Forall errorMatchesStatus (files s').
Proof.
  intros Hinv Hstep.
  destruct (step_storeChange _ _ _ Hstep) as [new -> Hnew _|Hsub|Hq|f _ _ -> _].
  - apply Forall_app. split; [done|].
    eapply Forall_impl; [exact Hnew|].
    intros f (Hst & Hu & Hb & He). unfold errorMatchesStatus. rewrite Hst, He.
    split; [done|]. by intros [? ?].
  - apply Forall_forall. intros f Hin. rewrite Forall_forall in Hinv.
    by eapply Hinv, elem_of_sublist.
  - revert Hinv. induction Hq as [|f f' l l' Hq _ IH]; [done|].
    rewrite !Forall_cons. intros [Hf Hl]. split; [|by apply IH].
    by eapply quietUpdate_errorMatchesStatus.
  - apply Forall_forall. intros f' Hin.
    apply elem_of_mapById in Hin as (f0 & Hf0 & ->).
    rewrite Forall_forall in Hinv. case_decide; [|by apply Hinv].
    split; [done|]. by intros [? ?].
Qed.

Lemma reachable_errorMatchesStatus s :
  reachable s → Forall errorMatchesStatus (files s).
Proof.
  apply (reachable_invariant (fun s => Forall errorMatchesStatus (files s))).
  - intros key. constructor.
  - apply step_errorMatchesStatus.
Qed.

(** X23. On the card of every record of a reachable store, the buttons
    "use result as input" and "download" are shown exactly when the record
    is Completed, and the error line exactly when it is Failed; a card
    that shows the result image shows the buttons and no error line. *)
Theorem X23_card_shows_what_status_says s f :
  reachable s → f ∈ files s →
  (showsResultButtons f = true ↔ status f = COMPLETED)
  ∧ (showsError f = true ↔ status f = FAILED)
  ∧ (showsResultImage f = true →
       showsResultButtons f = true ∧ showsError f = false).
Proof.
  intros Hs Hf.
  pose proof (reachable_settledFields s Hs) as Hsettled.
  pose proof (reachable_errorMatchesStatus s Hs) as Herr.
  rewrite Forall_forall in Hsettled, Herr.
  destruct (Hsettled f Hf) as (Hc & _ & _).
  destruct (Herr f Hf) as (Hfailed & Herror).
  assert (showsResultButtons f = true ↔ status f = COMPLETED) as Hbuttons.
  { unfold showsResultButtons. rewrite andb_true_iff, !bool_decide_eq_true.
    split; [by intros [? _]|]. intros Hst. split; [done|]. by apply Hc. }
  assert (showsError f = true ↔ status f = FAILED) as Hline.
  { unfold showsError. split; [|done]. intros Ht. apply Herror.
    destruct (error f); [done|discriminate]. }
  split_and!; try done.
  unfold showsResultImage. rewrite andb_true_iff, bool_decide_eq_true.
  intros [Hst _]. split; [by apply Hbuttons|].
  apply not_true_iff_false. intros He. apply Hline in He. congruence.
Qed.

Lemma X23_card_shows_what_status_says_witness :
  let s := default (initialState "k")
             (run (initialState "k")
                [AddFiles 1 [sampleIncoming "x"]; StartProcessing; TimerFires;
                 WorkerSettles 0 failingWorld]) in
  ∃ f, files s = [f] ∧ status f = FAILED ∧ showsError f = true
    ∧ showsResultButtons f = false.
Proof.
  intros s.
  assert (reachable s) as Hreach.
  { exists "k", [AddFiles 1 [sampleIncoming "x"]; StartProcessing; TimerFires;
                 WorkerSettles 0 failingWorld].
    vm_compute. reflexivity. }
  set (f := failedFile "503"
              (markProcessing (markPending (newImageFile 1 (sampleIncoming "x"))))).
  assert (files s = [f]) as Hfiles by (vm_compute; reflexivity).
  destruct (X23_card_shows_what_status_says s f Hreach) as (Hbuttons & Hline & _).
  { rewrite Hfiles. by left. }
  exists f. split_and!; [done|done|by apply Hline|].
  apply not_true_iff_false. intros Hb. apply Hbuttons in Hb. discriminate.
Defined.

(** ** The archive *)








(** ** Clearing the queue *)

(** X25. [clearAll] does nothing while [isProcessing] is set. Otherwise it
    empties
    the store and leaves the workers that are still in flight alone; the
    write-back of each of them, success or failure, then finds no record
    and leaves the store empty. *)
Theorem X25_clearAll_drops_late_results s :
  (isProcessing s = true → clearAll s = s)
  ∧ (isProcessing s = false →
       files (clearAll s) = [] ∧ workers (clearAll s) = workers s
       ∧ ∀ n wk w, workers s !! n = Some wk →
           ∃ s', step (clearAll s) (WorkerSettles n w) = Some s'
             ∧ files s' = [] ∧ workers s' = delete n (workers s)).
Proof.
  unfold clearAll. split; intros ->; [done|]. split_and!; try done.
  intros n wk w Hwk. simpl. rewrite Hwk.
  destruct (processFileBackground_cases (workerSettings wk) w (workerItem wk))
    as [(resultBase64 & blob & _ & ->)|(m & _ & ->)]; by eexists.
Qed.

Lemma X25_clearAll_drops_late_results_witness :
  let s := default (initialState "k")
             (run (initialState "k")
                [AddFiles 1 [sampleIncoming "x"]; StartProcessing; TimerFires;
                 StopProcessing; LoopWakes]) in
  isProcessing s = false ∧ length (workers s) = 1%nat ∧ length (files s) = 1%nat
  ∧ ∃ s', step (clearAll s) (WorkerSettles 0 workingWorld) = Some s'
      ∧ files s' = [].
Proof.
  intros s.
  assert (isProcessing s = false) as Hidle by (vm_compute; reflexivity).
  set (wk := mkWorker (markPending (newImageFile 1 (sampleIncoming "x")))
               (initialSettings "k")).
  assert (workers s !! 0%nat = Some wk) as Hwk by (vm_compute; reflexivity).
  destruct (X25_clearAll_drops_late_results s) as [_ Hclear].
  destruct (Hclear Hidle) as (_ & _ & Hlate).
  destruct (Hlate 0%nat wk workingWorld Hwk) as (s' & Hstep & Hempty & _).
  split_and!; [done|vm_compute; reflexivity|vm_compute; reflexivity|].
  by exists s'.
Defined.

(** ** Regenerate moves a task to the front *)

Lemma head_sort_latest l x :
  x ∈ l →
  (∀ g, g ∈ l → g = x ∨ lastActivityTimestamp g < lastActivityTimestamp x) →
  head (sort byRecentActivity l) = Some x.
Proof.
  intros Hx Hlatest.
  destruct (head (sort byRecentActivity l)) as [h|] eqn:Hhd.
  - destruct (head_sort_byRecentActivity _ _ Hhd) as (k1 & k2 & -> & H1 & H2).
    destruct (Hlatest h) as [->|Hlt]; [|done|].
    { apply elem_of_app. right. by left. }
    exfalso. rewrite Forall_forall in H1, H2.
    apply elem_of_app in Hx as [Hx|Hx]; [specialize (H1 x Hx); lia|].
    apply elem_of_cons in Hx as [->|Hx]; [lia|]. specialize (H2 x Hx). lia.
  - exfalso.
    assert (sort byRecentActivity l = []) as Hnil
      by by destruct (sort byRecentActivity l).
    rewrite <- (sort_Permutation byRecentActivity), Hnil in Hx.
    by apply elem_of_nil in Hx.
Qed.

(** X26. Regenerate at a time later than every activity recorded in the
    store, in a reachable state: the regenerated record becomes the
    topmost card of the sorted display and the first of the Pending records
    the loop considers. If the application shows no processing, no other
    call of [processQueue] is queued and no record is Processing, the call
    that Regenerate queues starts a loop whose first pass dispatches that
    record. *)
Theorem X26_regenerated_task_goes_first key now s f :
  reachable s → f ∈ files s → id f = key →
  Forall (fun g => lastActivityTimestamp g < now) (files s) →
  let s1 := handleRegenerate key now s in
  head (sortedFiles true (files s1)) = Some (regenerated now f)
  ∧ head (pendingFiles (files s1)) = Some (regenerated now f)
  ∧ (isProcessing s = false → timers s = [] →
     processingFiles (files s) = [] →
       ∃ s', run s [Regenerate key now; TimerFires] = Some s'
         ∧ isProcessing s' = true ∧ loops s' = S (loops s)
         ∧ markProcessing (regenerated now f) ∈ files s'
         ∧ last (workers s') = Some (mkWorker (regenerated now f) (settings s))).
Proof.
  intros Hs Hf <- Hnow s1.
  pose proof (reachable_NoDup s Hs) as Hnodup.
  destruct (mapById_NoDup_split (regenerated now) _ _ Hnodup Hf)
    as (l1 & l2 & Hsplit & Hmap & Hnot1 & Hnot2).
  assert (files s1 = l1 ++ regenerated now f :: l2) as Hfiles1 by done.
  rewrite Hsplit in Hnow. apply Forall_app in Hnow as [Hnow1 Hnow2].
  apply Forall_cons in Hnow2 as [_ Hnow2].
  assert (∀ g, g ∈ files s1 →
            g = regenerated now f
            ∨ lastActivityTimestamp g < lastActivityTimestamp (regenerated now f))
    as Hlatest.
  { intros g. rewrite Hfiles1, elem_of_app, elem_of_cons.
    rewrite Forall_forall in Hnow1, Hnow2.
    intros [Hg|[->|Hg]]; [right; by apply Hnow1|by left|right; by apply Hnow2]. }
  assert (regenerated now f ∈ files s1) as Hin.
  { rewrite Hfiles1. apply elem_of_app. right. by left. }
  assert (head (pendingFiles (files s1)) = Some (regenerated now f)) as Hhd.
  { apply head_sort_latest.
    - by apply list_elem_of_filter.
    - intros g [_ Hg]%list_elem_of_filter. by apply Hlatest. }
  split_and!; [by apply head_sort_latest|done|].
  intros Hidle Htimers Hproc.
  set (s2 := setAbort false (setIsProcessing true (setTimers [] s1))).
  assert (processingFiles (files s2) = []) as Hproc2.
  { apply processingFiles_nil. change (files s2) with (files s1).
    rewrite Hfiles1. apply processingFiles_nil_iff in Hproc.
    rewrite Hsplit in Hproc. apply Forall_app in Hproc as [H1 H2].
    apply Forall_cons in H2 as [_ H2].
    apply Forall_app. split; [done|]. by apply Forall_cons. }
  pose proof (reachable_ceiling s Hs) as Hceiling.
  assert (whileBody s2
          = (setWorkers (workers s2 ++ [mkWorker (regenerated now f) (settings s2)])
               (setFiles (mapById (id (regenerated now f)) markProcessing) s2),
             LoopDispatch (regenerated now f)
               (if enableDelay (settings s2) then 10000 else 100))) as Hbody.
  { apply whileBody_dispatch. split_and!; try done.
    rewrite Hproc2. change (settings s2) with (settings s).
    unfold MAX_CONCURRENCY. simpl. case_match; lia. }
  eexists. split_and!.
  - simpl. rewrite Htimers, Hidle. simpl. unfold processQueue.
    change (whileBody _) with (whileBody s2). by rewrite Hbody.
  - done.
  - done.
  - simpl. change (id (regenerated now f)) with (id f).
    apply elem_of_mapById. exists (regenerated now f). split; [done|].
    by rewrite decide_True.
  - simpl. by rewrite last_snoc.
Qed.

Lemma X26_regenerated_task_goes_first_witness :
  let s := default (initialState "k")
             (run (initialState "k")
                [AddFiles 1 [sampleIncoming "x"]; AddFiles 2 [sampleIncoming "y"];
                 StartProcessing; TimerFires; WorkerSettles 0 workingWorld;
                 StopProcessing; LoopWakes]) in
  (status <$> files s) = [PENDING; COMPLETED]
  ∧ (id <$> head (pendingFiles (files s))) = Some "x"
  ∧ (id <$> head (pendingFiles (files (handleRegenerate "y" 5 s)))) = Some "y"
  ∧ (id <$> head (sortedFiles true (files (handleRegenerate "y" 5 s)))) = Some "y".
Proof.
  intros s.
  assert (reachable s) as Hreach.
  { exists "k", [AddFiles 1 [sampleIncoming "x"]; AddFiles 2 [sampleIncoming "y"];
                 StartProcessing; TimerFires; WorkerSettles 0 workingWorld;
                 StopProcessing; LoopWakes].
    vm_compute. reflexivity. }
  set (f := completedFile (markPending (newImageFile 2 (sampleIncoming "y")))
              "data:image/png;base64,AAAA" (mkBlob "image/png" "AAAA")).
  assert (files s !! 1%nat = Some f) as Hf by (vm_compute; reflexivity).
  assert (Forall (fun g => lastActivityTimestamp g < 5) (files s)) as Hnow.
  { assert (files s = [markPending (newImageFile 1 (sampleIncoming "x")); f])
      as -> by (vm_compute; reflexivity).
    repeat constructor. }
  destruct (X26_regenerated_task_goes_first "y" 5 s f Hreach) as (Htop & Hnext & _);
    [by eapply list_elem_of_lookup_2|reflexivity|exact Hnow|].
  split_and!.
  - vm_compute. reflexivity.
  - vm_compute. reflexivity.
  - by rewrite Hnext.
  - by rewrite Htop.
Defined.

(** ** The discipline of results and errors *)

(** X27. Along every run from the initial state in which Regenerate is not
    pressed on a record that is Processing, every record of the store keeps
    the discipline of its status: Completed with a result (URL and blob)
    and no error, Failed with an error and no result, Idle, Pending and
    Processing with neither. *)
Theorem X27_result_and_error_discipline key events s :
  gentleRun (initialState key) events →
  run (initialState key) events = Some s →
  Forall consistent (files s).
Proof.
  intros Hgentle Hrun.
  eapply gentle_run_consistent; [apply initialState_tidy|exact Hgentle|exact Hrun].
Qed.

Lemma X27_result_and_error_discipline_witness :
  let events := [AddFiles 1 [sampleIncoming "x"; sampleIncoming "y"];
                 StartProcessing; TimerFires; WorkerSettles 0 failingWorld;
                 Regenerate "x" 7; LoopWakes; WorkerSettles 0 workingWorld] in
  let s := default (initialState "k") (run (initialState "k") events) in
  (status <$> files s) = [COMPLETED; PENDING] ∧ Forall consistent (files s).
Proof.
  intros events s. split; [vm_compute; reflexivity|].
  apply (X27_result_and_error_discipline "k" events).
  - vm_compute. split_and!; try exact I.
    repeat constructor; intros _ Hst; discriminate Hst.
  - vm_compute. reflexivity.
Defined.
